(** * Security perimeter of 2GETPRO-v2: rate limiter, webhook validator,
      access control, rate-limit middleware.

    A shallow embedding of
      - [src/security/rate_limiter/redis_rate_limiter.py]
      - [src/security/rate_limiter/middleware.py]
      - [src/security/rate_limiter/decorators.py]
      - [src/security/webhook_validator/signature_validator.py]
      - [src/security/webhook_validator/ip_whitelist.py]
      - [src/security/webhook_validator/decorators.py]
      - [src/security/access_control/permissions.py]
      - [src/security/access_control/decorators.py]
    and the properties of the specification stated over it.

    Conventions of the embedding.
      - [time.time()] is a float of seconds; a clock reading is modelled as
        an integer number of ticks, [tps] ticks per second.  Every public
        operation reads the clock once and receives that reading as [now];
        the store's own clock (used for key expiry) shows the same reading.
      - A Python [str] is a Rocq [string]; a character is a code point below
        256 (Latin-1), so the non-ASCII behaviour of [str.lower] and
        [hmac.compare_digest] is covered, characters beyond U+00FF are not.
      - Code that can raise lives in the monad [M]: a computation takes the
        store and returns [Ok v] or [Raise] with the new store. *)

From stdpp Require Import gmap strings list fin_maps sorting pretty.
From Stdlib Require Uint63 PrimFloat.
From Stdlib Require Import ZArith Lia Ascii.

Local Open Scope Z_scope.

(** ** The shared counter store (Redis), as far as the code uses it *)

Module Store.

(** Ticks per second of the modelled clock. *)
Definition tps : Z := 1000000.

(** A sorted set written by this program holds members [str(t)] with score
    [t]: member and score determine each other, so a sorted set is the
    finite set of its scores. *)
Inductive rvalue :=
| RZSet (s : gset Z)
| RStr (v : string)
| RHash (h : gmap string string).

Record entry := Entry { value : rvalue; deadline : option Z }.

(** [faults]: the outcome of the coming round trips to the server, [true]
    for a round trip that raises (connection lost, timeout); when the list
    is used up the store is reachable from then on. *)
Record redis := Redis { db : gmap string entry; faults : list bool }.

Inductive command :=
| ZREMRANGEBYSCORE (k : string) (lo hi : Z)
| ZCARD (k : string)
| ZADD (k : string) (t : Z)
| ZREM (k : string) (t : Z)
| ZRANGE (k : string) (start stop : Z)
| EXPIRE (k : string) (secs : Z)
| TTL (k : string)
| EXISTS (k : string)
| SETEX (k : string) (secs : Z) (v : string)
| HSET (k : string) (mapping : list (string * string))
| HGETALL (k : string)
| DEL (k : string).

Inductive reply :=
| RInt (n : Z)
| RScores (l : list Z)
| RFields (h : gmap string string)
| RErr.

(** A key with deadline [d] is there as long as the clock has not passed
    [d]: the server expires it once [now > d]. *)
Definition live (now : Z) (e : entry) : bool :=
  match deadline e with
  | None => true
  | Some d => now <=? d
  end.

(** What the server sees under key [k] at time [now]: an expired key is
    gone. *)
Definition peek (now : Z) (k : string) (d : gmap string entry) : option entry :=
  match d !! k with
  | Some e => if live now e then Some e else None
  | None => None
  end.

(** Store a sorted set back; an empty sorted set deletes its key. *)
Definition put_zset (k : string) (s : gset Z) (dl : option Z)
    (d : gmap string entry) : gmap string entry :=
  if decide (s = ∅) then delete k d else <[k := Entry (RZSet s) dl]> d.

Definition in_range (lo hi x : Z) : bool := (lo <=? x) && (x <=? hi).

Definition sorted_scores (s : gset Z) : list Z := merge_sort Z.le (elements s).

(** Redis index range [start..stop] (inclusive, negative counts from the
    end) of a list. *)
Definition slice (l : list Z) (start stop : Z) : list Z :=
  let n := Z.of_nat (length l) in
  let s := if start <? 0 then Z.max 0 (n + start) else start in
  let e := if stop <? 0 then n + stop else Z.min stop (n - 1) in
  if (e <? s) || (n <=? s) then []
  else take (Z.to_nat (e - s + 1)) (drop (Z.to_nat s) l).

(** One command on the server at clock reading [now].  [TTL] answers the
    remaining time rounded to the nearest second. *)
Definition exec (now : Z) (c : command) (d : gmap string entry)
    : reply * gmap string entry :=
  match c with
  | ZREMRANGEBYSCORE k lo hi =>
      match peek now k d with
      | None => (RInt 0, delete k d)
      | Some (Entry (RZSet s) dl) =>
          let s' := filter (λ x, in_range lo hi x = false) s in
          (RInt (Z.of_nat (size s) - Z.of_nat (size s')), put_zset k s' dl d)
      | Some _ => (RErr, d)
      end
  | ZCARD k =>
      match peek now k d with
      | None => (RInt 0, d)
      | Some (Entry (RZSet s) _) => (RInt (Z.of_nat (size s)), d)
      | Some _ => (RErr, d)
      end
  | ZADD k t =>
      match peek now k d with
      | None => (RInt 1, <[k := Entry (RZSet {[t]}) None]> d)
      | Some (Entry (RZSet s) dl) =>
          (RInt (if decide (t ∈ s) then 0 else 1),
           <[k := Entry (RZSet ({[t]} ∪ s)) dl]> d)
      | Some _ => (RErr, d)
      end
  | ZREM k t =>
      match peek now k d with
      | None => (RInt 0, delete k d)
      | Some (Entry (RZSet s) dl) =>
          (RInt (if decide (t ∈ s) then 1 else 0), put_zset k (s ∖ {[t]}) dl d)
      | Some _ => (RErr, d)
      end
  | ZRANGE k start stop =>
      match peek now k d with
      | None => (RScores [], d)
      | Some (Entry (RZSet s) _) => (RScores (slice (sorted_scores s) start stop), d)
      | Some _ => (RErr, d)
      end
  | EXPIRE k secs =>
      match peek now k d with
      | None => (RInt 0, delete k d)
      | Some (Entry v _) =>
          (RInt 1,
           if secs <=? 0 then delete k d
           else <[k := Entry v (Some (now + secs * tps))]> d)
      end
  | TTL k =>
      match peek now k d with
      | None => (RInt (-2), d)
      | Some (Entry _ None) => (RInt (-1), d)
      | Some (Entry _ (Some dl)) => (RInt ((dl - now + tps / 2) / tps), d)
      end
  | EXISTS k =>
      match peek now k d with
      | None => (RInt 0, d)
      | Some _ => (RInt 1, d)
      end
  | SETEX k secs v =>
      if secs <=? 0 then (RErr, d)
      else (RInt 1, <[k := Entry (RStr v) (Some (now + secs * tps))]> d)
  | HSET k mapping =>
      match peek now k d with
      | None =>
          (RInt (Z.of_nat (size (list_to_map (M := gmap string string) mapping))),
           <[k := Entry (RHash (list_to_map mapping)) None]> d)
      | Some (Entry (RHash h) dl) =>
          let new := list_to_map (M := gmap string string) mapping in
          (RInt (Z.of_nat (size (new ∖ h))), <[k := Entry (RHash (new ∪ h)) dl]> d)
      | Some _ => (RErr, d)
      end
  | HGETALL k =>
      match peek now k d with
      | None => (RFields ∅, d)
      | Some (Entry (RHash h) _) => (RFields h, d)
      | Some _ => (RErr, d)
      end
  | DEL k =>
      match peek now k d with
      | None => (RInt 0, delete k d)
      | Some _ => (RInt 1, delete k d)
      end
  end.

(** *** The client: computations that may raise *)

Inductive result (A : Type) :=
| Ok (a : A)
| Raise.
Arguments Ok {A} a.
Arguments Raise {A}.

Definition M (A : Type) : Type := redis → result A * redis.

Definition ret {A} (a : A) : M A := λ r, (Ok a, r).

Definition bind {A B} (m : M A) (f : A → M B) : M B :=
  λ r, match m r with
       | (Ok a, r') => f a r'
       | (Raise, r') => (Raise, r')
       end.

(** [try: ... except Exception: ...] *)
Definition try_except {A} (body : M A) (handler : M A) : M A :=
  λ r, match body r with
       | (Ok a, r') => (Ok a, r')
       | (Raise, r') => handler r'
       end.

(** One round trip to the server: consumes the next fault bit. *)
Definition round_trip : M unit :=
  λ r, match faults r with
       | [] => (Ok tt, r)
       | b :: fs => (if b : bool then Raise else Ok tt, Redis (db r) fs)
       end.

Definition is_err (x : reply) : bool :=
  match x with RErr => true | _ => false end.

(** [await redis.cmd(...)]: one command, one round trip; an error reply is
    raised as an exception. *)
Definition call (now : Z) (c : command) : M reply :=
  bind round_trip (λ _ r,
    let '(x, d') := exec now c (db r) in
    (if is_err x then Raise else Ok x, Redis d' (faults r))).

Fixpoint exec_all (now : Z) (cs : list command) (d : gmap string entry)
    : list reply * gmap string entry :=
  match cs with
  | [] => ([], d)
  | c :: cs' =>
      let '(x, d1) := exec now c d in
      let '(xs, d2) := exec_all now cs' d1 in
      (x :: xs, d2)
  end.

(** [pipe = redis.pipeline(); ...; await pipe.execute()]: the queued
    commands travel in one round trip and run as one transaction; when a
    command answers with an error, [execute] raises after the others have
    taken effect. *)
Definition pipeline (now : Z) (cs : list command) : M (list reply) :=
  bind round_trip (λ _ r,
    let '(xs, d') := exec_all now cs (db r) in
    (if existsb is_err xs then Raise else Ok xs, Redis d' (faults r))).

Definition as_int (x : option reply) : Z :=
  match x with Some (RInt n) => n | _ => 0 end.

Definition as_scores (x : reply) : list Z :=
  match x with RScores l => l | _ => [] end.

End Store.

Export Store.

Notation "x <- m ;; k" := (bind m (λ x, k))
  (at level 100, m at next level, right associativity).

(** ** [RedisRateLimiter] (redis_rate_limiter.py) *)

Record RedisRateLimiter := { prefix : string }.

Definition _get_key (self : RedisRateLimiter) (key : string) : string :=
  prefix self +:+ ":" +:+ key.

(** [int(x)] for a duration [x] given in ticks: seconds, truncated toward
    zero. *)
Definition int_seconds (ticks : Z) : Z := Z.quot ticks tps.

(** The [try] block of [check_rate_limit]. *)
Definition check_rate_limit_try (self : RedisRateLimiter) (key : string)
    (limit window : Z) (now : Z) : M (bool * Z * Z) :=
  let redis_key := _get_key self key in
  let current_time := now in
  let window_start := current_time - window * tps in
  results <- pipeline now
      [ ZREMRANGEBYSCORE redis_key 0 window_start;
        ZCARD redis_key;
        ZADD redis_key current_time;
        EXPIRE redis_key (window + 1) ] ;;
  let current_count := as_int (results !! 1%nat) in
  let allowed := current_count <? limit in
  let reset_time := window in
  if negb allowed then
    _ <- call now (ZREM redis_key current_time) ;;
    oldest_request <- call now (ZRANGE redis_key 0 0) ;;
    match as_scores oldest_request with
    | oldest_time :: _ =>
        ret (allowed, current_count,
             int_seconds (window * tps - (current_time - oldest_time)))
    | [] => ret (allowed, current_count, reset_time)
    end
  else ret (allowed, current_count, reset_time).

(** [check_rate_limit]: the [try] block, and [return True, 0, window] in the
    [except Exception] clause. *)
Definition check_rate_limit (self : RedisRateLimiter) (key : string)
    (limit window : Z) (now : Z) : M (bool * Z * Z) :=
  try_except (check_rate_limit_try self key limit window now)
             (ret (true, 0, window)).

Definition increment (self : RedisRateLimiter) (key : string) (window : Z)
    (now : Z) : M Z :=
  let redis_key := _get_key self key in
  let current_time := now in
  try_except
    (results <- pipeline now
        [ ZADD redis_key current_time;
          EXPIRE redis_key (window + 1);
          ZCARD redis_key ] ;;
     ret (as_int (results !! 2%nat)))
    (ret 0).

Definition reset (self : RedisRateLimiter) (key : string) (now : Z) : M bool :=
  let redis_key := _get_key self key in
  try_except
    (_ <- call now (DEL redis_key) ;; ret true)
    (ret false).

Definition get_remaining (self : RedisRateLimiter) (key : string)
    (limit window : Z) (now : Z) : M Z :=
  let redis_key := _get_key self key in
  let current_time := now in
  let window_start := current_time - window * tps in
  try_except
    (_ <- call now (ZREMRANGEBYSCORE redis_key 0 window_start) ;;
     current_count <- call now (ZCARD redis_key) ;;
     let remaining := Z.max 0 (limit - as_int (Some current_count)) in
     ret remaining)
    (ret limit).

Definition is_blocked (self : RedisRateLimiter) (key : string)
    (limit window : Z) (now : Z) : M bool :=
  r <- check_rate_limit self key limit window now ;;
  ret (negb (fst (fst r))).


(** [fire] issues one [check_rate_limit] per clock reading of [ts], in order,
    and collects the [allowed] flags. *)
Fixpoint fire (self : RedisRateLimiter) (key : string) (limit window : Z)
    (ts : list Z) : M (list bool) :=
  match ts with
  | [] => ret []
  | t :: ts' =>
      r <- check_rate_limit self key limit window t ;;
      rest <- fire self key limit window ts' ;;
      ret (fst (fst r) :: rest)
  end.

(** ** [RateLimitMiddleware] (middleware.py) *)

Record RateLimitMiddleware := {
  rate_limiter : RedisRateLimiter;
  default_limit : Z;
  default_window : Z;
  spam_limit : Z;
  spam_window : Z;
  block_duration : Z
}.

(** The defaults of [RateLimitMiddleware.__init__]. *)
Definition default_middleware (rl : RedisRateLimiter) : RateLimitMiddleware :=
  {| rate_limiter := rl; default_limit := 20; default_window := 60;
     spam_limit := 100; spam_window := 3600; block_duration := 3600 |}.

Inductive event_class := IsMessage | IsCallbackQuery | IsOther.

(** What the middleware reads of an aiogram event: its class, [from_user]
    ([None] when the update has no sender) with the sender's id, the text
    fields, and [str(event.date.timestamp())]. *)
Record TelegramObject := {
  class : event_class;
  from_user : option Z;
  text : option string;
  caption : option string;
  data : option string;
  date_timestamp : string
}.

(** The replies the middleware sends with [event.answer]. *)
Inductive answer :=
| TemporarilyBlocked
| BlockedForHours (hours : Z)
| TooManyRequests (reset_time : Z).

(** What [__call__] does with the event: hands it to the next handler
    ([with_limiter]: [data['rate_limiter']] was set), or answers and returns
    [None]. *)
Inductive decision :=
| Forward (with_limiter : bool)
| Reject (a : answer).

(** [f"{kind}:{user_id}"] *)
Definition user_key (kind : string) (user_id : Z) : string :=
  kind +:+ ":" +:+ pretty user_id.

(** Python's [x or y] on optional strings: the first truthy one. *)
Definition str_or (x : option string) (y : option string) : option string :=
  match x with
  | Some s => if decide (s = "") then y else Some s
  | None => y
  end.

Definition _block_user (self : RateLimitMiddleware) (user_id : Z) (now : Z)
    : M unit :=
  let block_key := user_key "blocked" user_id in
  let redis_key := _get_key (rate_limiter self) block_key in
  _ <- call now (SETEX redis_key (block_duration self) "1") ;;
  ret tt.

Definition _log_activity (self : RateLimitMiddleware) (user_id : Z)
    (event : TelegramObject) (now : Z) : M unit :=
  let activity_key := user_key "activity" user_id in
  try_except
    (let '(event_type, event_data) :=
       match class event with
       | IsMessage => ("message", str_or (str_or (text event) (caption event)) (Some "media"))
       | IsCallbackQuery => ("callback", data event)
       | IsOther => ("unknown", Some "")
       end in
     match event_data with
     | None => λ r, (Raise, r)
     | Some event_data =>
         _ <- call now (HSET (_get_key (rate_limiter self) activity_key)
                  [ ("type", event_type);
                    ("data", String.substring 0 100 event_data);
                    ("timestamp",
                     match class event with
                     | IsMessage => date_timestamp event
                     | _ => "0"
                     end) ]) ;;
         _ <- call now (EXPIRE (_get_key (rate_limiter self) activity_key) 86400) ;;
         ret tt
     end)
    (ret tt).

Definition __call__ (self : RateLimitMiddleware) (event : TelegramObject)
    (now : Z) : M decision :=
  match class event, from_user event with
  | (IsMessage | IsCallbackQuery), None => λ r, (Raise, r)
  | IsOther, _ => ret (Forward false)
  | (IsMessage | IsCallbackQuery), Some user_id =>
      if decide (user_id = 0) then ret (Forward false)
      else
        let block_key := user_key "blocked" user_id in
        is_blocked <- call now (EXISTS (_get_key (rate_limiter self) block_key)) ;;
        if negb (as_int (Some is_blocked) =? 0) then
          ret (Reject TemporarilyBlocked)
        else
          let rate_key := user_key "user" user_id in
          r <- check_rate_limit (rate_limiter self) rate_key
                 (default_limit self) (default_window self) now ;;
          let '(allowed, current_count, reset_time) := r in
          if negb allowed then
            let spam_key := user_key "spam" user_id in
            sp <- check_rate_limit (rate_limiter self) spam_key
                    (spam_limit self) (spam_window self) now ;;
            let '(spam_allowed, spam_count, _) := sp in
            if negb spam_allowed then
              _ <- _block_user self user_id now ;;
              ret (Reject (BlockedForHours (block_duration self / 3600)))
            else ret (Reject (TooManyRequests reset_time))
          else
            _ <- _log_activity self user_id event now ;;
            ret (Forward true)
  end.

Definition unblock_user (self : RateLimitMiddleware) (user_id : Z) (now : Z)
    : M bool :=
  let block_key := user_key "blocked" user_id in
  try_except
    (_ <- call now (DEL (_get_key (rate_limiter self) block_key)) ;; ret true)
    (ret false).

(** A run of requests: each event is handled at its clock reading. *)
Fixpoint serve (self : RateLimitMiddleware) (reqs : list (TelegramObject * Z))
    : M (list decision) :=
  match reqs with
  | [] => ret []
  | (event, now) :: reqs' =>
      d <- __call__ self event now ;;
      ds <- serve self reqs' ;;
      ret (d :: ds)
  end.

(** ** Access control (permissions.py) *)

Inductive Role := USER | MODERATOR | ADMIN | SUPER_ADMIN.

Inductive Permission :=
| READ | WRITE | DELETE
| MANAGE_USERS | BAN_USERS | VIEW_USER_DATA
| MANAGE_SUBSCRIPTIONS | GRANT_SUBSCRIPTION
| VIEW_PAYMENTS | MANAGE_PAYMENTS | REFUND_PAYMENTS
| CREATE_PROMO | MANAGE_PROMO
| MANAGE_ADS
| VIEW_LOGS | MANAGE_SETTINGS | ACCESS_ADMIN_PANEL
| SEND_BROADCAST
| VIEW_STATISTICS | EXPORT_DATA.

#[global] Instance Role_eq_dec : EqDecision Role.
Proof. solve_decision. Defined.

#[global] Instance Permission_eq_dec : EqDecision Permission.
Proof. solve_decision. Defined.

(** [list(Permission)], in declaration order. *)
Definition all_permissions : list Permission :=
  [ READ; WRITE; DELETE; MANAGE_USERS; BAN_USERS; VIEW_USER_DATA;
    MANAGE_SUBSCRIPTIONS; GRANT_SUBSCRIPTION; VIEW_PAYMENTS; MANAGE_PAYMENTS;
    REFUND_PAYMENTS; CREATE_PROMO; MANAGE_PROMO; MANAGE_ADS; VIEW_LOGS;
    MANAGE_SETTINGS; ACCESS_ADMIN_PANEL; SEND_BROADCAST; VIEW_STATISTICS;
    EXPORT_DATA ].

Definition Permission_index (p : Permission) : nat :=
  match p with
  | READ => 0 | WRITE => 1 | DELETE => 2 | MANAGE_USERS => 3 | BAN_USERS => 4
  | VIEW_USER_DATA => 5 | MANAGE_SUBSCRIPTIONS => 6 | GRANT_SUBSCRIPTION => 7
  | VIEW_PAYMENTS => 8 | MANAGE_PAYMENTS => 9 | REFUND_PAYMENTS => 10
  | CREATE_PROMO => 11 | MANAGE_PROMO => 12 | MANAGE_ADS => 13
  | VIEW_LOGS => 14 | MANAGE_SETTINGS => 15 | ACCESS_ADMIN_PANEL => 16
  | SEND_BROADCAST => 17 | VIEW_STATISTICS => 18 | EXPORT_DATA => 19
  end%nat.

#[global] Program Instance Permission_countable : Countable Permission :=
  inj_countable' Permission_index (λ n, default READ (all_permissions !! n)) _.
Next Obligation. by intros []. Qed.

(** [Role(role_str)]: the member with that value; [None] stands for the
    [ValueError] of a string that names no role. *)
Definition Role_of_string (role_str : string) : option Role :=
  if decide (role_str = "user") then Some USER
  else if decide (role_str = "moderator") then Some MODERATOR
  else if decide (role_str = "admin") then Some ADMIN
  else if decide (role_str = "super_admin") then Some SUPER_ADMIN
  else None.

(** The module-level table [ROLE_PERMISSIONS] as the module defines it. *)
Definition ROLE_PERMISSIONS (role : Role) : gset Permission :=
  match role with
  | USER => {[ READ ]}
  | MODERATOR =>
      list_to_set [ READ; WRITE; VIEW_USER_DATA; VIEW_PAYMENTS;
                    VIEW_STATISTICS; MANAGE_ADS ]
  | ADMIN =>
      list_to_set [ READ; WRITE; DELETE; MANAGE_USERS; BAN_USERS;
                    VIEW_USER_DATA; MANAGE_SUBSCRIPTIONS; GRANT_SUBSCRIPTION;
                    VIEW_PAYMENTS; MANAGE_PAYMENTS; CREATE_PROMO; MANAGE_PROMO;
                    MANAGE_ADS; VIEW_LOGS; ACCESS_ADMIN_PANEL; SEND_BROADCAST;
                    VIEW_STATISTICS ]
  | SUPER_ADMIN => list_to_set all_permissions
  end.

(** The identity store behind [db_session]: the rows [(telegram_id, role)] of
    the users table ([role] may be NULL), and whether [execute] raises. *)
Record AsyncSession := {
  rows : list (Z * option string);
  failing : bool
}.

(** A cached permission set is a Python [set] object.  [has_permission]
    stores the very object of the table ([Shared role]: no copy is made);
    [grant_permission] and [get_user_permissions] store a copy of their own
    ([Own s]). *)
Inductive cell :=
| Shared (role : Role)
| Own (s : gset Permission).

(** The mutable objects of the module: the sets of the global table, which
    every checker shares, and the checker's [_cache]. *)
Record heap := Heap {
  table : Role → gset Permission;
  _cache : gmap Z cell
}.

Definition initial_heap : heap := Heap ROLE_PERMISSIONS ∅.

(** The set a cache cell denotes. *)
Definition deref (h : heap) (c : cell) : gset Permission :=
  match c with
  | Shared role => table h role
  | Own s => s
  end.

(** The table with the set of [role] changed by [f]. *)
Definition update_table (f : gset Permission → gset Permission) (role : Role)
    (t : Role → gset Permission) : Role → gset Permission :=
  λ r, if decide (r = role) then f (t r) else t r.

(** Mutate, in place, the set object a cell refers to. *)
Definition mutate (f : gset Permission → gset Permission) (user_id : Z)
    (h : heap) : heap :=
  match _cache h !! user_id with
  | Some (Shared role) => Heap (update_table f role (table h)) (_cache h)
  | Some (Own s) => Heap (table h) (<[user_id := Own (f s)]> (_cache h))
  | None => h
  end.

(** [result.scalar_one_or_none()] of the query
    [select(User.role).where(User.telegram_id == user_id)]: [None] stands
    for an exception ([execute] failed, or several rows matched). *)
Definition query_role (db : AsyncSession) (user_id : Z)
    : option (option string) :=
  if failing db then None
  else match filter (λ row, row.1 = user_id) (rows db) with
       | [] => Some None
       | [row] => Some row.2
       | _ => None
       end.

Definition _get_user_role (db_session : option AsyncSession) (user_id : Z)
    : Role :=
  match db_session with
  | None => USER
  | Some db =>
      match query_role db user_id with
      | Some (Some role_str) =>
          if decide (role_str = "") then USER
          else match Role_of_string role_str with
               | Some role => role
               | None => USER
               end
      | Some None => USER
      | None => USER
      end
  end.

Definition has_permission (db_session : option AsyncSession) (user_id : Z)
    (permission : Permission) (use_cache : bool) (h : heap) : bool * heap :=
  match (if use_cache then _cache h !! user_id else None) with
  | Some c => (bool_decide (permission ∈ deref h c), h)
  | None =>
      let role := _get_user_role db_session user_id in
      let h' := if use_cache
                then Heap (table h) (<[user_id := Shared role]> (_cache h))
                else h in
      (bool_decide (permission ∈ table h role), h')
  end.

Definition has_role (db_session : option AsyncSession) (user_id : Z)
    (role : Role) : bool :=
  bool_decide (_get_user_role db_session user_id = role).

Definition has_any_role (db_session : option AsyncSession) (user_id : Z)
    (roles : list Role) : bool :=
  bool_decide (_get_user_role db_session user_id ∈ roles).

Definition grant_permission (db_session : option AsyncSession) (user_id : Z)
    (permission : Permission) (h : heap) : bool * heap :=
  let h1 :=
    match _cache h !! user_id with
    | None =>
        let role := _get_user_role db_session user_id in
        Heap (table h) (<[user_id := Own (table h role)]> (_cache h))
    | Some _ => h
    end in
  (true, mutate (λ s, {[permission]} ∪ s) user_id h1).

Definition revoke_permission (db_session : option AsyncSession) (user_id : Z)
    (permission : Permission) (h : heap) : bool * heap :=
  (true, mutate (λ s, s ∖ {[permission]}) user_id h).

Definition get_user_permissions (db_session : option AsyncSession)
    (user_id : Z) (h : heap) : gset Permission * heap :=
  match _cache h !! user_id with
  | Some c => (deref h c, h)
  | None =>
      let role := _get_user_role db_session user_id in
      let permissions := table h role in
      (permissions, Heap (table h) (<[user_id := Own permissions]> (_cache h)))
  end.

(** [clear_cache(user_id=None)]; the test is [if user_id:], the truth value
    of the argument. *)
Definition clear_cache (user_id : option Z) (h : heap) : heap :=
  match user_id with
  | Some uid =>
      if decide (uid = 0) then Heap (table h) ∅
      else Heap (table h) (delete uid (_cache h))
  | None => Heap (table h) ∅
  end.

(** ** Strings, bytes and digests used by the webhook validator *)

(** A Python [bytes] value is the list of its bytes, each in [0, 256). *)
Definition bytes := list Z.

Definition code (c : ascii) : Z := Z.of_N (N_of_ascii c).

Definition chr (z : Z) : ascii := ascii_of_N (Z.to_N z).

(** [s.encode()]: UTF-8; a code point below 128 is one byte, one from 128 to
    255 is two. *)
Fixpoint encode (s : string) : bytes :=
  match s with
  | EmptyString => []
  | String c s' =>
      let z := code c in
      if z <? 128 then z :: encode s'
      else Z.lor 192 (Z.shiftr z 6) :: Z.lor 128 (Z.land z 63) :: encode s'
  end.

Definition hex_digit (z : Z) : ascii :=
  if z <? 10 then chr (48 + z) else chr (87 + z).

(** [digest.hex()]: two lowercase hexadecimal digits per byte, the high
    four bits first. *)
Fixpoint hexlify (b : bytes) : string :=
  match b with
  | [] => EmptyString
  | z :: b' =>
      String (hex_digit (z / 16 mod 16)) (String (hex_digit (z mod 16)) (hexlify b'))
  end.

(** [c.lower()] of one character (Latin-1: A-Z, and the accented capitals
    U+00C0..U+00DE except the multiplication sign). *)
Definition lower_char (c : ascii) : ascii :=
  let z := code c in
  if ((65 <=? z) && (z <=? 90))
     || ((192 <=? z) && (z <=? 222) && negb (z =? 215))
  then chr (z + 32) else c.

(** [s.lower()] *)
Fixpoint lower (s : string) : string :=
  match s with
  | EmptyString => EmptyString
  | String c s' => String (lower_char c) (lower s')
  end.

Fixpoint isascii (s : string) : bool :=
  match s with
  | EmptyString => true
  | String c s' => (code c <? 128) && isascii s'
  end.

(** [hmac.compare_digest(a, b)] on two [str]: equality; [None] stands for
    the [TypeError] raised when an argument has a non-ASCII character. *)
Definition compare_digest (a b : string) : option bool :=
  if isascii a && isascii b then Some (bool_decide (a = b)) else None.

(** [hashlib.md5] (RFC 1321). *)
Module MD5.

Definition mask32 (x : Z) : Z := x mod 2 ^ 32.

Definition rotl (x c : Z) : Z :=
  mask32 (Z.lor (Z.shiftl x c) (Z.shiftr x (32 - c))).

Definition not32 (x : Z) : Z := Z.lxor x (2 ^ 32 - 1).

Definition S : list Z :=
  [ 7; 12; 17; 22; 7; 12; 17; 22; 7; 12; 17; 22; 7; 12; 17; 22;
    5; 9; 14; 20; 5; 9; 14; 20; 5; 9; 14; 20; 5; 9; 14; 20;
    4; 11; 16; 23; 4; 11; 16; 23; 4; 11; 16; 23; 4; 11; 16; 23;
    6; 10; 15; 21; 6; 10; 15; 21; 6; 10; 15; 21; 6; 10; 15; 21 ].

(** [K i = floor (2^32 * abs (sin (i + 1)))] *)
Definition K : list Z :=
  [ 3614090360; 3905402710; 606105819; 3250441966; 4118548399; 1200080426;
    2821735955; 4249261313; 1770035416; 2336552879; 4294925233; 2304563134;
    1804603682; 4254626195; 2792965006; 1236535329; 4129170786; 3225465664;
    643717713; 3921069994; 3593408605; 38016083; 3634488961; 3889429448;
    568446438; 3275163606; 4107603335; 1163531501; 2850285829; 4243563512;
    1735328473; 2368359562; 4294588738; 2272392833; 1839030562; 4259657740;
    2763975236; 1272893353; 4139469664; 3200236656; 681279174; 3936430074;
    3572445317; 76029189; 3654602809; 3873151461; 530742520; 3299628645;
    4096336452; 1126891415; 2878612391; 4237533241; 1700485571; 2399980690;
    4293915773; 2240044497; 1873313359; 4264355552; 2734768916; 1309151649;
    4149444226; 3174756917; 718787259; 3951481745 ].

Definition le_word (b : bytes) : Z :=
  nth 0 b 0 + 256 * nth 1 b 0 + 65536 * nth 2 b 0 + 16777216 * nth 3 b 0.

Definition le_bytes (n : nat) (x : Z) : bytes :=
  List.map (λ i, Z.shiftr x (8 * Z.of_nat i) mod 256) (seq 0 n).

(** The message followed by the byte 0x80, zero bytes up to 56 modulo 64, and
    the bit length as 8 little-endian bytes. *)
Definition pad (msg : bytes) : bytes :=
  let len := Z.of_nat (length msg) in
  msg ++ [128] ++ List.repeat 0 (Z.to_nat ((55 - len) mod 64))
      ++ le_bytes 8 (8 * len).

Definition words (chunk : bytes) : list Z :=
  List.map (λ j, le_word (skipn (4 * j) chunk)) (seq 0 16).

Definition step (M : list Z) (st : Z * Z * Z * Z) (i : nat) : Z * Z * Z * Z :=
  let '(A, B, C, D) := st in
  let '(F, g) :=
    if (i <? 16)%nat then
      (Z.lor (Z.land B C) (Z.land (not32 B) D), i)
    else if (i <? 32)%nat then
      (Z.lor (Z.land D B) (Z.land (not32 D) C), ((5 * i + 1) mod 16)%nat)
    else if (i <? 48)%nat then
      (Z.lxor (Z.lxor B C) D, ((3 * i + 5) mod 16)%nat)
    else
      (Z.lxor C (Z.lor B (not32 D)), ((7 * i) mod 16)%nat) in
  let F' := mask32 (F + A + nth i K 0 + nth g M 0) in
  (D, mask32 (B + rotl F' (nth i S 0)), B, C).

Definition compress (st : Z * Z * Z * Z) (chunk : bytes) : Z * Z * Z * Z :=
  let '(a0, b0, c0, d0) := st in
  let '(A, B, C, D) := fold_left (step (words chunk)) (seq 0 64) st in
  (mask32 (a0 + A), mask32 (b0 + B), mask32 (c0 + C), mask32 (d0 + D)).

Fixpoint chunks (n : nat) (b : bytes) : list bytes :=
  match n with
  | O => []
  | Datatypes.S n' =>
      match b with
      | [] => []
      | _ => firstn 64 b :: chunks n' (skipn 64 b)
      end
  end.

Definition digest (msg : bytes) : bytes :=
  let padded := pad msg in
  let '(a, b, c, d) :=
    fold_left compress (chunks (length padded) padded)
      (1732584193, 4023233417, 2562383102, 271733878) in
  le_bytes 4 a ++ le_bytes 4 b ++ le_bytes 4 c ++ le_bytes 4 d.

(** [hashlib.md5(msg).hexdigest()] *)
Definition hexdigest (msg : bytes) : string := hexlify (digest msg).

End MD5.

(** ** [SignatureValidator] (signature_validator.py) *)

(** The values of a parsed JSON body.  A dict is the list of its items, in
    order; a float is an IEEE 754 binary64. *)
#[local] Unset Elimination Schemes.
Inductive Value :=
| VNone
| VBool (b : bool)
| VInt (n : Z)
| VFloat (f : PrimFloat.float)
| VStr (s : string)
| VList (l : list Value)
| VDict (d : list (string * Value)).
#[local] Set Elimination Schemes.

Definition dict := list (string * Value).

(** [key in d] and [d[key]]. *)
Fixpoint dict_lookup (d : dict) (key : string) : option Value :=
  match d with
  | [] => None
  | (k, v) :: d' => if decide (k = key) then Some v else dict_lookup d' key
  end.

(** [d.get(key)]: [None] of Python for a missing key. *)
Definition dict_get (d : dict) (key : string) : Value :=
  default VNone (dict_lookup d key).

(** [bool(v)] *)
Definition truthy (v : Value) : bool :=
  match v with
  | VNone => false
  | VBool b => b
  | VInt n => negb (n =? 0)
  | VFloat f => negb (PrimFloat.eqb f PrimFloat.zero)
  | VStr s => negb (bool_decide (s = ""))
  | VList l => negb (bool_decide (l = []))
  | VDict d => negb (bool_decide (d = []))
  end.

(** [float(n)] for an integer below [2^63] in absolute value. *)
Definition float_of_int (n : Z) : PrimFloat.float :=
  if n <? 0 then PrimFloat.opp (PrimFloat.of_uint63 (Uint63.of_Z (- n)))
  else PrimFloat.of_uint63 (Uint63.of_Z n).

Record SignatureValidator := {
  secrets : gmap string string;
  replay_window : Z
}.

(** [SignatureValidator.__init__] *)
Definition SignatureValidator_init (secrets : gmap string string)
    : SignatureValidator :=
  {| secrets := secrets; replay_window := 300 |}.

(** [int(time.time())] *)
Definition int_time (now : Z) : Z := Z.quot now tps.

(** [_check_timestamp]; [None] stands for the [TypeError] of a timestamp
    that is not a number. *)
Definition _check_timestamp (self : SignatureValidator) (now : Z)
    (timestamp : Value) : option bool :=
  let current_time := int_time now in
  match timestamp with
  | VInt n => Some (negb (replay_window self <? Z.abs (current_time - n)))
  | VBool b =>
      Some (negb (replay_window self <? Z.abs (current_time - (if b then 1 else 0))))
  | VFloat f =>
      Some (negb (PrimFloat.ltb (float_of_int (replay_window self))
                    (PrimFloat.abs (PrimFloat.sub (float_of_int current_time) f))))
  | _ => None
  end.

Section Validator.

(** Library functions the validator calls, left open:
    [hmac.new(key, msg, hashlib.sha256).digest()],
    [json.dumps(payload, separators=(',', ':'), sort_keys=True)] ([None]
    when it raises), and [str(v)] of a float, a list or a dict. *)
Variable hmac_sha256 : bytes → bytes → bytes.
Variable json_dumps : dict → option string.
Variable repr : Value → string.

(** [f"{v}"] *)
Definition format_value (v : Value) : string :=
  match v with
  | VNone => "None"
  | VBool true => "True"
  | VBool false => "False"
  | VInt n => pretty n
  | VStr s => s
  | _ => repr v
  end.

(** [hmac.new(secret.encode(), message.encode(), hashlib.sha256).hexdigest()] *)
Definition hmac_hexdigest (secret message : string) : string :=
  hexlify (hmac_sha256 (encode secret) (encode message)).

(** [secrets.get(name)] followed by [if not secret]. *)
Definition configured (self : SignatureValidator) (name : string)
    : option string :=
  match secrets self !! name with
  | Some secret => if decide (secret = "") then None else Some secret
  | None => None
  end.

(** In the [validate_*] methods [None] stands for an exception inside the
    [try] block; [except Exception] turns it into [False]. *)
Definition except_false (body : option bool) : bool := default false body.

Definition yookassa_message (payload : dict) (secret : string)
    : option (option string) :=
  let event_type := dict_get payload "event" in
  match default (VDict []) (dict_lookup payload "object") with
  | VDict object_data =>
      let object_id := dict_get object_data "id" in
      if negb (truthy event_type) || negb (truthy object_id) then Some None
      else Some (Some (format_value event_type +:+ "&" +:+
                       format_value object_id +:+ "&" +:+ secret))
  | _ => None
  end.

Definition validate_yookassa (self : SignatureValidator) (payload : dict)
    (signature : string) : bool :=
  except_false
    match configured self "yookassa" with
    | None => Some false
    | Some secret =>
        match yookassa_message payload secret with
        | None => None
        | Some None => Some false
        | Some (Some message) =>
            let expected_signature := hmac_hexdigest secret message in
            compare_digest signature expected_signature
        end
    end.

(** The body shared by [validate_cryptopay] and [validate_panel]. *)
Definition validate_json_replay (self : SignatureValidator) (name : string)
    (now : Z) (payload : dict) (signature : string) : bool :=
  except_false
    match configured self name with
    | None => Some false
    | Some secret =>
        body_string ← json_dumps payload;
        let expected_signature := hmac_hexdigest secret body_string in
        is_valid ← compare_digest signature expected_signature;
        match (if is_valid : bool then dict_lookup payload "timestamp" else None) with
        | Some timestamp =>
            ok ← _check_timestamp self now timestamp;
            if negb ok then Some false else Some is_valid
        | None => Some is_valid
        end
    end.

Definition validate_cryptopay (self : SignatureValidator) (now : Z)
    (payload : dict) (signature : string) : bool :=
  validate_json_replay self "cryptopay" now payload signature.

Definition validate_panel (self : SignatureValidator) (now : Z)
    (payload : dict) (signature : string) : bool :=
  validate_json_replay self "panel" now payload signature.

Definition freekassa_message (payload : dict) (secret : string)
    : option string :=
  let merchant_id := dict_get payload "MERCHANT_ID" in
  let amount := dict_get payload "AMOUNT" in
  let order_id := dict_get payload "MERCHANT_ORDER_ID" in
  if negb (truthy merchant_id && truthy amount && truthy order_id) then None
  else Some (format_value merchant_id +:+ ":" +:+ format_value amount +:+ ":"
             +:+ secret +:+ ":" +:+ format_value order_id).

Definition validate_freekassa (self : SignatureValidator) (payload : dict)
    (signature : string) : bool :=
  except_false
    match configured self "freekassa" with
    | None => Some false
    | Some secret =>
        match freekassa_message payload secret with
        | None => Some false
        | Some message =>
            let expected_signature := MD5.hexdigest (encode message) in
            compare_digest (lower signature) (lower expected_signature)
        end
    end.

Definition validate_tribute (self : SignatureValidator) (payload : dict)
    (signature : string) : bool :=
  except_false
    match configured self "tribute" with
    | None => Some false
    | Some secret =>
        body_string ← json_dumps payload;
        let expected_signature := hmac_hexdigest secret body_string in
        compare_digest signature expected_signature
    end.

Definition validate_stars (self : SignatureValidator) (payload : dict)
    (signature : string) : bool :=
  except_false
    match configured self "stars" with
    | None => Some false
    | Some secret => compare_digest signature secret
    end.

(** [validate]: dispatch on [provider.lower()]. *)
Definition validate (self : SignatureValidator) (now : Z) (provider : string)
    (payload : dict) (signature : string) : bool :=
  let name := lower provider in
  if decide (name = "yookassa") then validate_yookassa self payload signature
  else if decide (name = "cryptopay") then validate_cryptopay self now payload signature
  else if decide (name = "freekassa") then validate_freekassa self payload signature
  else if decide (name = "tribute") then validate_tribute self payload signature
  else if decide (name = "stars") then validate_stars self payload signature
  else if decide (name = "panel") then validate_panel self now payload signature
  else false.

End Validator.

Definition get_signature_header (provider : string) : string :=
  let name := lower provider in
  if decide (name = "yookassa") then "X-YooKassa-Signature"
  else if decide (name = "cryptopay") then "Crypto-Pay-Api-Signature"
  else if decide (name = "freekassa") then "SIGN"
  else if decide (name = "tribute") then "X-Tribute-Signature"
  else if decide (name = "stars") then "X-Telegram-Bot-Api-Secret-Token"
  else if decide (name = "panel") then "X-Panel-Signature"
  else "X-Signature".

(** ** [IPWhitelist] (ip_whitelist.py) *)

Inductive ip_version := V4 | V6.

(** [ipaddress.IPv4Address] / [IPv6Address]: the version and the integer
    [_ip]. *)
Record IPAddress := { version : ip_version; _ip : N }.

(** [ipaddress.IPv4Network] / [IPv6Network]. *)
Record IPNetwork := {
  net_version : ip_version;
  network_address : N;
  prefixlen : N
}.

#[global] Instance ip_version_eq_dec : EqDecision ip_version.
Proof. solve_decision. Defined.

#[global] Instance IPNetwork_eq_dec : EqDecision IPNetwork.
Proof. solve_decision. Defined.

#[global] Program Instance IPNetwork_countable : Countable IPNetwork :=
  inj_countable'
    (λ n, (bool_decide (net_version n = V4), network_address n, prefixlen n))
    (λ t, {| net_version := if t.1.1 then V4 else V6;
             network_address := t.1.2; prefixlen := t.2 |}) _.
Next Obligation. by intros [[] ? ?]. Qed.

Definition max_prefixlen (v : ip_version) : N :=
  match v with V4 => 32 | V6 => 128 end%N.

Definition ALL_ONES (v : ip_version) : N := N.ones (max_prefixlen v).

(** [network.netmask._ip]: [_ALL_ONES ^ (_ALL_ONES >> prefixlen)]. *)
Definition netmask (net : IPNetwork) : N :=
  N.lxor (ALL_ONES (net_version net))
         (N.shiftr (ALL_ONES (net_version net)) (prefixlen net)).

(** [ip in network] *)
Definition contains (net : IPNetwork) (ip : IPAddress) : bool :=
  if decide (net_version net = version ip)
  then (N.land (_ip ip) (netmask net) =? network_address net)%N
  else false.

(** [s.split(sep)] for a one-character separator. *)
Fixpoint split_on (sep : ascii) (s : string) : list string :=
  match s with
  | EmptyString => [EmptyString]
  | String c s' =>
      if decide (c = sep) then EmptyString :: split_on sep s'
      else match split_on sep s' with
           | w :: ws => String c w :: ws
           | [] => [String c EmptyString]
           end
  end.

Fixpoint contains_char (c : ascii) (s : string) : bool :=
  match s with
  | EmptyString => false
  | String c' s' => bool_decide (c' = c) || contains_char c s'
  end.

Definition is_digit (c : ascii) : bool := (48 <=? code c) && (code c <=? 57).

Fixpoint all_digits (s : string) : bool :=
  match s with
  | EmptyString => true
  | String c s' => is_digit c && all_digits s'
  end.

(** [int(s, 10)] of a string of ASCII digits. *)
Fixpoint decimal (acc : Z) (s : string) : Z :=
  match s with
  | EmptyString => acc
  | String c s' => decimal (10 * acc + (code c - 48)) s'
  end.

(** [IPv4Address._parse_octet]; [None] stands for [ValueError]. *)
Definition _parse_octet (octet_str : string) : option Z :=
  match octet_str with
  | EmptyString => None
  | String c0 _ =>
      if negb (all_digits octet_str) then None
      else if (3 <? String.length octet_str)%nat then None
      else if negb (bool_decide (octet_str = "0")) && bool_decide (c0 = "0"%char)
      then None
      else let octet_int := decimal 0 octet_str in
           if 255 <? octet_int then None else Some octet_int
  end.

(** [IPv4Address(address)._ip] for a string; [None] stands for
    [AddressValueError]. *)
Definition IPv4Address (address : string) : option N :=
  if contains_char "/"%char address then None
  else if bool_decide (address = "") then None
  else match split_on "."%char address with
       | [a; b; c; d] =>
           a ← _parse_octet a; b ← _parse_octet b;
           c ← _parse_octet c; d ← _parse_octet d;
           Some (Z.to_N (((a * 256 + b) * 256 + c) * 256 + d))
       | _ => None
       end.

Definition ipv4 (a b c d : N) : N := (((a * 256 + b) * 256 + c) * 256 + d)%N.

Definition IPv4Network (a b c d : N) (prefixlen : N) : IPNetwork :=
  {| net_version := V4; network_address := ipv4 a b c d; prefixlen := prefixlen |}.

Definition IPv6Network (address : N) (prefixlen : N) : IPNetwork :=
  {| net_version := V6; network_address := address; prefixlen := prefixlen |}.

(** [DEFAULT_WHITELISTS], each literal as the network that
    [ipaddress.ip_network(literal, strict=False)] makes of it. *)
Definition DEFAULT_WHITELISTS : list (string * list IPNetwork) :=
  [ ("yookassa",
     [ IPv4Network 185 71 76 0 27;      (* '185.71.76.0/27' *)
       IPv4Network 185 71 77 0 27;      (* '185.71.77.0/27' *)
       IPv4Network 77 75 153 0 25;      (* '77.75.153.0/25' *)
       IPv4Network 77 75 156 11 32;     (* '77.75.156.11' *)
       IPv4Network 77 75 156 35 32;     (* '77.75.156.35' *)
       IPv4Network 77 75 154 128 25 ]); (* '77.75.154.128/25' *)
    ("cryptopay", [ IPv4Network 0 0 0 0 0 ]);           (* '0.0.0.0/0' *)
    ("freekassa",
     [ IPv4Network 168 119 157 136 32;  (* '168.119.157.136' *)
       IPv4Network 168 119 60 227 32;   (* '168.119.60.227' *)
       IPv4Network 138 201 88 124 32;   (* '138.201.88.124' *)
       IPv4Network 178 154 197 79 32 ]);(* '178.154.197.79' *)
    ("tribute", [ IPv4Network 0 0 0 0 0 ]);             (* '0.0.0.0/0' *)
    ("stars",
     [ IPv4Network 149 154 160 0 20;    (* '149.154.160.0/20' *)
       IPv4Network 91 108 4 0 22 ]);    (* '91.108.4.0/22' *)
    ("panel",
     [ IPv4Network 127 0 0 1 32;        (* '127.0.0.1' *)
       IPv6Network 1 128 ]) ].          (* '::1' *)

(** [IPWhitelist()]: the attribute [whitelists] after [__init__] without
    custom lists. *)
Definition IPWhitelist_init : gmap string (gset IPNetwork) :=
  list_to_map (List.map (λ item, (item.1, list_to_set item.2)) DEFAULT_WHITELISTS).

Section IPWhitelist.

(** [ipaddress.IPv6Address(address)._ip], the library's parser of the IPv6
    text forms, left open; [None] stands for [AddressValueError]. *)
Variable IPv6Address : string → option N.

(** [ipaddress.ip_address(address)]: an IPv4 address when the string parses
    as one, else an IPv6 address; [None] stands for [ValueError]. *)
Definition ip_address (address : string) : option IPAddress :=
  match IPv4Address address with
  | Some n => Some {| version := V4; _ip := n |}
  | None =>
      match IPv6Address address with
      | Some n => Some {| version := V6; _ip := n |}
      | None => None
      end
  end.

Definition is_allowed (whitelists : gmap string (gset IPNetwork))
    (provider : string) (address : string) : bool :=
  match whitelists !! provider with
  | None => false
  | Some networks =>
      match ip_address address with
      | Some ip => existsb (λ network, contains network ip) (elements networks)
      | None => false
      end
  end.

End IPWhitelist.

Definition disable_whitelist (whitelists : gmap string (gset IPNetwork))
    (provider : string) : bool * gmap string (gset IPNetwork) :=
  (true, <[provider := {[ IPv4Network 0 0 0 0 0; IPv6Network 0 0 ]}]> whitelists).

Definition clear_whitelist (whitelists : gmap string (gset IPNetwork))
    (provider : string) : bool * gmap string (gset IPNetwork) :=
  match whitelists !! provider with
  | Some _ => (true, <[provider := ∅]> whitelists)
  | None => (false, whitelists)
  end.

(** ** [RedisRateLimiter.get_stats] (redis_rate_limiter.py) *)

(** The dict [get_stats] returns, without its [key] item; a request is
    listed by its [timestamp] (the [time] item is [time.ctime] of it). *)
Record stats := { count : Z; ttl : Z; requests : list Z }.

Definition get_stats (self : RedisRateLimiter) (key : string) (now : Z)
    : M stats :=
  let redis_key := _get_key self key in
  try_except
    (count <- call now (ZCARD redis_key) ;;
     ttl <- call now (TTL redis_key) ;;
     requests <- call now (ZRANGE redis_key 0 (-1)) ;;
     ret {| count := as_int (Some count); ttl := as_int (Some ttl);
            requests := as_scores requests |})
    (ret {| count := 0; ttl := -1; requests := [] |}).

(** ** [require_permission], [require_role] (access_control/decorators.py) *)

(** The positional arguments of a decorated handler: an argument that is
    neither a [Message] nor a [CallbackQuery] has class [IsOther].  The
    user id is read from the first that is one. *)
Definition first_event (args : list TelegramObject) : option TelegramObject :=
  List.find (λ arg, match class arg with IsOther => false | _ => true end) args.

(** What the wrapper does: [Granted] stands for
    the call of the decorated handler; [Denied notice] for [return None],
    [notice] telling whether the refusal was sent with [arg.answer]. *)
Inductive access :=
| Granted
| Denied (notice : bool).

(** [permission_checker] is [kwargs.get('permission_checker')], given by the
    checker's [db_session]; the checker's cache is part of the heap. *)
Definition require_permission (permission : Permission)
    (permission_checker : option (option AsyncSession))
    (args : list TelegramObject) (h : heap) : result access * heap :=
  match permission_checker with
  | None => (Ok (Denied false), h)
  | Some db_session =>
      match first_event args with
      | None => (Ok (Denied false), h)
      | Some arg =>
          match from_user arg with
          | None => (Raise, h)
          | Some user_id =>
              if decide (user_id = 0) then (Ok (Denied false), h)
              else
                let '(has_perm, h') :=
                  has_permission db_session user_id permission true h in
                if negb has_perm then (Ok (Denied true), h')
                else (Ok Granted, h')
          end
      end
  end.

Definition require_role (role : Role)
    (permission_checker : option (option AsyncSession))
    (args : list TelegramObject) (h : heap) : result access * heap :=
  match permission_checker with
  | None => (Ok (Denied false), h)
  | Some db_session =>
      match first_event args with
      | None => (Ok (Denied false), h)
      | Some arg =>
          match from_user arg with
          | None => (Raise, h)
          | Some user_id =>
              if decide (user_id = 0) then (Ok (Denied false), h)
              else if negb (has_role db_session user_id role)
              then (Ok (Denied true), h)
              else (Ok Granted, h)
          end
      end
  end.

(** ** [validate_webhook] (webhook_validator/decorators.py) *)

(** [c.isspace()] for a character below U+0100. *)
Definition is_space (c : ascii) : bool :=
  let z := code c in
  ((9 <=? z) && (z <=? 13)) || ((28 <=? z) && (z <=? 32))
  || (z =? 133) || (z =? 160).

Fixpoint lstrip (s : string) : string :=
  match s with
  | EmptyString => EmptyString
  | String c s' => if is_space c then lstrip s' else s
  end.

Fixpoint rstrip (s : string) : string :=
  match s with
  | EmptyString => EmptyString
  | String c s' =>
      match rstrip s' with
      | EmptyString => if is_space c then EmptyString else String c EmptyString
      | t => String c t
      end
  end.

(** [s.strip()] *)
Definition strip (s : string) : string := lstrip (rstrip s).

(** What the wrapper reads of the [aiohttp] request: [request.headers.get],
    [request.remote], and the result of [await request.json()] for a body
    that is a JSON object, [None] when it raises. *)
Record Request := {
  headers : string → option string;
  remote : option string;
  json : option dict
}.

(** What the wrapper returns: a [web.Response] of its own, or ([Handled])
    what the decorated handler returns. *)
Inductive response :=
| Response (status : Z) (text : string)
| Handled.

Section Webhook.

Variable hmac_sha256 : bytes → bytes → bytes.
Variable json_dumps : dict → option string.
Variable repr : Value → string.
Variable IPv6Address : string → option N.

(** The wrapper of [validate_webhook(provider, signature_header, check_ip)];
    [signature_validator] and [ip_whitelist] are the two entries of
    [request.app] ([ip_whitelist] by its attribute [whitelists]). *)
Definition validate_webhook (provider : string)
    (signature_header : option string) (check_ip : bool)
    (signature_validator : option SignatureValidator)
    (ip_whitelist : option (gmap string (gset IPNetwork)))
    (now : Z) (request : Request) : response :=
  match signature_validator with
  | None => Response 500 "Internal server error"
  | Some validator =>
      let refused :=
        match ip_whitelist with
        | Some whitelist =>
            if check_ip then
              let client_ip :=
                match headers request "X-Forwarded-For" with
                | Some value => Some value
                | None => remote request
                end in
              let client_ip :=
                match client_ip with
                | Some ip =>
                    if decide (ip = "") then Some ip
                    else Some (strip (hd "" (split_on ","%char ip)))
                | None => None
                end in
              negb match client_ip with
                   | Some ip => is_allowed IPv6Address whitelist provider ip
                   | None => false
                   end
            else false
        | None => false
        end in
      if refused then Response 403 "Forbidden"
      else
        let header_name :=
          match signature_header with
          | Some name =>
              if decide (name = "") then get_signature_header provider else name
          | None => get_signature_header provider
          end in
        match headers request header_name with
        | None => Response 401 "Unauthorized: Missing signature"
        | Some signature =>
            if decide (signature = "")
            then Response 401 "Unauthorized: Missing signature"
            else
              match json request with
              | None => Response 400 "Bad request: Invalid JSON"
              | Some payload =>
                  if validate hmac_sha256 json_dumps repr validator now
                       provider payload signature
                  then Handled
                  else Response 401 "Unauthorized: Invalid signature"
              end
        end
  end.

End Webhook.

(** ** [rate_limit] and its variants (rate_limiter/decorators.py) *)

(** What the wrapper does: [Run] stands for the call of the decorated
    handler, [Limited reset_time] for the refusal (the notice with the reset
    time goes to the first message or callback query among the arguments,
    and the wrapper returns [None]). *)
Inductive throttle :=
| Run
| Limited (reset_time : Z).

(** The wrapper of [rate_limit(limit, window, key_func)] around a handler
    named [func_name], called with the positional arguments [args] and the
    keyword arguments [rate_limiter] and [request].  A key function returns
    the key, [None], or raises. *)
Definition rate_limit (limit window : Z)
    (key_func : option (list TelegramObject → option Request
                        → result (option string)))
    (func_name : string) (rate_limiter : option RedisRateLimiter)
    (args : list TelegramObject) (request : option Request) (now : Z)
    : M throttle :=
  match rate_limiter with
  | None => ret Run
  | Some rate_limiter =>
      let key :=
        match key_func with
        | Some key_func => key_func args request
        | None =>
            match first_event args with
            | Some arg =>
                match from_user arg with
                | Some user_id =>
                    Ok (Some (user_key "user" user_id +:+ ":" +:+ func_name))
                | None => Raise
                end
            | None => Ok None
            end
        end in
      match key with
      | Raise => λ r, (Raise, r)
      | Ok None => ret Run
      | Ok (Some key) =>
          if decide (key = "") then ret Run
          else
            r <- check_rate_limit rate_limiter key limit window now ;;
            let '(allowed, current_count, reset_time) := r in
            if negb allowed then ret (Limited reset_time) else ret Run
      end
  end.

(** [rate_limit_user(limit, window)]: the key is [f"user:{id}"]. *)
Definition rate_limit_user (limit window : Z) :=
  rate_limit limit window
    (Some (λ args _,
             match first_event args with
             | Some arg =>
                 match from_user arg with
                 | Some user_id => Ok (Some (user_key "user" user_id))
                 | None => Raise
                 end
             | None => Ok None
             end)).

(** [rate_limit_ip(limit, window)]: the key is [f"ip:{ip}"] with the
    [X-Forwarded-For] header, else [request.remote], as [ip]. *)
Definition rate_limit_ip (limit window : Z) :=
  rate_limit limit window
    (Some (λ _ request,
             match request with
             | Some request =>
                 let ip := match headers request "X-Forwarded-For" with
                           | Some value => Some value
                           | None => remote request
                           end in
                 Ok (Some ("ip:" +:+ default "None" ip))
             | None => Ok None
             end)).

(** [rate_limit_endpoint(endpoint, limit, window)] *)
Definition rate_limit_endpoint (endpoint : string) (limit window : Z) :=
  rate_limit limit window
    (Some (λ args _,
             match first_event args with
             | Some arg =>
                 match from_user arg with
                 | Some user_id =>
                     Ok (Some ("endpoint:" +:+ endpoint +:+ ":" +:+ pretty user_id))
                 | None => Raise
                 end
             | None => Ok (Some ("endpoint:" +:+ endpoint))
             end)).

(** [rate_limit_global(limit, window)] *)
Definition rate_limit_global (limit window : Z) :=
  rate_limit limit window (Some (λ _ _, Ok (Some "global"))).

(** ** [IPWhitelist]: the methods that change or report the whitelists *)

Section IPWhitelistUpdates.

(** [ipaddress.ip_network(s, strict=False)], the library's parser of an
    address or CIDR range (host bits are masked off), left open; [None]
    stands for [ValueError]. *)
Variable ip_network : string → option IPNetwork.

(** [_parse_ip_list]: the entries that do not parse are skipped. *)
Definition _parse_ip_list (ip_list : list string) : gset IPNetwork :=
  foldl (λ networks ip_str,
           match ip_network ip_str with
           | Some network => {[ network ]} ∪ networks
           | None => networks
           end) ∅ ip_list.

(** [IPWhitelist(custom_whitelists)]: the attribute [whitelists] after
    [__init__]; the custom dict is the list of its items. *)
Definition IPWhitelist_init_custom (custom_whitelists : list (string * list string))
    : gmap string (gset IPNetwork) :=
  foldl (λ whitelists item,
           match whitelists !! item.1 with
           | Some networks =>
               <[item.1 := networks ∪ _parse_ip_list item.2]> whitelists
           | None => <[item.1 := _parse_ip_list item.2]> whitelists
           end) IPWhitelist_init custom_whitelists.

Definition add_ip (whitelists : gmap string (gset IPNetwork))
    (provider : string) (ip_address : string)
    : bool * gmap string (gset IPNetwork) :=
  match ip_network ip_address with
  | Some network =>
      (true,
       <[provider := {[ network ]} ∪ default ∅ (whitelists !! provider)]>
         whitelists)
  | None => (false, whitelists)
  end.

Definition remove_ip (whitelists : gmap string (gset IPNetwork))
    (provider : string) (ip_address : string)
    : bool * gmap string (gset IPNetwork) :=
  match whitelists !! provider with
  | None => (false, whitelists)
  | Some networks =>
      match ip_network ip_address with
      | Some network =>
          if decide (network ∈ networks)
          then (true, <[provider := networks ∖ {[ network ]}]> whitelists)
          else (false, whitelists)
      | None => (false, whitelists)
      end
  end.

End IPWhitelistUpdates.

(** [IPWhitelist.get_stats]: per provider, the items [count] and
    [allows_all] of the dict it returns (the item [networks] lists the
    networks as text). *)
Module IPWhitelistStats.

Record stats := { count : nat; allows_all : bool }.

Definition get_stats (whitelists : gmap string (gset IPNetwork))
    : gmap string stats :=
  (λ networks,
     {| count := size networks;
        allows_all :=
          existsb (λ net, bool_decide (net = IPv4Network 0 0 0 0 0)
                          || bool_decide (net = IPv6Network 0 0))
                  (elements networks) |}) <$> whitelists.

End IPWhitelistStats.

(** * Properties *)

(** ** Properties of the rate limiter *)

Section RateLimiterFacts.

Implicit Types (d : gmap string entry) (s : gset Z) (r : redis).

(** The key [k] holds exactly the sorted set [s] and stays alive until [H]. *)
Definition holds d (k : string) s (H : Z) : Prop :=
  if decide (s = ∅) then d !! k = None
  else ∃ dl, d !! k = Some (Entry (RZSet s) (Some dl)) ∧ H ≤ dl.

Lemma filter_keeps_all s lo hi :
  (∀ x, x ∈ s → hi < x) → filter (λ x, in_range lo hi x = false) s = s.
Proof.
  intros Hs. apply set_eq. intros x. rewrite elem_of_filter.
  split; [tauto | intros Hx; split; [| done]].
  unfold in_range. apply andb_false_iff. right. apply Z.leb_gt. auto.
Qed.

Lemma peek_holds d k s H now :
  holds d k s H → now < H →
  peek now k d = if decide (s = ∅) then None
                 else Some (Entry (RZSet s) (d !! k ≫= deadline)).
Proof.
  unfold holds, peek. intros Hh Hnow. destruct (decide (s = ∅)).
  - by rewrite Hh.
  - destruct Hh as (dl & -> & Hdl). simpl. unfold live. simpl.
    destruct (Z.leb_spec now dl); [done | lia].
Qed.

Lemma put_zset_nonempty (k : string) s dl d :
  s ≠ ∅ → put_zset k s dl d = <[k := Entry (RZSet s) dl]> d.
Proof. intros Hne. unfold put_zset. by rewrite decide_False. Qed.

Lemma peek_insert now (k : string) (e : entry) d :
  peek now k (<[k := e]> d) = if live now e then Some e else None.
Proof. unfold peek. by rewrite lookup_insert_eq. Qed.

Lemma peek_delete now (k : string) d : peek now k (delete k d) = None.
Proof. unfold peek. by rewrite lookup_delete_eq. Qed.

Lemma peek_other now (k k' : string) d d' :
  d' !! k' = d !! k' → peek now k' d' = peek now k' d.
Proof. unfold peek. by intros ->. Qed.

Ltac step_store :=
  repeat first
    [ rewrite peek_insert | rewrite peek_delete
    | rewrite insert_insert_eq | rewrite insert_delete_eq
    | progress cbv beta iota zeta
    | progress cbn [live deadline value existsb is_err orb] ].

Lemma pipeline_check_effect r k s H t W :
  faults r = [] → holds (db r) k s H → t < H →
  (∀ x, x ∈ s → t - W * tps < x) → -1 < W →
  pipeline t [ ZREMRANGEBYSCORE k 0 (t - W * tps); ZCARD k; ZADD k t;
               EXPIRE k (W + 1) ] r
  = (Ok [ RInt 0; RInt (Z.of_nat (size s));
          RInt (if decide (t ∈ s) then 0 else 1); RInt 1 ],
     Redis (<[k := Entry (RZSet ({[t]} ∪ s)) (Some (t + (W + 1) * tps))]> (db r)) []).
Proof.
  intros Hf Hh Ht Hs HW.
  unfold pipeline, bind, round_trip. rewrite Hf. cbn [exec_all exec].
  rewrite (peek_holds _ _ _ _ _ Hh Ht).
  assert ((W + 1 <=? 0) = false) as HW1 by (apply Z.leb_gt; lia).
  destruct (decide (s = ∅)) as [-> | Hne].
  - step_store. rewrite HW1. step_store.
    rewrite union_empty_r_L, size_empty, Hf.
    destruct (decide (t ∈ (∅ : gset Z))); [set_solver | done].
  - rewrite filter_keeps_all by done.
    rewrite put_zset_nonempty by done.
    unfold holds in Hh. rewrite decide_False in Hh by done.
    destruct Hh as (dl & Hdl & Hle). rewrite Hdl. cbn [mbind option_bind deadline].
    assert ((t <=? dl) = true) as Hlive by (apply Z.leb_le; lia).
    step_store. rewrite Hlive. step_store. rewrite Hlive. step_store.
    rewrite Hlive. step_store. rewrite HW1. step_store.
    rewrite Z.sub_diag, Hf. destruct (decide (t ∈ s)); done.
Qed.

Lemma call_healthy now c d :
  call now c (Redis d [])
  = (if is_err (fst (exec now c d)) then Raise else Ok (fst (exec now c d)),
     Redis (snd (exec now c d)) []).
Proof. unfold call, bind, round_trip. cbn. by destruct (exec now c d). Qed.

Lemma holds_insert d k s H dl :
  s ≠ ∅ → H ≤ dl → holds (<[k := Entry (RZSet s) (Some dl)]> d) k s H.
Proof.
  intros Hne Hle. unfold holds. rewrite decide_False by done.
  exists dl. by rewrite lookup_insert_eq.
Qed.

Lemma size_pos_nonempty s : (0 < size s)%nat → s ≠ ∅.
Proof. intros Hs ->. rewrite size_empty in Hs. lia. Qed.

(** One call on a healthy store whose entries all lie inside the window and
    before [t]: the count read is [size s]; an allowed call leaves [t]
    behind, a rejected call leaves the set as it found it. *)
Lemma check_rate_limit_step self key limit W t r s H :
  faults r = [] → holds (db r) (_get_key self key) s H →
  (∀ x, x ∈ s → t - W * tps < x ∧ x < t) →
  t < H → H ≤ t + (W + 1) * tps → 0 < limit → -1 < W →
  let allowed := Z.of_nat (size s) <? limit in
  let s' := if allowed then {[t]} ∪ s else s in
  ∃ reset_time r',
    check_rate_limit self key limit W t r
      = (Ok (allowed, Z.of_nat (size s), reset_time), r')
    ∧ faults r' = []
    ∧ holds (db r') (_get_key self key) s' H
    ∧ (∀ k', k' ≠ _get_key self key → db r' !! k' = db r !! k').
Proof.
  intros Hf Hh Hs Ht HH Hlim HW allowed s'.
  set (k := _get_key self key) in *.
  assert (t ∉ s) as Hnotin by (intros Hin; apply Hs in Hin; lia).
  assert ((t <=? t + (W + 1) * tps) = true) as Hlive
    by (apply Z.leb_le; unfold tps; lia).
  unfold check_rate_limit, check_rate_limit_try, try_except. fold k. unfold bind at 1.
  rewrite (pipeline_check_effect r k s H t W) by (try done; intros x Hx; apply Hs, Hx).
  cbn [lookup list_lookup as_int]. fold allowed.
  destruct allowed eqn:Hall; cbn [negb].
  - eexists W, _. split; [reflexivity |]. cbn [db faults]. split; [done |].
    split.
    + subst s'. apply holds_insert; [clear; set_solver | done].
    + intros k' Hk'. by rewrite lookup_insert_ne.
  - assert (s ≠ ∅) as Hne.
    { apply size_pos_nonempty. subst allowed. apply Z.ltb_ge in Hall. lia. }
    assert (({[t]} ∪ s) ∖ {[t]} = s) as Hrem.
    { apply set_eq. intros x.
      rewrite elem_of_difference, elem_of_union, elem_of_singleton.
      split; [intros [[-> | Hx] Hxt]; done |].
      intros Hx. split; [by right | by intros ->]. }
    unfold bind at 1. rewrite call_healthy. cbn [exec].
    step_store. rewrite Hlive. step_store. rewrite Hrem.
    rewrite put_zset_nonempty by done. cbn [fst snd]. step_store.
    unfold bind at 1. rewrite call_healthy. cbn [exec].
    step_store. rewrite Hlive. step_store. cbn [fst snd]. step_store.
    destruct (as_scores _) as [| oldest_time ?]; unfold ret.
    all: eexists _, _; split; [reflexivity |]; cbn [db faults].
    all: split; [done |]; split;
      [ subst s'; by apply holds_insert
      | intros k' Hk'; by rewrite lookup_insert_ne ].
Qed.

Lemma fire_cons self key limit W t ts r :
  fire self key limit W (t :: ts) r
  = match check_rate_limit self key limit W t r with
    | (Ok x, r1) =>
        match fire self key limit W ts r1 with
        | (Ok rest, r2) => (Ok (fst (fst x) :: rest), r2)
        | (Raise, r2) => (Raise, r2)
        end
    | (Raise, r1) => (Raise, r1)
    end.
Proof.
  cbn [fire]. unfold bind, ret.
  destruct (check_rate_limit self key limit W t r) as [[x |] r1]; [| done].
  by destruct (fire self key limit W ts r1) as [[rest |] r2].
Qed.

(** A run of calls at increasing clock readings inside one window
    [H - W*tps .. H): calls are allowed until the set holds [limit] entries,
    all later ones are rejected and leave no entry behind. *)
Lemma fire_spec self key limit W H :
  0 < limit → -1 < W →
  ∀ ts r s,
    faults r = [] → holds (db r) (_get_key self key) s H →
    (∀ x, x ∈ s → H - W * tps ≤ x) →
    (∀ x t, x ∈ s → t ∈ ts → x < t) →
    StronglySorted Z.lt ts →
    (∀ t, t ∈ ts → H - W * tps ≤ t ∧ t < H) →
    (size s ≤ Z.to_nat limit)%nat →
    ∃ r' s',
      fire self key limit W ts r
        = (Ok (replicate (length ts `min` (Z.to_nat limit - size s)) true
               ++ replicate (length ts - (Z.to_nat limit - size s)) false), r')
      ∧ faults r' = []
      ∧ holds (db r') (_get_key self key) s' H
      ∧ size s' = (Z.to_nat limit `min` (size s + length ts))%nat
      ∧ (∀ x, x ∈ s' → H - W * tps ≤ x)
      ∧ (∀ x, x ∈ s' → x ∈ s ∨ x ∈ ts)
      ∧ (∀ k', k' ≠ _get_key self key → db r' !! k' = db r !! k').
Proof.
  intros Hlim HW. induction ts as [| t ts IH]; intros r s Hf Hh Hlo Hlt Hsort Hwin Hsz.
  - exists r, s. cbn [fire length]. unfold ret.
    rewrite Nat.min_0_l, Nat.sub_0_l, Nat.add_0_r, Nat.min_r by lia.
    repeat split; auto.
  - rewrite fire_cons.
    destruct (Hwin t) as [Ht1 Ht2]; [left |].
    destruct (check_rate_limit_step self key limit W t r s H)
      as (reset_time & r1 & -> & Hf1 & Hh1 & Hfr1); try done.
    { intros x Hx. split; [specialize (Hlo x Hx); lia |].
      apply Hlt; [done | left]. }
    { unfold tps in *. lia. }
    cbn [fst].
    assert (t ∉ s) as Hnotin.
    { intros Hin. specialize (Hlt t t Hin ltac:(left)). lia. }
    apply StronglySorted_inv in Hsort as [Hsort Hall].
    rewrite Forall_forall in Hall.
    set (allowed := Z.of_nat (size s) <? limit) in *.
    set (s1 := if allowed then {[t]} ∪ s else s) in *.
    destruct (IH r1 s1) as (r' & s' & -> & Hf' & Hh' & Hsz' & Hlo' & Hin' & Hfr');
      try done.
    { intros x Hx. subst s1. destruct allowed; [| by apply Hlo].
      apply elem_of_union in Hx as [Hx%elem_of_singleton | Hx];
        [by subst | by apply Hlo]. }
    { intros x t' Hx Ht'. subst s1. destruct allowed;
        [| apply Hlt; [done | by right]].
      apply elem_of_union in Hx as [Hx%elem_of_singleton | Hx].
      - subst x. by apply Hall.
      - apply Hlt; [done | by right]. }
    { intros t' Ht'. apply Hwin. by right. }
    { subst s1. destruct allowed eqn:Hall'; [| done].
      rewrite size_union, size_singleton by (clear -Hnotin; set_solver).
      apply Z.ltb_lt in Hall'. lia. }
    exists r', s'. cbn [length].
    assert (size s1 = if allowed then S (size s) else size s) as Hs1.
    { subst s1. destruct allowed; [| done].
      rewrite size_union, size_singleton by (clear -Hnotin; set_solver). lia. }
    split; [| split; [done |]; split; [done |]; split; [| split; [done |]; split]].
    + f_equal. rewrite Hs1. destruct allowed eqn:Hall'.
      * apply Z.ltb_lt in Hall'.
        replace (S (length ts) `min` (Z.to_nat limit - size s))%nat
          with (S (length ts `min` (Z.to_nat limit - S (size s)))) by lia.
        replace (S (length ts) - (Z.to_nat limit - size s))%nat
          with (length ts - (Z.to_nat limit - S (size s)))%nat by lia.
        done.
      * apply Z.ltb_ge in Hall'.
        replace (Z.to_nat limit - size s)%nat with 0%nat by lia.
        rewrite Nat.min_0_r, !Nat.sub_0_r. done.
    + rewrite Hsz', Hs1. destruct allowed eqn:Hall'; [lia |].
      apply Z.ltb_ge in Hall'. lia.
    + intros x Hx. destruct (Hin' x Hx) as [Hx1 | Hx1]; [| right; by right].
      subst s1. destruct allowed; [| by left].
      apply elem_of_union in Hx1 as [Hx1%elem_of_singleton | Hx1];
        [right; subst; left | by left].
    + intros k' Hk'. rewrite Hfr', Hfr1; done.
Qed.

(** [get_remaining] on a healthy store whose entries all lie inside the
    window of [now]. *)
Lemma get_remaining_in_window self key limit W now r s H :
  faults r = [] → holds (db r) (_get_key self key) s H → s ≠ ∅ →
  (∀ x, x ∈ s → now - W * tps < x) → now < H →
  ∃ r', get_remaining self key limit W now r
          = (Ok (Z.max 0 (limit - Z.of_nat (size s))), r')
        ∧ faults r' = []
        ∧ exec now (ZCARD (_get_key self key)) (db r')
          = (RInt (Z.of_nat (size s)), db r').
Proof.
  intros Hf Hh Hne Hs Hnow. set (k := _get_key self key) in *.
  pose proof (peek_holds _ _ _ _ _ Hh Hnow) as Hpeek.
  rewrite decide_False in Hpeek by done.
  unfold holds in Hh. rewrite decide_False in Hh by done.
  destruct Hh as (dl & Hdl & Hle). rewrite Hdl in Hpeek. cbn in Hpeek.
  assert ((now <=? dl) = true) as Hlive by (apply Z.leb_le; lia).
  destruct r as [d fs]. cbn [faults db] in *. subst fs.
  unfold get_remaining, try_except. fold k.
  unfold bind at 1. rewrite call_healthy. cbn [exec]. rewrite Hpeek.
  step_store. rewrite filter_keeps_all by done.
  rewrite put_zset_nonempty by done. cbn [fst snd]. step_store.
  unfold bind at 1. rewrite call_healthy. cbn [exec].
  step_store. rewrite Hlive. step_store. cbn [fst snd as_int]. step_store.
  unfold ret. eexists. split; [reflexivity |]. split; [done |].
  cbn [db exec]. step_store. by rewrite Hlive.
Qed.

(** C1 (amended).  A burst of [N > limit] calls of [check_rate_limit] on a
    fresh key of a reachable store, at strictly increasing clock readings
    [t0 :: ts] that lie within one window: exactly the first [limit] calls
    are allowed and
    the rest rejected; afterwards [get_remaining], pruning and counting at a
    reading [t'] after the burst and less than [window] seconds after [t0],
    finds [limit] entries (so it returns [0]), not [N]: a rejected call
    removed the entry it had just inserted. *)
Theorem check_rate_limit_burst self key limit window t0 ts t' r :
  0 < limit → 0 < window →
  faults r = [] → db r !! _get_key self key = None →
  StronglySorted Z.lt (t0 :: ts) →
  limit < Z.of_nat (length (t0 :: ts)) →
  (∀ t, t ∈ t0 :: ts → t ≤ t') → t' - t0 < window * tps →
  ∃ r1 r2,
    fire self key limit window (t0 :: ts) r
      = (Ok (replicate (Z.to_nat limit) true
             ++ replicate (length (t0 :: ts) - Z.to_nat limit) false), r1)
    ∧ get_remaining self key limit window t' r1 = (Ok 0, r2)
    ∧ exec t' (ZCARD (_get_key self key)) (db r2) = (RInt limit, db r2).
Proof.
  intros Hlim HW Hf Hfresh Hsort HN Hbefore Hwin.
  set (H := t0 + window * tps).
  destruct (fire_spec self key limit window H Hlim ltac:(lia) (t0 :: ts) r ∅)
    as (r1 & s' & Hfire & Hf1 & Hh1 & Hsz & Hlo & _ & _); try done.
  - intros t Ht. subst H. split; [| specialize (Hbefore t Ht); lia].
    apply StronglySorted_inv in Hsort as [_ Hall].
    rewrite Forall_forall in Hall.
    apply elem_of_cons in Ht as [-> | Ht]; [lia |].
    specialize (Hall t Ht). lia.
  - rewrite size_empty. lia.
  - rewrite size_empty, Nat.sub_0_r, Nat.add_0_l in *.
    rewrite Nat.min_r in Hfire by lia. rewrite Nat.min_l in Hsz by lia.
    destruct (get_remaining_in_window self key limit window t' r1 s' H)
      as (r2 & Hrem & _ & Hcard); try done.
    + apply size_pos_nonempty. lia.
    + intros x Hx. specialize (Hlo x Hx). lia.
    + lia.
    + exists r1, r2. rewrite Hfire, Hrem, Hcard, Hsz.
      rewrite Z2Nat.id, Z.sub_diag by lia. done.
Qed.

Lemma check_rate_limit_burst_witness :
  ∃ r1 r2,
    fire {| prefix := "rate_limit" |} "user:7" 2 60
         [1700000000000000; 1700000000000100; 1700000000000200;
          1700000000000300] (Redis ∅ [])
      = (Ok [true; true; false; false], r1)
    ∧ get_remaining {| prefix := "rate_limit" |} "user:7" 2 60
        1700000030000000 r1 = (Ok 0, r2)
    ∧ exec 1700000030000000 (ZCARD "rate_limit:user:7") (db r2)
      = (RInt 2, db r2).
Proof.
  apply (check_rate_limit_burst {| prefix := "rate_limit" |} "user:7" 2 60
           1700000000000000
           [1700000000000100; 1700000000000200; 1700000000000300]
           1700000030000000 (Redis ∅ [])).
  - lia.
  - lia.
  - reflexivity.
  - reflexivity.
  - repeat constructor.
  - cbn. lia.
  - intros t Ht. repeat (apply elem_of_cons in Ht as [-> | Ht]; [lia |]).
    by apply elem_of_nil in Ht.
  - unfold tps. lia.
Defined.

(** C1, as stated, fails when calls read the same clock value.  Such calls
    use the same member [str(t)]: the later call's [ZADD] adds no entry, and
    when it is rejected its [ZREM] removes the entry of the earlier call.
    Three calls at one reading with limit 1 are answered allowed, rejected,
    allowed, where the claim has the call after the first rejected one
    rejected too; with limit 2 all three are allowed, and afterwards the key
    holds one entry, not two ([get_remaining] returns 1, not 0). *)
Lemma same_reading_burst_exceeds_limit :
  (fire {| prefix := "rate_limit" |} "user:7" 1 60
        [1700000000000000; 1700000000000000; 1700000000000000] (Redis ∅ [])).1
    = Ok [true; false; true]
  ∧ (fire {| prefix := "rate_limit" |} "user:7" 2 60
          [1700000000000000; 1700000000000000; 1700000000000000] (Redis ∅ [])).1
    = Ok [true; true; true]
  ∧ (exec 1700000000000000 (ZCARD "rate_limit:user:7")
       (db (fire {| prefix := "rate_limit" |} "user:7" 2 60
              [1700000000000000; 1700000000000000; 1700000000000000]
              (Redis ∅ [])).2)).1
    = RInt 1
  ∧ (get_remaining {| prefix := "rate_limit" |} "user:7" 2 60 1700000000000000
       (fire {| prefix := "rate_limit" |} "user:7" 2 60
          [1700000000000000; 1700000000000000; 1700000000000000]
          (Redis ∅ [])).2).1
    = Ok 1.
Proof. repeat split; vm_compute; reflexivity. Qed.

End RateLimiterFacts.

(** ** Frame properties of the store client *)

Section Frames.

Implicit Types (d : gmap string entry) (r : redis).

(** The key a command works on. *)
Definition key_of (c : command) : string :=
  match c with
  | ZREMRANGEBYSCORE k _ _ | ZCARD k | ZADD k _ | ZREM k _ | ZRANGE k _ _
  | EXPIRE k _ | TTL k | EXISTS k | SETEX k _ _ | HSET k _ | HGETALL k
  | DEL k => k
  end.

Lemma exec_frame now c d (k' : string) :
  k' ≠ key_of c → (exec now c d).2 !! k' = d !! k'.
Proof.
  intros Hk. destruct c; cbn [exec key_of] in *; unfold put_zset;
    repeat case_match; cbn [snd];
    rewrite ?lookup_insert_ne, ?lookup_delete_ne by done; done.
Qed.

Lemma exec_all_frame now cs d (k' : string) :
  Forall (λ c, k' ≠ key_of c) cs → (exec_all now cs d).2 !! k' = d !! k'.
Proof.
  intros Hcs. revert d. induction Hcs as [| c cs Hc _ IH]; intros d; [done |].
  cbn [exec_all]. pose proof (exec_frame now c d k' Hc) as Hc'.
  destruct (exec now c d) as [x d1]. specialize (IH d1).
  destruct (exec_all now cs d1) as [xs d2]. cbn [snd] in *. congruence.
Qed.

(** [m] leaves every key outside [ks] as it is. *)
Definition frames {A} (ks : list string) (m : M A) : Prop :=
  ∀ r (k' : string), k' ∉ ks → db (m r).2 !! k' = db r !! k'.

Lemma frames_ret {A} ks (a : A) : frames ks (ret a).
Proof. by intros r k' _. Qed.

Lemma frames_raise {A} ks : frames (A := A) ks (λ r, (Raise, r)).
Proof. by intros r k' _. Qed.

Lemma frames_bind {A B} ks (m : M A) (f : A → M B) :
  frames ks m → (∀ a, frames ks (f a)) → frames ks (bind m f).
Proof.
  intros Hm Hf r k' Hk. unfold bind. specialize (Hm r k' Hk).
  destruct (m r) as [[a |] r1]; [| done].
  rewrite (Hf a r1 k' Hk). done.
Qed.

Lemma frames_try_except {A} ks (body handler : M A) :
  frames ks body → frames ks handler → frames ks (try_except body handler).
Proof.
  intros Hb Hh r k' Hk. unfold try_except. specialize (Hb r k' Hk).
  destruct (body r) as [[a |] r1]; [done |].
  rewrite (Hh r1 k' Hk). done.
Qed.

Lemma frames_round_trip ks : frames ks round_trip.
Proof. intros r k' _. unfold round_trip. by destruct (faults r) as [| [] ?]. Qed.

Lemma frames_call ks now c : key_of c ∈ ks → frames ks (call now c).
Proof.
  intros Hc. unfold call. apply frames_bind; [apply frames_round_trip |].
  intros _ r k' Hk. pose proof (exec_frame now c (db r) k') as Hfr.
  destruct (exec now c (db r)) as [x d']. cbn [snd db] in *.
  apply Hfr. intros ->. done.
Qed.

Lemma frames_pipeline ks now cs :
  Forall (λ c, key_of c ∈ ks) cs → frames ks (pipeline now cs).
Proof.
  intros Hcs. unfold pipeline. apply frames_bind; [apply frames_round_trip |].
  intros _ r k' Hk. pose proof (exec_all_frame now cs (db r) k') as Hfr.
  destruct (exec_all now cs (db r)) as [xs d']. cbn [snd db] in *.
  apply Hfr. eapply Forall_impl; [exact Hcs |]. cbn. intros c Hc ->. done.
Qed.

Lemma frames_check_rate_limit self key limit window now :
  frames [_get_key self key] (check_rate_limit self key limit window now).
Proof.
  unfold check_rate_limit, check_rate_limit_try.
  apply frames_try_except; [| apply frames_ret].
  apply frames_bind.
  { apply frames_pipeline. repeat constructor. }
  intros results. case_match; [| apply frames_ret].
  apply frames_bind; [apply frames_call; cbn; set_solver |].
  intros _. apply frames_bind; [apply frames_call; cbn; set_solver |].
  intros oldest. case_match; apply frames_ret.
Qed.

Lemma frames_log_activity self user_id event now :
  frames [_get_key (rate_limiter self) (user_key "activity" user_id)]
         (_log_activity self user_id event now).
Proof.
  unfold _log_activity. apply frames_try_except; [| apply frames_ret].
  repeat case_match; try apply frames_raise.
  all: apply frames_bind; [apply frames_call; cbn; set_solver |].
  all: intros _; apply frames_bind; [apply frames_call; cbn; set_solver |].
  all: intros _; apply frames_ret.
Qed.

(** [try: ... except Exception:] with a handler that returns does not
    raise. *)
Lemma try_except_ret_ok {A} (body : M A) (a : A) r :
  ∃ x r', try_except body (ret a) r = (Ok x, r').
Proof.
  unfold try_except, ret. destruct (body r) as [[x |] r']; eauto.
Qed.

End Frames.

(** ** Properties of the middleware *)

Section MiddlewareFacts.

Implicit Types (r : redis) (self : RateLimitMiddleware).

Ltac keys_differ :=
  let H := fresh in
  intros H; unfold _get_key, user_key in H;
  apply (inj (String.app _)) in H; cbn in H; discriminate H.

Lemma spam_key_ne_user rl u :
  _get_key rl (user_key "spam" u) ≠ _get_key rl (user_key "user" u).
Proof. keys_differ. Qed.

Lemma spam_key_ne_activity rl u :
  _get_key rl (user_key "spam" u) ≠ _get_key rl (user_key "activity" u).
Proof. keys_differ. Qed.

Lemma spam_key_ne_blocked rl u :
  _get_key rl (user_key "spam" u) ≠ _get_key rl (user_key "blocked" u).
Proof. keys_differ. Qed.

(** A governed request: a message or callback query whose sender has a
    truthy id. *)
Definition governed (event : TelegramObject) (user_id : Z) : Prop :=
  class event ≠ IsOther ∧ from_user event = Some user_id ∧ user_id ≠ 0.

Lemma call_governed self event user_id now :
  governed event user_id →
  __call__ self event now
  = (is_blocked <- call now (EXISTS (_get_key (rate_limiter self)
                                       (user_key "blocked" user_id))) ;;
     if negb (as_int (Some is_blocked) =? 0) then ret (Reject TemporarilyBlocked)
     else
       r <- check_rate_limit (rate_limiter self) (user_key "user" user_id)
              (default_limit self) (default_window self) now ;;
       let '(allowed, current_count, reset_time) := r in
       if negb allowed then
         sp <- check_rate_limit (rate_limiter self) (user_key "spam" user_id)
                 (spam_limit self) (spam_window self) now ;;
         let '(spam_allowed, spam_count, _) := sp in
         if negb spam_allowed then
           _ <- _block_user self user_id now ;;
           ret (Reject (BlockedForHours (block_duration self / 3600)))
         else ret (Reject (TooManyRequests reset_time))
       else
         _ <- _log_activity self user_id event now ;;
         ret (Forward true)).
Proof.
  intros (Hc & Hu & Hz). unfold __call__. rewrite Hu.
  destruct (class event); [| | done]; by rewrite decide_False.
Qed.

(** The [EXISTS] round trip on a reachable store. *)
Lemma exists_reply now (k : string) r :
  faults r = [] →
  call now (EXISTS k) r
  = (Ok (RInt (if peek now k (db r) is Some _ then 1 else 0)), r).
Proof.
  intros Hf. destruct r as [d fs]. cbn in Hf. subst fs.
  rewrite call_healthy. cbn [exec db]. by destruct (peek now k d).
Qed.

Lemma log_activity_ok self user_id event now r :
  ∃ r', _log_activity self user_id event now r = (Ok tt, r').
Proof.
  unfold _log_activity.
  match goal with
  | |- ∃ r', try_except ?body _ r = _ =>
      destruct (try_except_ret_ok body tt r) as ([] & r' & H)
  end.
  eauto.
Qed.

(** C2 (amended).  A governed request that is not blocked and whose primary
    check returns [allowed = true] is handed to the handler, and the
    principal's spam key is left exactly as it was: nothing is recorded in
    the spam window for an allowed request. *)
Theorem allowed_request_leaves_spam_window self event user_id now r r0
    current_count reset_time r1 :
  governed event user_id →
  call now (EXISTS (_get_key (rate_limiter self) (user_key "blocked" user_id))) r
    = (Ok (RInt 0), r0) →
  check_rate_limit (rate_limiter self) (user_key "user" user_id)
      (default_limit self) (default_window self) now r0
    = (Ok (true, current_count, reset_time), r1) →
  ∃ r2,
    __call__ self event now r = (Ok (Forward true), r2)
    ∧ db r2 !! _get_key (rate_limiter self) (user_key "spam" user_id)
      = db r !! _get_key (rate_limiter self) (user_key "spam" user_id).
Proof.
  intros Hg Hex Hchk. rewrite (call_governed _ _ _ _ Hg).
  set (rl := rate_limiter self) in *.
  set (spam := _get_key rl (user_key "spam" user_id)).
  unfold bind at 1. rewrite Hex. cbn [as_int negb Z.eqb].
  unfold bind at 1. rewrite Hchk. cbn [negb].
  destruct (log_activity_ok self user_id event now r1) as (r2 & Hlog).
  exists r2. unfold bind, ret. rewrite Hlog. split; [done |].
  pose proof (frames_call [_get_key rl (user_key "blocked" user_id)] now
                (EXISTS (_get_key rl (user_key "blocked" user_id)))
                ltac:(cbn; set_solver) r spam) as F0.
  pose proof (frames_check_rate_limit rl (user_key "user" user_id)
                (default_limit self) (default_window self) now r0 spam) as F1.
  pose proof (frames_log_activity self user_id event now r1 spam) as F2.
  rewrite Hex in F0. rewrite Hchk in F1. rewrite Hlog in F2. cbn [snd] in *.
  rewrite F2, F1, F0; [done | | |]; apply not_elem_of_cons; split;
    try apply not_elem_of_nil.
  - apply spam_key_ne_blocked.
  - apply spam_key_ne_user.
  - apply spam_key_ne_activity.
Qed.

Lemma call_no_fault now c r :
  hd false (faults r) = false →
  call now c r
  = (if is_err (exec now c (db r)).1 then Raise else Ok (exec now c (db r)).1,
     Redis (exec now c (db r)).2 (tail (faults r))).
Proof.
  intros Hf. unfold call, bind, round_trip.
  destruct r as [d [| b fs]]; cbn [faults db hd tail] in *; subst;
    by destruct (exec now c d).
Qed.

(** [SETEX] on a round trip that does not raise. *)
Lemma block_user_effect self user_id now r :
  hd false (faults r) = false → 0 < block_duration self →
  ∃ r', _block_user self user_id now r = (Ok tt, r')
        ∧ db r' = <[_get_key (rate_limiter self) (user_key "blocked" user_id)
                    := Entry (RStr "1") (Some (now + block_duration self * tps))]> (db r)
        ∧ faults r' = tail (faults r).
Proof.
  intros Hf Hbd. unfold _block_user, bind, ret.
  assert ((block_duration self <=? 0) = false) as Hle by (apply Z.leb_gt; lia).
  rewrite call_no_fault by done. cbn [exec]. rewrite Hle. cbn. eauto.
Qed.

Lemma blocked_request_rejected self event user_id now r e :
  governed event user_id →
  peek now (_get_key (rate_limiter self) (user_key "blocked" user_id)) (db r) = Some e →
  hd false (faults r) = false →
  ∃ r', __call__ self event now r = (Ok (Reject TemporarilyBlocked), r')
        ∧ db r' = db r ∧ faults r' = tail (faults r).
Proof.
  intros Hg Hpeek Hf. rewrite (call_governed _ _ _ _ Hg).
  unfold bind, ret. rewrite call_no_fault by done. cbn [exec].
  rewrite Hpeek. cbn. eauto.
Qed.

(** While the block record is alive, every request of the principal is
    answered [TemporarilyBlocked] and the store is left as it is. *)
Lemma blocked_requests_rejected self user_id r reqs :
  faults r = [] →
  Forall (λ req, governed req.1 user_id
                 ∧ is_Some (peek req.2 (_get_key (rate_limiter self)
                                           (user_key "blocked" user_id)) (db r)))
         reqs →
  serve self reqs r
  = (Ok (replicate (length reqs) (Reject TemporarilyBlocked)), r).
Proof.
  intros Hf Hall. induction Hall as [| [event now] reqs [Hg [e He]] _ IH];
    [done |].
  cbn [serve length replicate fst snd] in *.
  destruct (blocked_request_rejected self event user_id now r e Hg He)
    as (r' & Hcall & Hdb & Hfs); [by rewrite Hf |].
  assert (r' = r) as ->.
  { rewrite Hf in Hfs. destruct r, r'. cbn in *. by subst. }
  unfold bind at 1. rewrite Hcall. unfold bind at 1. rewrite IH. done.
Qed.

(** C3.  A governed request that finds no block record and whose primary
    check disallows: when the spam check disallows too, the block record is
    written with the configured block duration and the answer is the
    blocked one; when the spam check allows, the answer is the rate-limited
    one with the primary check's reset time.  A request that finds a live
    block record is answered [TemporarilyBlocked] after the one [EXISTS]
    round trip, with the store unchanged (no call of the rate limiter, no
    window counter touched), and so is every later request of the principal
    while the record lives. *)
Theorem rejected_request_escalation self event user_id now r :
  governed event user_id →
  let rl := rate_limiter self in
  let bk := _get_key rl (user_key "blocked" user_id) in
  (∀ r0 c rt r1,
     call now (EXISTS bk) r = (Ok (RInt 0), r0) →
     check_rate_limit rl (user_key "user" user_id)
         (default_limit self) (default_window self) now r0
       = (Ok (false, c, rt), r1) →
     (∀ c' rt' r2,
        check_rate_limit rl (user_key "spam" user_id)
            (spam_limit self) (spam_window self) now r1
          = (Ok (false, c', rt'), r2) →
        hd false (faults r2) = false → 0 < block_duration self →
        ∃ r3,
          __call__ self event now r
            = (Ok (Reject (BlockedForHours (block_duration self / 3600))), r3)
          ∧ db r3 !! bk
            = Some (Entry (RStr "1") (Some (now + block_duration self * tps)))
          ∧ (∀ t, t < now + block_duration self * tps →
                  is_Some (peek t bk (db r3))))
     ∧ (∀ c' rt' r2,
          check_rate_limit rl (user_key "spam" user_id)
              (spam_limit self) (spam_window self) now r1
            = (Ok (true, c', rt'), r2) →
          __call__ self event now r = (Ok (Reject (TooManyRequests rt)), r2)))
  ∧ (∀ e, peek now bk (db r) = Some e → hd false (faults r) = false →
       ∃ r', __call__ self event now r = (Ok (Reject TemporarilyBlocked), r')
             ∧ db r' = db r ∧ faults r' = tail (faults r))
  ∧ (∀ reqs,
       faults r = [] →
       Forall (λ req, governed req.1 user_id ∧ is_Some (peek req.2 bk (db r)))
              reqs →
       serve self reqs r
       = (Ok (replicate (length reqs) (Reject TemporarilyBlocked)), r)).
Proof.
  intros Hg rl bk. split; [| split].
  - intros r0 c rt r1 Hex Hchk. split.
    + intros c' rt' r2 Hspam Hf Hbd.
      destruct (block_user_effect self user_id now r2 Hf Hbd)
        as (r3 & Hblock & Hdb & _).
      exists r3. rewrite (call_governed _ _ _ _ Hg). fold rl bk.
      unfold bind at 1. rewrite Hex. cbn [as_int negb Z.eqb].
      unfold bind at 1. rewrite Hchk. cbn [negb].
      unfold bind at 1. rewrite Hspam. cbn [negb].
      unfold bind, ret. rewrite Hblock. split; [done |].
      rewrite Hdb. fold rl bk. rewrite lookup_insert_eq. split; [done |].
      intros t Ht. rewrite peek_insert. unfold live. cbn [deadline].
      destruct (Z.leb_spec t (now + block_duration self * tps)); [eauto | lia].
    + intros c' rt' r2 Hspam.
      rewrite (call_governed _ _ _ _ Hg). fold rl bk.
      unfold bind at 1. rewrite Hex. cbn [as_int negb Z.eqb].
      unfold bind at 1. rewrite Hchk. cbn [negb].
      unfold bind at 1. rewrite Hspam. done.
  - intros e He Hf. by apply (blocked_request_rejected self event user_id now r e).
  - intros reqs Hf Hall. by apply (blocked_requests_rejected self user_id).
Qed.

End MiddlewareFacts.

(** *** The middleware on sample requests *)

(** The limiter and middleware that [SecurityManager._init_rate_limiter]
    builds. *)
Definition production_limiter : RedisRateLimiter :=
  {| prefix := "2getpro:rate_limit" |}.

Definition production_middleware : RateLimitMiddleware :=
  default_middleware production_limiter.

(** A middleware with the limits of the spec's escalation scenario:
    primary 5 per 60 s, spam 7 per 3600 s, block for 3600 s. *)
Definition scenario_middleware : RateLimitMiddleware :=
  {| rate_limiter := production_limiter; default_limit := 5;
     default_window := 60; spam_limit := 7; spam_window := 3600;
     block_duration := 3600 |}.

Definition sample_message : TelegramObject :=
  {| class := IsMessage; from_user := Some 7; text := Some "/start";
     caption := None; data := None; date_timestamp := "1700000000.0" |}.

(** [n] copies of the sample message, one per second from [t0]. *)
Definition sample_burst (t0 : Z) (n : nat) : list (TelegramObject * Z) :=
  List.map (λ i, (sample_message, t0 + tps * Z.of_nat i)) (seq 0 n).

(** The number of entries the server counts under a sorted-set key. *)
Definition zcard (now : Z) (k : string) (r : redis) : Z :=
  as_int (Some (exec now (ZCARD k) (db r)).1).

(** C2, as stated, fails: the first message of principal 7 on an empty store
    passes the primary check and is forwarded, and the count of the spam key
    is 0 before and 0 after, where the claim has it grow by one. *)
Lemma allowed_request_spam_counter_unchanged :
  (__call__ production_middleware sample_message 1700000000000000 (Redis ∅ [])).1
    = Ok (Forward true)
  ∧ zcard 1700000000000000 "2getpro:rate_limit:spam:7" (Redis ∅ []) = 0
  ∧ zcard 1700000000000000 "2getpro:rate_limit:spam:7"
      (__call__ production_middleware sample_message 1700000000000000 (Redis ∅ [])).2
    ≠ 0 + 1.
Proof. vm_compute. repeat split; discriminate. Qed.

Lemma allowed_request_leaves_spam_window_witness :
  ∃ r2,
    __call__ production_middleware sample_message 1700000000000000 (Redis ∅ [])
      = (Ok (Forward true), r2)
    ∧ db r2 !! "2getpro:rate_limit:spam:7" = None.
Proof.
  destruct (allowed_request_leaves_spam_window production_middleware
              sample_message 7 1700000000000000 (Redis ∅ []) (Redis ∅ []) 0 60
              (check_rate_limit production_limiter "user:7" 20 60
                 1700000000000000 (Redis ∅ [])).2)
    as (r2 & Hcall & Hspam).
  - repeat split; [discriminate | lia].
  - reflexivity.
  - vm_compute. reflexivity.
  - exists r2. split; [exact Hcall |].
    assert (_get_key (rate_limiter production_middleware) (user_key "spam" 7)
            = "2getpro:rate_limit:spam:7") as Hk by (vm_compute; reflexivity).
    rewrite Hk in Hspam. rewrite Hspam. reflexivity.
Defined.

(** The store after twelve messages of the escalation scenario: five
    forwarded, seven answered as rate limited. *)
Definition scenario_store : redis :=
  (serve scenario_middleware (sample_burst 1700000000000000 12) (Redis ∅ [])).2.

(** The store after the thirteenth message, which is answered with the
    block. *)
Definition blocked_store : redis :=
  (__call__ scenario_middleware sample_message 1700000012000000 scenario_store).2.

Lemma rejected_request_escalation_witness :
  (serve scenario_middleware (sample_burst 1700000000000000 12) (Redis ∅ [])).1
    = Ok (replicate 5 (Forward true)
          ++ List.map (λ n, Reject (TooManyRequests n)) [55; 54; 53; 52; 51; 50; 49])
  ∧ (∃ r3,
      __call__ scenario_middleware sample_message 1700000012000000 scenario_store
        = (Ok (Reject (BlockedForHours 1)), r3)
      ∧ db r3 !! "2getpro:rate_limit:blocked:7"
        = Some (Entry (RStr "1") (Some 1700003612000000)))
  ∧ serve scenario_middleware (sample_burst 1700000013000000 3) blocked_store
    = (Ok (replicate 3 (Reject TemporarilyBlocked)), blocked_store).
Proof.
  assert (_get_key (rate_limiter scenario_middleware) (user_key "blocked" 7)
          = "2getpro:rate_limit:blocked:7") as Hk by (vm_compute; reflexivity).
  assert (governed sample_message 7) as Hg
    by (repeat split; [discriminate | lia]).
  split; [vm_compute; reflexivity |]. split.
  - pose proof (rejected_request_escalation scenario_middleware sample_message 7
                  1700000012000000 scenario_store Hg) as (Hrej & _ & _).
    destruct (Hrej scenario_store 5 48
                (check_rate_limit production_limiter "user:7" 5 60
                   1700000012000000 scenario_store).2
                ltac:(vm_compute; reflexivity) ltac:(vm_compute; reflexivity))
      as (Hblock & _).
    destruct (Hblock 7 3593
                (check_rate_limit production_limiter "spam:7" 7 3600
                   1700000012000000
                   (check_rate_limit production_limiter "user:7" 5 60
                      1700000012000000 scenario_store).2).2
                ltac:(vm_compute; reflexivity) ltac:(vm_compute; reflexivity)
                ltac:(reflexivity))
      as (r3 & Hcall & Hrec & _).
    rewrite Hk in Hrec. exists r3. split; [exact Hcall | exact Hrec].
  - pose proof (rejected_request_escalation scenario_middleware sample_message 7
                  1700000013000000 blocked_store Hg) as (_ & _ & Hrun).
    rewrite Hk in Hrun. apply Hrun; [vm_compute; reflexivity |].
    unfold sample_burst. cbn [seq List.map].
    repeat (constructor;
            [split; [exact Hg | vm_compute; eexists; reflexivity] |]).
    constructor.
Defined.

(** ** Failure policy: the limiter fails open, the role lookup fails closed *)

Section FailurePolicy.

Lemma check_rate_limit_except self key limit window now r :
  (check_rate_limit_try self key limit window now r).1 = Raise →
  check_rate_limit self key limit window now r
  = (Ok (true, 0, window), (check_rate_limit_try self key limit window now r).2).
Proof.
  unfold check_rate_limit, try_except, ret.
  by destruct (check_rate_limit_try self key limit window now r) as [[x |] r'].
Qed.

(** A store that cannot be reached: the pipeline's round trip raises. *)
Lemma check_rate_limit_try_unreachable self key limit window now r fs :
  faults r = true :: fs →
  check_rate_limit_try self key limit window now r = (Raise, Redis (db r) fs).
Proof.
  intros Hf. unfold check_rate_limit_try, bind at 1, pipeline, bind, round_trip.
  by rewrite Hf.
Qed.

Lemma query_role_absent db user_id :
  failing db = false → (∀ row, row ∈ rows db → row.1 ≠ user_id) →
  query_role db user_id = Some None.
Proof.
  intros Hok Habs. unfold query_role. rewrite Hok.
  replace (filter (λ row, row.1 = user_id) (rows db)) with (@nil (Z * option string));
    [done |].
  symmetry. induction (rows db) as [| row l IH]; [done |].
  rewrite filter_cons_False.
  - apply IH. intros row' Hrow'. apply Habs. by right.
  - apply Habs. by left.
Qed.

(** C4.  On a store error the two components fail in opposite directions.
    [check_rate_limit]: whenever its [try] block raises, whatever the key,
    limit, window, clock reading and store, the call returns
    [(True, 0, window)]; in particular when the store cannot be reached.
    [_get_user_role]: when the lookup raises, or no row of the identity
    store has the principal's id, the role is [USER], whatever the id. *)
Theorem fail_open_and_fail_closed :
  (∀ self key limit window now r,
     (check_rate_limit_try self key limit window now r).1 = Raise →
     (check_rate_limit self key limit window now r).1 = Ok (true, 0, window))
  ∧ (∀ self key limit window now r fs,
       faults r = true :: fs →
       check_rate_limit self key limit window now r
       = (Ok (true, 0, window), Redis (db r) fs))
  ∧ (∀ db user_id,
       failing db = true ∨ (∀ row, row ∈ rows db → row.1 ≠ user_id) →
       _get_user_role (Some db) user_id = USER)
  ∧ (∀ user_id, _get_user_role None user_id = USER).
Proof.
  split; [| split; [| split]].
  - intros self key limit window now r Hraise.
    by rewrite check_rate_limit_except.
  - intros self key limit window now r fs Hf.
    pose proof (check_rate_limit_try_unreachable self key limit window now r fs Hf)
      as Htry.
    rewrite check_rate_limit_except by (by rewrite Htry). by rewrite Htry.
  - intros db user_id [Hfail | Habs]; unfold _get_user_role.
    + unfold query_role. by rewrite Hfail.
    + destruct (failing db) eqn:Hf.
      * unfold query_role. by rewrite Hf.
      * by rewrite query_role_absent.
  - done.
Qed.

End FailurePolicy.

Lemma fail_open_and_fail_closed_witness :
  check_rate_limit production_limiter "user:7" 20 60 1700000000000000
    (Redis ∅ [true])
  = (Ok (true, 0, 60), Redis ∅ [])
  ∧ (check_rate_limit production_limiter "user:7" 1 60 1700000000000100
       (Redis {[ "2getpro:rate_limit:user:7"
                 := Entry (RZSet {[ 1700000000000000 ]}) (Some 1700000061000000) ]}
              [false; true])).1
    = Ok (true, 0, 60)
  ∧ _get_user_role (Some {| rows := [(1, Some "admin")]; failing := true |}) 1 = USER
  ∧ _get_user_role (Some {| rows := [(1, Some "admin")]; failing := false |}) 2 = USER.
Proof.
  destruct fail_open_and_fail_closed as (Hexc & Hdown & Hrole & _).
  split; [| split; [| split]].
  - apply (Hdown production_limiter "user:7" 20 60 1700000000000000
             (Redis ∅ [true]) []). reflexivity.
  - apply Hexc. vm_compute. reflexivity.
  - apply Hrole. left. reflexivity.
  - apply Hrole. right. intros row Hrow.
    apply list_elem_of_singleton in Hrow as ->. cbn. lia.
Defined.

(** ** Properties of the access-control registry *)

Section AccessControl.

Implicit Types (h : heap) (db_session : option AsyncSession).

(** C10.  [clear_cache(0)] empties the whole permission cache, as
    [clear_cache(None)] does, because the per-principal branch is guarded by
    the truth value of the id; for every other id [clear_cache] removes that
    principal's entry and leaves every other entry in place.  The role table
    is not touched. *)
Theorem clear_cache_zero_clears_all h :
  _cache (clear_cache (Some 0) h) = ∅
  ∧ clear_cache (Some 0) h = clear_cache None h
  ∧ (∀ user_id, user_id ≠ 0 →
       _cache (clear_cache (Some user_id) h) !! user_id = None
       ∧ ∀ other, other ≠ user_id →
           _cache (clear_cache (Some user_id) h) !! other = _cache h !! other)
  ∧ (∀ user_id, table (clear_cache user_id h) = table h).
Proof.
  split; [done |]. split; [done |]. split.
  - intros user_id Hnz. unfold clear_cache. rewrite decide_False by done.
    cbn [_cache]. split; [apply lookup_delete_eq |].
    intros other Hother. by rewrite lookup_delete_ne.
  - intros [user_id |]; [| done]. unfold clear_cache. by case_decide.
Qed.

(** A checker whose cache holds principals 5 and 9: clearing for id 0 drops
    both, clearing for id 5 keeps 9. *)
Lemma clear_cache_zero_clears_all_witness :
  let h := Heap ROLE_PERMISSIONS {[ 5 := Shared MODERATOR; 9 := Own {[ READ ]} ]} in
  _cache (clear_cache (Some 0) h) = ∅
  ∧ _cache (clear_cache (Some 5) h) !! 5 = None
  ∧ _cache (clear_cache (Some 5) h) !! 9 = Some (Own {[ READ ]}).
Proof.
  intros h. destruct (clear_cache_zero_clears_all h) as (Hzero & _ & Hone & _).
  split; [exact Hzero |].
  destruct (Hone 5 ltac:(lia)) as [Hgone Hkept].
  split; [exact Hgone |]. rewrite (Hkept 9) by lia. reflexivity.
Defined.

Lemma has_permission_miss db_session user_id p h :
  _cache h !! user_id = None →
  has_permission db_session user_id p true h
  = (bool_decide (p ∈ table h (_get_user_role db_session user_id)),
     Heap (table h)
          (<[user_id := Shared (_get_user_role db_session user_id)]> (_cache h))).
Proof. intros Hc. unfold has_permission. by rewrite Hc. Qed.

Lemma has_permission_hit db_session user_id p h c :
  _cache h !! user_id = Some c →
  has_permission db_session user_id p true h = (bool_decide (p ∈ deref h c), h).
Proof. intros Hc. unfold has_permission. by rewrite Hc. Qed.

Lemma grant_permission_shared db_session user_id p h role :
  _cache h !! user_id = Some (Shared role) →
  grant_permission db_session user_id p h
  = (true, Heap (update_table (λ s, {[p]} ∪ s) role (table h)) (_cache h)).
Proof. intros Hc. unfold grant_permission, mutate. by rewrite Hc, Hc. Qed.

Lemma revoke_permission_shared db_session user_id p h role :
  _cache h !! user_id = Some (Shared role) →
  revoke_permission db_session user_id p h
  = (true, Heap (update_table (λ s, s ∖ {[p]}) role (table h)) (_cache h)).
Proof. intros Hc. unfold revoke_permission, mutate. by rewrite Hc. Qed.

Lemma update_table_same f role t : update_table f role t role = f (t role).
Proof. unfold update_table. by rewrite decide_True. Qed.

(** X1.  From a fresh checker, the resolution scenario of a principal whose role
    resolves to moderator: [VIEW_PAYMENTS] is held and [MANAGE_USERS] is not;
    after the grant [MANAGE_USERS] is held, after the revocation it is not. *)
Lemma moderator_grant_revoke db_session user_id :
  _get_user_role db_session user_id = MODERATOR →
  let '(view, h1) := has_permission db_session user_id VIEW_PAYMENTS true initial_heap in
  let '(manage, h2) := has_permission db_session user_id MANAGE_USERS true h1 in
  let '(_, h3) := grant_permission db_session user_id MANAGE_USERS h2 in
  let '(granted, h4) := has_permission db_session user_id MANAGE_USERS true h3 in
  let '(_, h5) := revoke_permission db_session user_id MANAGE_USERS h4 in
  let '(revoked, _) := has_permission db_session user_id MANAGE_USERS true h5 in
  view = true ∧ manage = false ∧ granted = true ∧ revoked = false.
Proof.
  intros Hrole.
  rewrite has_permission_miss, Hrole by done. cbn [initial_heap table _cache].
  rewrite (has_permission_hit _ _ _ _ (Shared MODERATOR))
    by apply lookup_insert_eq.
  rewrite (grant_permission_shared _ _ _ _ MODERATOR) by apply lookup_insert_eq.
  rewrite (has_permission_hit _ _ _ _ (Shared MODERATOR))
    by apply lookup_insert_eq.
  rewrite (revoke_permission_shared _ _ _ _ MODERATOR) by apply lookup_insert_eq.
  rewrite (has_permission_hit _ _ _ _ (Shared MODERATOR))
    by apply lookup_insert_eq.
  cbn [deref table]. rewrite !update_table_same.
  repeat split; apply bool_decide_eq_true || apply bool_decide_eq_false;
    set_solver.
Qed.

(** The cached set of a principal checked with [has_permission] is the
    table's own set: a grant to that principal changes the table, and with
    it the permissions of every principal of the role. *)
Lemma grant_after_check_changes_table db_session u v p :
  _get_user_role db_session v = _get_user_role db_session u → u ≠ v →
  let h1 := (has_permission db_session u READ true initial_heap).2 in
  let h2 := (grant_permission db_session u p h1).2 in
  (has_permission db_session v p true h2).1 = true.
Proof.
  intros Hrole Huv.
  rewrite has_permission_miss by done. cbn [snd initial_heap table _cache].
  rewrite (grant_permission_shared _ _ _ _ (_get_user_role db_session u))
    by apply lookup_insert_eq.
  cbn [snd]. rewrite has_permission_miss
    by (cbn [_cache]; by rewrite lookup_insert_ne, lookup_empty).
  cbn [fst table]. rewrite Hrole, update_table_same.
  apply bool_decide_eq_true. set_solver.
Qed.

End AccessControl.

(** An identity store with two moderators, 1 and 2. *)
Definition two_moderators : option AsyncSession :=
  Some {| rows := [(1, Some "moderator"); (2, Some "moderator")];
          failing := false |}.

Lemma moderator_grant_revoke_witness :
  let '(view, h1) := has_permission two_moderators 1 VIEW_PAYMENTS true initial_heap in
  let '(manage, h2) := has_permission two_moderators 1 MANAGE_USERS true h1 in
  let '(_, h3) := grant_permission two_moderators 1 MANAGE_USERS h2 in
  let '(granted, h4) := has_permission two_moderators 1 MANAGE_USERS true h3 in
  let '(_, h5) := revoke_permission two_moderators 1 MANAGE_USERS h4 in
  let '(revoked, _) := has_permission two_moderators 1 MANAGE_USERS true h5 in
  view = true ∧ manage = false ∧ granted = true ∧ revoked = false.
Proof.
  apply (moderator_grant_revoke two_moderators 1). reflexivity.
Defined.

(** C8.  The code departs from the claim.  Principal 1 is checked once and
    then granted [MANAGE_USERS]; principal 2, a moderator that was never
    granted anything and did not hold [MANAGE_USERS] before, then holds it
    as well: the grant went into the table's moderator set, which the cache
    entry of principal 1 shares. *)
Lemma moderator_grant_reaches_other_moderator :
  let h1 := (has_permission two_moderators 1 READ true initial_heap).2 in
  let h2 := (grant_permission two_moderators 1 MANAGE_USERS h1).2 in
  _get_user_role two_moderators 2 = MODERATOR
  ∧ (has_permission two_moderators 2 MANAGE_USERS true initial_heap).1 = false
  ∧ (has_permission two_moderators 2 MANAGE_USERS true h2).1 = true
  ∧ MANAGE_USERS ∈ table h2 MODERATOR.
Proof.
  intros h1 h2. split; [vm_compute; reflexivity |].
  split; [vm_compute; reflexivity |]. split; [vm_compute; reflexivity |].
  apply (bool_decide_unpack _). vm_compute. exact I.
Qed.

(** ** Properties of the webhook signature validator *)

(** The digests [hashlib.md5] gives for the empty string, for [abc], and for
    a 70-byte message of two blocks. *)
Example md5_test_vectors :
  MD5.hexdigest (encode "") = "d41d8cd98f00b204e9800998ecf8427e"
  ∧ MD5.hexdigest (encode "abc") = "900150983cd24fb0d6963f7d28e17f72"
  ∧ MD5.hexdigest (List.repeat 97 70) = "0f5c6c4e740bfcc08c3c26ccb2673d46".
Proof. repeat split; vm_compute; reflexivity. Qed.

Example lower_examples :
  lower "YooKassa" = "yookassa" ∧ lower "8243DC20" = "8243dc20".
Proof. split; reflexivity. Qed.

Lemma hex_digit_ascii_lower d :
  0 ≤ d < 16 →
  (code (hex_digit d) <? 128) = true ∧ lower_char (hex_digit d) = hex_digit d.
Proof.
  intros Hd.
  assert (d = 0 ∨ d = 1 ∨ d = 2 ∨ d = 3 ∨ d = 4 ∨ d = 5 ∨ d = 6 ∨ d = 7
          ∨ d = 8 ∨ d = 9 ∨ d = 10 ∨ d = 11 ∨ d = 12 ∨ d = 13 ∨ d = 14
          ∨ d = 15) as Hcases by lia.
  repeat (destruct Hcases as [-> | Hcases]; [by vm_compute |]).
  subst. by vm_compute.
Qed.

Lemma hexlify_isascii b : isascii (hexlify b) = true.
Proof.
  induction b as [| z b IH]; [done |]. cbn [hexlify isascii].
  destruct (hex_digit_ascii_lower (z / 16 mod 16)) as [-> _];
    [apply Z.mod_pos_bound; lia |].
  destruct (hex_digit_ascii_lower (z mod 16)) as [-> _];
    [apply Z.mod_pos_bound; lia |].
  by rewrite IH.
Qed.

Lemma hexlify_lower b : lower (hexlify b) = hexlify b.
Proof.
  induction b as [| z b IH]; [done |]. cbn [hexlify lower].
  destruct (hex_digit_ascii_lower (z / 16 mod 16)) as [_ ->];
    [apply Z.mod_pos_bound; lia |].
  destruct (hex_digit_ascii_lower (z mod 16)) as [_ ->];
    [apply Z.mod_pos_bound; lia |].
  by rewrite IH.
Qed.

Lemma compare_digest_true a b :
  compare_digest a b = Some true ↔ isascii a = true ∧ isascii b = true ∧ a = b.
Proof.
  unfold compare_digest.
  destruct (isascii a), (isascii b); cbn; split;
    try (intros [= Heq]); try (intros (? & ? & ?)); try done.
  - by apply bool_decide_eq_true in Heq.
  - f_equal. by apply bool_decide_eq_true.
Qed.

(** A comparison against an ASCII string: [except_false] of it is [true]
    exactly for that string. *)
Lemma except_false_compare a b :
  isascii b = true → except_false (compare_digest a b) = true ↔ a = b.
Proof.
  intros Hb. unfold except_false. split.
  - intros H. destruct (compare_digest a b) as [[] |] eqn:E; try done.
    by apply compare_digest_true in E as (_ & _ & ?).
  - intros ->. replace (compare_digest b b) with (Some true); [done |].
    symmetry. by apply compare_digest_true.
Qed.

Lemma dict_get_missing (d : dict) key :
  dict_lookup d key = None → truthy (dict_get d key) = false.
Proof. unfold dict_get. by intros ->. Qed.

(** The number of positions at which two strings of one length differ. *)
Fixpoint changed_bytes (a b : string) : option nat :=
  match a, b with
  | EmptyString, EmptyString => Some 0%nat
  | String x a', String y b' =>
      n ← changed_bytes a' b'; Some (if decide (x = y) then n else S n)
  | _, _ => None
  end.

Lemma changed_bytes_refl a : changed_bytes a a = Some 0%nat.
Proof.
  induction a as [| x a IH]; [done |]. cbn [changed_bytes].
  rewrite IH. cbn. by rewrite decide_True.
Qed.

Section ValidatorFacts.

Variable hmac_sha256 : bytes → bytes → bytes.
Variable json_dumps : dict → option string.
Variable repr : Value → string.

(** The six provider names [validate] knows. *)
Definition providers : list string :=
  ["yookassa"; "cryptopay"; "freekassa"; "tribute"; "stars"; "panel"].

Ltac pick_provider H :=
  unfold validate; rewrite H;
  repeat (rewrite decide_False by discriminate);
  rewrite decide_True by reflexivity.

Lemma validate_yookassa_eq self now provider payload signature :
  lower provider = "yookassa" →
  validate hmac_sha256 json_dumps repr self now provider payload signature
  = validate_yookassa hmac_sha256 repr self payload signature.
Proof. intros H. by pick_provider H. Qed.

Lemma validate_cryptopay_eq self now provider payload signature :
  lower provider = "cryptopay" →
  validate hmac_sha256 json_dumps repr self now provider payload signature
  = validate_json_replay hmac_sha256 json_dumps self "cryptopay" now payload signature.
Proof. intros H. by pick_provider H. Qed.

Lemma validate_freekassa_eq self now provider payload signature :
  lower provider = "freekassa" →
  validate hmac_sha256 json_dumps repr self now provider payload signature
  = validate_freekassa repr self payload signature.
Proof. intros H. by pick_provider H. Qed.

Lemma validate_tribute_eq self now provider payload signature :
  lower provider = "tribute" →
  validate hmac_sha256 json_dumps repr self now provider payload signature
  = validate_tribute hmac_sha256 json_dumps self payload signature.
Proof. intros H. by pick_provider H. Qed.

Lemma validate_stars_eq self now provider payload signature :
  lower provider = "stars" →
  validate hmac_sha256 json_dumps repr self now provider payload signature
  = validate_stars self payload signature.
Proof. intros H. by pick_provider H. Qed.

Lemma validate_panel_eq self now provider payload signature :
  lower provider = "panel" →
  validate hmac_sha256 json_dumps repr self now provider payload signature
  = validate_json_replay hmac_sha256 json_dumps self "panel" now payload signature.
Proof. intros H. by pick_provider H. Qed.

Lemma validate_unknown self now provider payload signature :
  lower provider ∉ providers →
  validate hmac_sha256 json_dumps repr self now provider payload signature = false.
Proof.
  intros Hn. unfold validate, providers in *.
  repeat (case_decide; [exfalso; apply Hn; set_solver |]). done.
Qed.

Lemma validate_json_replay_eq self name now :
  (name = "cryptopay" ∨ name = "panel") →
  ∀ provider payload signature, lower provider = name →
  validate hmac_sha256 json_dumps repr self now provider payload signature
  = validate_json_replay hmac_sha256 json_dumps self name now payload signature.
Proof.
  intros [-> | ->] provider payload signature H;
    [by apply validate_cryptopay_eq | by apply validate_panel_eq].
Qed.

(** C6.  [validate] returns [False] when the provider name is none of the
    six, when the provider's secret is missing or empty, and when the payload
    lacks (or holds a falsy value in) a field the message is built from:
    [event] or [object.id] for yookassa, [MERCHANT_ID], [AMOUNT] or
    [MERCHANT_ORDER_ID] for freekassa; whatever the payload and the
    signature otherwise are. *)
Theorem validate_rejects_unknown_unconfigured_incomplete
    self now provider payload signature :
  (lower provider ∉ providers →
     validate hmac_sha256 json_dumps repr self now provider payload signature = false)
  ∧ (configured self (lower provider) = None →
     validate hmac_sha256 json_dumps repr self now provider payload signature = false)
  ∧ (lower provider = "yookassa" →
     truthy (dict_get payload "event") = false
     ∨ dict_lookup payload "object" = None
     ∨ (∃ object_data, dict_lookup payload "object" = Some (VDict object_data)
                       ∧ truthy (dict_get object_data "id") = false) →
     validate hmac_sha256 json_dumps repr self now provider payload signature = false)
  ∧ (lower provider = "freekassa" →
     truthy (dict_get payload "MERCHANT_ID") = false
     ∨ truthy (dict_get payload "AMOUNT") = false
     ∨ truthy (dict_get payload "MERCHANT_ORDER_ID") = false →
     validate hmac_sha256 json_dumps repr self now provider payload signature = false).
Proof.
  split; [apply validate_unknown |]. split; [| split].
  - intros Hconf. unfold validate.
    repeat case_decide;
      [ unfold validate_yookassa | unfold validate_cryptopay, validate_json_replay
      | unfold validate_freekassa | unfold validate_tribute
      | unfold validate_stars | unfold validate_panel, validate_json_replay | done ].
    all: match goal with H : lower _ = _ |- _ => rewrite H in Hconf end.
    all: by rewrite Hconf.
  - intros Hp Hlack. rewrite validate_yookassa_eq by done.
    unfold validate_yookassa. destruct (configured self "yookassa"); [| done].
    unfold yookassa_message.
    destruct Hlack as [Hev | [Hobj | (od & Hobj & Hid)]].
    + rewrite Hev. by destruct (default _ _).
    + rewrite Hobj. cbn [default from_option id]. unfold dict_get at 2.
      cbn [dict_lookup default from_option id truthy negb]. by rewrite orb_true_r.
    + rewrite Hobj. cbn [default from_option id]. rewrite Hid. cbn [negb].
      by rewrite orb_true_r.
  - intros Hp Hlack. rewrite validate_freekassa_eq by done.
    unfold validate_freekassa. destruct (configured self "freekassa"); [| done].
    unfold freekassa_message.
    destruct Hlack as [-> | [-> | ->]]; by rewrite ?andb_false_r.
Qed.

(** The replay-checked body, once the secret is configured and the payload
    serialises: the signature must equal the expected one, and then a
    [timestamp] item, if the payload has one, must pass [_check_timestamp]. *)
Lemma validate_json_replay_spec self name now payload signature secret body :
  configured self name = Some secret → json_dumps payload = Some body →
  validate_json_replay hmac_sha256 json_dumps self name now payload signature
  = if bool_decide (signature = hmac_hexdigest hmac_sha256 secret body) then
      match dict_lookup payload "timestamp" with
      | Some timestamp => default false (_check_timestamp self now timestamp)
      | None => true
      end
    else false.
Proof.
  intros Hconf Hjson. unfold validate_json_replay.
  rewrite Hconf, Hjson. cbn [mbind option_bind].
  set (expected := hmac_hexdigest hmac_sha256 secret body).
  assert (isascii expected = true) as Hascii by apply hexlify_isascii.
  destruct (decide (signature = expected)) as [-> | Hne].
  - rewrite bool_decide_eq_true_2 by done.
    replace (compare_digest expected expected) with (Some true)
      by (symmetry; by apply compare_digest_true).
    cbn [mbind option_bind].
    destruct (dict_lookup payload "timestamp") as [ts |]; [| done].
    by destruct (_check_timestamp self now ts) as [[] |].
  - rewrite bool_decide_eq_false_2 by done.
    destruct (compare_digest signature expected) as [[] |] eqn:E; [| done | done].
    apply compare_digest_true in E as (_ & _ & ?). done.
Qed.

(** C7 (amended).  For cryptopay and panel (replay window 300 s) the
    payload's timestamp, when the payload carries one, must lie within the
    replay window: a payload whose integer timestamp is more than 300 s away
    from [int(time.time())] is rejected, with the correct signature as with
    any other; a signature other than the expected one is rejected whatever
    the payload's timestamp item is (the timestamp is looked at only once the
    signature has passed); with the correct signature a timestamp at most
    300 s away is accepted, and so is a payload without a timestamp item. *)
Theorem replay_window_enforced secs now provider payload secret body :
  lower provider = "cryptopay" ∨ lower provider = "panel" →
  configured (SignatureValidator_init secs) (lower provider) = Some secret →
  json_dumps payload = Some body →
  let self := SignatureValidator_init secs in
  let expected := hmac_hexdigest hmac_sha256 secret body in
  (∀ ts signature,
     dict_lookup payload "timestamp" = Some (VInt ts) →
     300 < Z.abs (int_time now - ts) →
     validate hmac_sha256 json_dumps repr self now provider payload expected = false
     ∧ validate hmac_sha256 json_dumps repr self now provider payload signature = false)
  ∧ (∀ signature,
       signature ≠ expected →
       validate hmac_sha256 json_dumps repr self now provider payload signature = false)
  ∧ (∀ ts,
       dict_lookup payload "timestamp" = Some (VInt ts) →
       Z.abs (int_time now - ts) ≤ 300 →
       validate hmac_sha256 json_dumps repr self now provider payload expected = true)
  ∧ (dict_lookup payload "timestamp" = None →
     validate hmac_sha256 json_dumps repr self now provider payload expected = true).
Proof.
  intros Hp Hconf Hjson self expected.
  assert (∀ signature,
            validate hmac_sha256 json_dumps repr self now provider payload signature
            = if bool_decide (signature = expected) then
                match dict_lookup payload "timestamp" with
                | Some timestamp => default false (_check_timestamp self now timestamp)
                | None => true
                end
              else false) as Hval.
  { intros signature.
    rewrite (validate_json_replay_eq self (lower provider) now Hp) by done.
    by apply validate_json_replay_spec. }
  split; [| split; [| split]].
  - intros ts signature Hts Hold.
    assert (default false (_check_timestamp self now (VInt ts)) = false) as Hchk.
    { cbn. apply negb_false_iff, Z.ltb_lt. done. }
    rewrite !Hval, Hts, Hchk. split; by case_bool_decide.
  - intros signature Hne. rewrite Hval. by rewrite bool_decide_eq_false_2.
  - intros ts Hts Hfresh. rewrite Hval, Hts, bool_decide_eq_true_2 by done.
    cbn. apply negb_true_iff, Z.ltb_ge. done.
  - intros Hts. by rewrite Hval, Hts, bool_decide_eq_true_2.
Qed.

(** Whether the payload passes the replay check: it has no [timestamp]
    item, or [_check_timestamp] returns [True] for it. *)
Definition fresh_timestamp (self : SignatureValidator) (now : Z)
    (payload : dict) : bool :=
  match dict_lookup payload "timestamp" with
  | Some timestamp => default false (_check_timestamp self now timestamp)
  | None => true
  end.

(** The signature the provider's documented recipe prescribes for a payload
    (spec 4.2), computed with the configured secret; [None] when there is
    none: the provider is unknown, its secret is not configured, or the
    payload is not one the scheme accepts.
      - yookassa: HMAC-SHA256 hex of [event & object.id & secret];
      - cryptopay, panel: HMAC-SHA256 hex of the canonical JSON body, for a
        payload that passes the replay check;
      - tribute: HMAC-SHA256 hex of the canonical JSON body;
      - freekassa: MD5 hex of [MERCHANT_ID:AMOUNT:secret:MERCHANT_ORDER_ID];
      - stars: the secret token itself (an ASCII token). *)
Definition documented_signature (self : SignatureValidator) (now : Z)
    (provider : string) (payload : dict) : option string :=
  let name := lower provider in
  match configured self name with
  | None => None
  | Some secret =>
      if decide (name = "yookassa") then
        match yookassa_message repr payload secret with
        | Some (Some message) => Some (hmac_hexdigest hmac_sha256 secret message)
        | _ => None
        end
      else if decide (name = "cryptopay" ∨ name = "panel") then
        match json_dumps payload with
        | Some body =>
            if fresh_timestamp self now payload
            then Some (hmac_hexdigest hmac_sha256 secret body) else None
        | None => None
        end
      else if decide (name = "tribute") then
        match json_dumps payload with
        | Some body => Some (hmac_hexdigest hmac_sha256 secret body)
        | None => None
        end
      else if decide (name = "freekassa") then
        match freekassa_message repr payload secret with
        | Some message => Some (MD5.hexdigest (encode message))
        | None => None
        end
      else if decide (name = "stars") then
        if isascii secret then Some secret else None
      else None
  end.

(** C5 (amended).  When the documented recipe yields a signature for the
    payload, [validate] accepts it; and [validate] accepts a signature only
    if it is that one, or, for freekassa, only if it is that one up to the
    case of its letters.  So the signature with one byte changed is
    rejected, unless, for freekassa, the change turns a hexadecimal letter
    into its capital. *)
Theorem documented_signature_accepted self now provider payload sig :
  documented_signature self now provider payload = Some sig →
  validate hmac_sha256 json_dumps repr self now provider payload sig = true
  ∧ (∀ sig',
       validate hmac_sha256 json_dumps repr self now provider payload sig' = true
       ↔ (if decide (lower provider = "freekassa") then lower sig' = sig
          else sig' = sig))
  ∧ (∀ sig',
       changed_bytes sig sig' = Some 1%nat →
       (lower provider = "freekassa" → lower sig' ≠ sig) →
       validate hmac_sha256 json_dumps repr self now provider payload sig' = false).
Proof.
  intros Hdoc.
  assert (validate hmac_sha256 json_dumps repr self now provider payload sig = true
          ∧ ∀ sig',
              validate hmac_sha256 json_dumps repr self now provider payload sig' = true
              ↔ (if decide (lower provider = "freekassa") then lower sig' = sig
                 else sig' = sig)) as [Hok Honly].
  2: { split; [exact Hok |]. split; [exact Honly |].
       intros sig' Hchanged Hcase. apply not_true_is_false. intros Hacc.
       apply Honly in Hacc. case_decide as Hfk; [by apply Hcase |].
       subst sig'. rewrite changed_bytes_refl in Hchanged. discriminate Hchanged. }
  revert Hdoc. unfold documented_signature.
  destruct (configured self (lower provider)) as [secret |] eqn:Hconf; [| done].
  assert (∀ key msg, isascii (hmac_hexdigest hmac_sha256 key msg) = true)
    as Hhex by (intros; apply hexlify_isascii).
  case_decide as Hyk.
  { destruct (yookassa_message repr payload secret) as [[message |] |] eqn:Hmsg;
      [| done | done].
    intros [= <-]. rewrite Hyk in Hconf.
    assert (∀ s, validate hmac_sha256 json_dumps repr self now provider payload s = true
                 ↔ s = hmac_hexdigest hmac_sha256 secret message) as Hval.
    { intros s. rewrite validate_yookassa_eq by done. unfold validate_yookassa.
      rewrite Hconf, Hmsg. by apply except_false_compare. }
    split; [by apply Hval |]. intros s. rewrite decide_False by (rewrite Hyk; discriminate). apply Hval. }
  case_decide as Hrp.
  { destruct (json_dumps payload) as [body |] eqn:Hjson; [| done].
    destruct (fresh_timestamp self now payload) eqn:Hfresh; [| done].
    intros [= <-].
    assert (∀ s, validate hmac_sha256 json_dumps repr self now provider payload s = true
                 ↔ s = hmac_hexdigest hmac_sha256 secret body) as Hval.
    { intros s. rewrite (validate_json_replay_eq self (lower provider) now Hrp) by done.
      rewrite (validate_json_replay_spec _ _ _ _ _ secret body) by done.
      unfold fresh_timestamp in Hfresh. rewrite Hfresh.
      case_bool_decide; split; done. }
    split; [by apply Hval |]. intros s. rewrite decide_False
      by (intros Hfk; rewrite Hfk in Hrp; by destruct Hrp). apply Hval. }
  case_decide as Htr.
  { destruct (json_dumps payload) as [body |] eqn:Hjson; [| done].
    intros [= <-]. rewrite Htr in Hconf.
    assert (∀ s, validate hmac_sha256 json_dumps repr self now provider payload s = true
                 ↔ s = hmac_hexdigest hmac_sha256 secret body) as Hval.
    { intros s. rewrite validate_tribute_eq by done. unfold validate_tribute.
      rewrite Hconf, Hjson. cbn [mbind option_bind]. by apply except_false_compare. }
    split; [by apply Hval |]. intros s. rewrite decide_False by (rewrite Htr; discriminate). apply Hval. }
  case_decide as Hfk.
  { destruct (freekassa_message repr payload secret) as [message |] eqn:Hmsg; [| done].
    intros [= <-]. rewrite Hfk in Hconf.
    assert (∀ s, validate hmac_sha256 json_dumps repr self now provider payload s = true
                 ↔ lower s = MD5.hexdigest (encode message)) as Hval.
    { intros s. rewrite validate_freekassa_eq by done. unfold validate_freekassa.
      rewrite Hconf, Hmsg. unfold MD5.hexdigest. rewrite hexlify_lower.
      apply except_false_compare, hexlify_isascii. }
    split; [apply Hval, hexlify_lower | exact Hval]. }
  case_decide as Hst; [| done].
  destruct (isascii secret) eqn:Hascii; [| done].
  intros [= <-]. rewrite Hst in Hconf.
  assert (∀ s, validate hmac_sha256 json_dumps repr self now provider payload s = true
               ↔ s = secret) as Hval.
  { intros s. rewrite validate_stars_eq by done. unfold validate_stars.
    rewrite Hconf. by apply except_false_compare. }
  split; [by apply Hval | exact Hval].
Qed.

End ValidatorFacts.

(** *** The validator on sample payloads *)

(** Stand-ins for the open library functions, to run the validator on
    concrete payloads: a keyed digest built from MD5 in place of
    HMAC-SHA256, a serialiser of flat payloads of strings and integers in
    place of [json.dumps], and a fixed text in place of [str] of a float,
    list or dict.  No property above depends on them. *)
Definition sample_mac (key msg : bytes) : bytes :=
  MD5.digest (key ++ MD5.digest (key ++ msg)).

Definition quoted (s : string) : string :=
  String (chr 34) s +:+ String (chr 34) "".

Fixpoint sample_items (d : dict) : option string :=
  match d with
  | [] => Some ""
  | (k, v) :: d' =>
      item ← match v with
             | VStr s => Some (quoted k +:+ ":" +:+ quoted s)
             | VInt n => Some (quoted k +:+ ":" +:+ pretty n)
             | _ => None
             end;
      rest ← sample_items d';
      Some (match d' with [] => item | _ => item +:+ "," +:+ rest end)
  end.

Definition sample_dumps (d : dict) : option string :=
  items ← sample_items d; Some ("{" +:+ items +:+ "}").

Definition sample_repr (v : Value) : string := "<object>".

Definition freekassa_validator : SignatureValidator :=
  SignatureValidator_init {[ "freekassa" := "s3cr3t" ]}.

Definition freekassa_payload : dict :=
  [ ("MERCHANT_ID", VStr "12345"); ("AMOUNT", VStr "100.00");
    ("MERCHANT_ORDER_ID", VStr "42") ].

Definition cryptopay_validator : SignatureValidator :=
  SignatureValidator_init {[ "cryptopay" := "12345:AAtoken" ]}.

Definition cryptopay_payload : dict :=
  [ ("invoice_id", VInt 528); ("status", VStr "paid");
    ("timestamp", VInt 1700000000) ].

(** C5, as stated, fails for freekassa: the documented signature of the
    sample payload is the MD5 digest shown; with its fifth byte changed from
    [d] to [D], one byte, it is still accepted, whatever the open library
    functions are. *)
Lemma freekassa_capital_letter_accepted :
  changed_bytes "8243dc209243f492be8ac86d8a9905c3"
                "8243Dc209243f492be8ac86d8a9905c3" = Some 1%nat
  ∧ ∀ hmac_sha256 json_dumps repr,
      documented_signature hmac_sha256 json_dumps repr freekassa_validator 0
        "freekassa" freekassa_payload
      = Some "8243dc209243f492be8ac86d8a9905c3"
      ∧ validate hmac_sha256 json_dumps repr freekassa_validator 0
          "freekassa" freekassa_payload "8243Dc209243f492be8ac86d8a9905c3"
        = true.
Proof. split; [reflexivity |]. intros. split; vm_compute; reflexivity. Qed.

Lemma documented_signature_accepted_witness :
  validate sample_mac sample_dumps sample_repr cryptopay_validator
    (1700000100 * tps) "CryptoPay" cryptopay_payload
    "2aeac100b7cc2a24f359ef117a42b73d" = true
  ∧ validate sample_mac sample_dumps sample_repr cryptopay_validator
      (1700000100 * tps) "CryptoPay" cryptopay_payload
      "2aeac100b7cc2a24f359ef117a42b73e" = false
  ∧ validate sample_mac sample_dumps sample_repr freekassa_validator 0
      "freekassa" freekassa_payload "8243dc209243f492be8ac86d8a9905c4" = false.
Proof.
  destruct (documented_signature_accepted sample_mac sample_dumps sample_repr
              cryptopay_validator (1700000100 * tps) "CryptoPay"
              cryptopay_payload "2aeac100b7cc2a24f359ef117a42b73d"
              ltac:(vm_compute; reflexivity)) as (Hok & _ & Hflip).
  destruct (documented_signature_accepted sample_mac sample_dumps sample_repr
              freekassa_validator 0 "freekassa" freekassa_payload
              "8243dc209243f492be8ac86d8a9905c3"
              ltac:(vm_compute; reflexivity)) as (_ & _ & Hfk).
  split; [exact Hok |]. split.
  - apply Hflip; [reflexivity |]. vm_compute. discriminate.
  - apply Hfk; [reflexivity |]. intros _. vm_compute. discriminate.
Defined.

Lemma validate_rejects_unknown_unconfigured_incomplete_witness :
  validate sample_mac sample_dumps sample_repr cryptopay_validator 0
    "paypal" cryptopay_payload "2aeac100b7cc2a24f359ef117a42b73d" = false
  ∧ validate sample_mac sample_dumps sample_repr cryptopay_validator 0
      "tribute" cryptopay_payload "2aeac100b7cc2a24f359ef117a42b73d" = false
  ∧ validate sample_mac sample_dumps sample_repr freekassa_validator 0
      "freekassa" [("MERCHANT_ID", VStr "12345"); ("AMOUNT", VStr "100.00")]
      "8243dc209243f492be8ac86d8a9905c3" = false.
Proof.
  split; [| split].
  - destruct (validate_rejects_unknown_unconfigured_incomplete sample_mac
                sample_dumps sample_repr cryptopay_validator 0 "paypal"
                cryptopay_payload "2aeac100b7cc2a24f359ef117a42b73d")
      as (Hunknown & _).
    apply Hunknown. vm_compute. intros Hin.
    repeat (apply elem_of_cons in Hin as [Hin | Hin]; [discriminate Hin |]).
    by apply elem_of_nil in Hin.
  - destruct (validate_rejects_unknown_unconfigured_incomplete sample_mac
                sample_dumps sample_repr cryptopay_validator 0 "tribute"
                cryptopay_payload "2aeac100b7cc2a24f359ef117a42b73d")
      as (_ & Hunconfigured & _).
    apply Hunconfigured. vm_compute. reflexivity.
  - destruct (validate_rejects_unknown_unconfigured_incomplete sample_mac
                sample_dumps sample_repr freekassa_validator 0 "freekassa"
                [("MERCHANT_ID", VStr "12345"); ("AMOUNT", VStr "100.00")]
                "8243dc209243f492be8ac86d8a9905c3")
      as (_ & _ & _ & Hincomplete).
    apply Hincomplete; [vm_compute; reflexivity |].
    right. right. reflexivity.
Defined.

Definition undated_payload : dict :=
  [ ("invoice_id", VInt 528); ("status", VStr "paid") ].

(** C7, as stated, fails in two ways.  Validation does not require a
    timestamp: the sample payload without [timestamp] item is accepted with
    its correctly computed signature at every clock reading.  And the age of
    a payload is measured from [int(time.time())], the clock reading with
    its fraction cut off: the dated sample payload, signed correctly and
    300.9 seconds old, is accepted.  Both hold whatever the open library
    functions are. *)
Lemma undated_payload_accepted :
  dict_lookup undated_payload "timestamp" = None
  ∧ (∀ hmac_sha256 json_dumps repr now body,
       json_dumps undated_payload = Some body →
       validate hmac_sha256 json_dumps repr cryptopay_validator now "cryptopay"
         undated_payload (hmac_hexdigest hmac_sha256 "12345:AAtoken" body)
       = true)
  ∧ dict_lookup cryptopay_payload "timestamp" = Some (VInt 1700000000)
  ∧ 300 * tps < 1700000300900000 - 1700000000 * tps
  ∧ (∀ hmac_sha256 json_dumps repr body,
       json_dumps cryptopay_payload = Some body →
       validate hmac_sha256 json_dumps repr cryptopay_validator
         1700000300900000 "cryptopay" cryptopay_payload
         (hmac_hexdigest hmac_sha256 "12345:AAtoken" body)
       = true).
Proof.
  split; [reflexivity |]. split.
  - intros hmac_sha256 json_dumps repr now body Hbody.
    rewrite validate_cryptopay_eq by reflexivity.
    rewrite (validate_json_replay_spec _ _ _ _ _ _ _ "12345:AAtoken" body)
      by (try exact Hbody; reflexivity).
    by rewrite bool_decide_eq_true_2.
  - split; [reflexivity |]. split; [unfold tps; lia |].
    intros hmac_sha256 json_dumps repr body Hbody.
    rewrite validate_cryptopay_eq by reflexivity.
    rewrite (validate_json_replay_spec _ _ _ _ _ _ _ "12345:AAtoken" body)
      by (try exact Hbody; reflexivity).
    rewrite bool_decide_eq_true_2 by done. reflexivity.
Qed.

Lemma replay_window_enforced_witness :
  validate sample_mac sample_dumps sample_repr cryptopay_validator
    (1700000400 * tps) "cryptopay" cryptopay_payload
    "2aeac100b7cc2a24f359ef117a42b73d" = false
  ∧ validate sample_mac sample_dumps sample_repr cryptopay_validator
      (1700000300 * tps) "cryptopay" cryptopay_payload
      "2aeac100b7cc2a24f359ef117a42b73d" = true.
Proof.
  split.
  - destruct (replay_window_enforced sample_mac sample_dumps sample_repr
                {[ "cryptopay" := "12345:AAtoken" ]} (1700000400 * tps)
                "cryptopay" cryptopay_payload "12345:AAtoken"
                (default "" (sample_dumps cryptopay_payload))
                ltac:(left; reflexivity) ltac:(vm_compute; reflexivity)
                ltac:(vm_compute; reflexivity)) as (Hstale & _).
    destruct (Hstale 1700000000 "") as [Hrej _];
      [reflexivity | vm_compute; reflexivity |].
    exact Hrej.
  - destruct (replay_window_enforced sample_mac sample_dumps sample_repr
                {[ "cryptopay" := "12345:AAtoken" ]} (1700000300 * tps)
                "cryptopay" cryptopay_payload "12345:AAtoken"
                (default "" (sample_dumps cryptopay_payload))
                ltac:(left; reflexivity) ltac:(vm_compute; reflexivity)
                ltac:(vm_compute; reflexivity)) as (_ & _ & Hfresh & _).
    apply (Hfresh 1700000000); [reflexivity | vm_compute; discriminate].
Defined.

(** ** Properties of the IP whitelist *)

Example IPv4Address_examples :
  IPv4Address "185.71.76.5" = Some (ipv4 185 71 76 5)
  ∧ IPv4Address "8.8.8.8" = Some (ipv4 8 8 8 8)
  ∧ IPv4Address "8.8.8" = None
  ∧ IPv4Address "8.8.8.256" = None
  ∧ IPv4Address "8.8.8.08" = None
  ∧ IPv4Address "8.8.8.8/32" = None.
Proof. repeat split; vm_compute; reflexivity. Qed.

Lemma land_high_bits (ip b h : N) :
  (h ≤ b)%N → (ip < 2 ^ b)%N →
  N.land ip (N.lxor (N.ones b) (N.shiftr (N.ones b) (b - h)))
  = N.shiftl (N.shiftr ip h) h.
Proof.
  intros Hh Hip. apply N.bits_inj. intros i.
  rewrite N.land_spec, N.lxor_spec, N.shiftr_spec by lia.
  destruct (N.lt_ge_cases i h) as [Hi | Hi].
  - rewrite N.shiftl_spec_low by lia.
    rewrite (N.ones_spec_low b i) by lia.
    rewrite (N.ones_spec_low b (i + (b - h))) by lia.
    cbn. apply andb_false_r.
  - rewrite N.shiftl_spec_high by lia.
    rewrite N.shiftr_spec by lia. replace (i - h + h)%N with i by lia.
    destruct (N.lt_ge_cases i b) as [Hb | Hb].
    + rewrite (N.ones_spec_low b i) by lia.
      rewrite (N.ones_spec_high b (i + (b - h))) by lia.
      cbn. apply andb_true_r.
    + rewrite (N.ones_spec_high b i) by lia.
      rewrite (N.ones_spec_high b (i + (b - h))) by lia.
      cbn. rewrite andb_false_r. symmetry.
      destruct (N.eq_dec ip 0) as [-> | Hnz]; [apply N.bits_0 |].
      apply N.bits_above_log2. apply N.log2_lt_pow2; [lia |].
      eapply N.lt_le_trans; [exact Hip |]. apply N.pow_le_mono_r; lia.
Qed.

Lemma block_range (ip base h : N) :
  (base mod 2 ^ h = 0)%N →
  N.shiftl (N.shiftr ip h) h = base ↔ (base ≤ ip ∧ ip < base + 2 ^ h)%N.
Proof.
  intros Hbase. rewrite N.shiftl_mul_pow2, N.shiftr_div_pow2.
  assert (2 ^ h ≠ 0)%N as Hpos by (apply N.pow_nonzero; lia).
  pose proof (N.div_mod ip (2 ^ h) Hpos) as Hdm.
  pose proof (N.mod_lt ip (2 ^ h) Hpos) as Hlt.
  pose proof (N.div_mod base (2 ^ h) Hpos) as Hbm. rewrite Hbase in Hbm.
  set (q := (ip / 2 ^ h)%N) in *. set (k := (base / 2 ^ h)%N) in *.
  set (r := (ip mod 2 ^ h)%N) in *. set (m := (2 ^ h)%N) in *.
  split.
  - intros Heq. nia.
  - intros [Hlo Hhi]. assert (q = k) as -> by nia. lia.
Qed.

(** X2.  [ip in network], for a network whose host bits are zero (as
    [ip_network(..., strict=False)] makes them): the address has the
    network's version and lies in the block of [2^(bits - prefixlen)]
    addresses that starts at the network address. *)
Lemma contains_range net ip :
  (prefixlen net ≤ max_prefixlen (net_version net))%N →
  (network_address net
     mod 2 ^ (max_prefixlen (net_version net) - prefixlen net) = 0)%N →
  (_ip ip < 2 ^ max_prefixlen (version ip))%N →
  contains net ip = true
  ↔ net_version net = version ip
    ∧ (network_address net ≤ _ip ip
       ∧ _ip ip < network_address net
                  + 2 ^ (max_prefixlen (net_version net) - prefixlen net))%N.
Proof.
  intros Hp Hhost Hip. unfold contains, netmask, ALL_ONES.
  case_decide as Hv; [| split; [done | tauto]].
  set (b := max_prefixlen (net_version net)) in *.
  replace (N.shiftr (N.ones b) (prefixlen net))
    with (N.shiftr (N.ones b) (b - (b - prefixlen net)))
    by (f_equal; lia).
  rewrite land_high_bits by (rewrite ?Hv; subst b; try rewrite Hv; lia).
  rewrite N.eqb_eq, block_range by done. tauto.
Qed.

Lemma contains_range_witness :
  contains (IPv4Network 185 71 76 0 27)
           {| version := V4; _ip := ipv4 185 71 76 5 |} = true
  ↔ V4 = V4
    ∧ (ipv4 185 71 76 0 ≤ ipv4 185 71 76 5
       ∧ ipv4 185 71 76 5 < ipv4 185 71 76 0 + 2 ^ (32 - 27))%N.
Proof.
  apply (contains_range (IPv4Network 185 71 76 0 27)
           {| version := V4; _ip := ipv4 185 71 76 5 |}).
  - vm_compute. discriminate.
  - reflexivity.
  - vm_compute. reflexivity.
Defined.

Section IPWhitelistFacts.

Variable IPv6Address : string → option N.

Implicit Types (whitelists : gmap string (gset IPNetwork)).

Lemma is_allowed_iff whitelists provider address :
  is_allowed IPv6Address whitelists provider address = true
  ↔ ∃ networks ip network,
      whitelists !! provider = Some networks
      ∧ ip_address IPv6Address address = Some ip
      ∧ network ∈ networks
      ∧ contains network ip = true.
Proof.
  unfold is_allowed. split.
  - destruct (whitelists !! provider) as [networks |]; [| done].
    destruct (ip_address IPv6Address address) as [ip |]; [| done].
    intros (network & Hin & Hc)%existsb_exists.
    exists networks, ip, network. repeat split; [| done].
    by apply elem_of_elements, list_elem_of_In.
  - intros (networks & ip & network & -> & -> & Hin & Hc).
    apply existsb_exists. exists network. split; [| done].
    by apply list_elem_of_In, elem_of_elements.
Qed.

(** The universal network of a version contains every address of that
    version. *)
Lemma universal_contains v n :
  contains {| net_version := v; network_address := 0; prefixlen := 0 |}
           {| version := v; _ip := n |} = true.
Proof.
  unfold contains, netmask. cbn [net_version version prefixlen network_address _ip].
  rewrite decide_True by done.
  rewrite N.shiftr_0_r, N.lxor_nilpotent, N.land_0_r. done.
Qed.

Lemma universal_networks_allow whitelists provider networks address :
  whitelists !! provider = Some networks →
  IPv4Network 0 0 0 0 0 ∈ networks → IPv6Network 0 0 ∈ networks →
  is_Some (ip_address IPv6Address address) →
  is_allowed IPv6Address whitelists provider address = true.
Proof.
  intros Hw H4 H6 [[v n] Hip]. apply is_allowed_iff.
  destruct v.
  - exists networks, {| version := V4; _ip := n |}, (IPv4Network 0 0 0 0 0).
    repeat split; try done. apply (universal_contains V4).
  - exists networks, {| version := V6; _ip := n |}, (IPv6Network 0 0).
    repeat split; try done. apply (universal_contains V6).
Qed.

(** C9.  [is_allowed] is [True] exactly when the provider has a whitelist,
    the address parses, and one of the provider's networks contains it.  A
    provider whose whitelist has [185.71.76.0/27] allows [185.71.76.5]; one
    whose whitelist is just that network does not allow [8.8.8.8], and
    neither does the default yookassa whitelist.  A whitelist holding the
    two universal networks, which is what [disable_whitelist] installs,
    allows every address that parses. *)
Theorem is_allowed_membership whitelists provider :
  (∀ address,
     is_allowed IPv6Address whitelists provider address = true
     ↔ ∃ networks ip network,
         whitelists !! provider = Some networks
         ∧ ip_address IPv6Address address = Some ip
         ∧ network ∈ networks
         ∧ contains network ip = true)
  ∧ (∀ networks,
       whitelists !! provider = Some networks →
       IPv4Network 185 71 76 0 27 ∈ networks →
       is_allowed IPv6Address whitelists provider "185.71.76.5" = true)
  ∧ (whitelists !! provider = Some {[ IPv4Network 185 71 76 0 27 ]} →
     is_allowed IPv6Address whitelists provider "8.8.8.8" = false)
  ∧ is_allowed IPv6Address IPWhitelist_init "yookassa" "185.71.76.5" = true
  ∧ is_allowed IPv6Address IPWhitelist_init "yookassa" "8.8.8.8" = false
  ∧ (∀ networks address,
       whitelists !! provider = Some networks →
       IPv4Network 0 0 0 0 0 ∈ networks → IPv6Network 0 0 ∈ networks →
       is_Some (ip_address IPv6Address address) →
       is_allowed IPv6Address whitelists provider address = true)
  ∧ (∀ address,
       is_Some (ip_address IPv6Address address) →
       is_allowed IPv6Address (disable_whitelist whitelists provider).2
         provider address = true).
Proof.
  split; [intros; apply is_allowed_iff |].
  split; [| split; [| split; [| split; [| split]]]].
  - intros networks Hw Hin. apply is_allowed_iff.
    exists networks, {| version := V4; _ip := ipv4 185 71 76 5 |},
      (IPv4Network 185 71 76 0 27).
    repeat split; done.
  - intros Hw. unfold is_allowed. rewrite Hw.
    replace (ip_address IPv6Address "8.8.8.8")
      with (Some {| version := V4; _ip := ipv4 8 8 8 8 |}) by done.
    by rewrite elements_singleton.
  - apply is_allowed_iff.
    exists (list_to_set [ IPv4Network 185 71 76 0 27; IPv4Network 185 71 77 0 27;
                          IPv4Network 77 75 153 0 25; IPv4Network 77 75 156 11 32;
                          IPv4Network 77 75 156 35 32; IPv4Network 77 75 154 128 25 ]),
      {| version := V4; _ip := ipv4 185 71 76 5 |}, (IPv4Network 185 71 76 0 27).
    split; [done |]. split; [done |]. split; [set_solver | done].
  - apply not_true_is_false. intros Hallowed.
    apply is_allowed_iff in Hallowed as (networks & ip & network & Hw & Hip & Hin & Hc).
    replace (ip_address IPv6Address "8.8.8.8")
      with (Some {| version := V4; _ip := ipv4 8 8 8 8 |}) in Hip by done.
    injection Hip as <-.
    replace (IPWhitelist_init !! "yookassa")
      with (Some (list_to_set (C := gset IPNetwork)
                    [ IPv4Network 185 71 76 0 27; IPv4Network 185 71 77 0 27;
                      IPv4Network 77 75 153 0 25; IPv4Network 77 75 156 11 32;
                      IPv4Network 77 75 156 35 32; IPv4Network 77 75 154 128 25 ]))
      in Hw by done.
    injection Hw as <-.
    set_unfold in Hin.
    repeat (destruct Hin as [Hin | Hin]); try done; subst network;
      by vm_compute in Hc.
  - intros networks address. apply universal_networks_allow.
  - intros address Hip. unfold disable_whitelist. cbn [snd].
    apply (universal_networks_allow _ _
             {[ IPv4Network 0 0 0 0 0; IPv6Network 0 0 ]});
      [apply lookup_insert_eq | set_solver | set_solver | done].
Qed.

End IPWhitelistFacts.

(** A stand-in for the open IPv6 parser that knows two addresses. *)
Definition sample_IPv6Address (address : string) : option N :=
  if decide (address = "::1") then Some 1%N
  else if decide (address = "::") then Some 0%N
  else None.

Lemma is_allowed_membership_witness :
  is_allowed sample_IPv6Address IPWhitelist_init "yookassa" "185.71.76.5" = true
  ∧ is_allowed sample_IPv6Address IPWhitelist_init "yookassa" "8.8.8.8" = false
  ∧ is_allowed sample_IPv6Address IPWhitelist_init "panel" "::1" = true
  ∧ is_allowed sample_IPv6Address IPWhitelist_init "stars" "::1" = false
  ∧ is_allowed sample_IPv6Address
      (disable_whitelist IPWhitelist_init "stars").2 "stars" "::1" = true
  ∧ is_allowed sample_IPv6Address
      (disable_whitelist IPWhitelist_init "stars").2 "stars" "8.8.8.8" = true
  ∧ is_allowed sample_IPv6Address
      (disable_whitelist IPWhitelist_init "stars").2 "stars" "8.8.8" = false.
Proof.
  destruct (is_allowed_membership sample_IPv6Address IPWhitelist_init "stars")
    as (_ & _ & _ & Hin & Hout & _ & Hopen).
  split; [exact Hin |]. split; [exact Hout |].
  split; [vm_compute; reflexivity |]. split; [vm_compute; reflexivity |].
  split; [apply Hopen; vm_compute; eauto |].
  split; [apply Hopen; vm_compute; eauto |]. vm_compute. reflexivity.
Defined.

(** ** Further properties of the rate limiter *)

Section RateLimiterMore.

Implicit Types (d : gmap string entry) (s : gset Z) (r : redis).

Ltac step_store :=
  repeat first
    [ rewrite peek_insert | rewrite peek_delete
    | rewrite insert_insert_eq | rewrite insert_delete_eq
    | progress cbv beta iota zeta
    | progress cbn [live deadline value existsb is_err orb] ].

Lemma filter_drops_all s lo hi :
  (∀ x, x ∈ s → lo ≤ x ≤ hi) → filter (λ x, in_range lo hi x = false) s = ∅.
Proof.
  intros Hs. apply set_eq. intros x. rewrite elem_of_filter.
  split; [| set_solver]. intros [Hr Hx]. specialize (Hs x Hx).
  unfold in_range in Hr. apply andb_false_iff in Hr as [Hr | Hr];
    [apply Z.leb_gt in Hr | apply Z.leb_gt in Hr]; lia.
Qed.

(** The pipeline of [check_rate_limit] on a key that is absent, expired, or
    holds only entries that the pruning step removes. *)
Lemma pipeline_check_stale r k t W :
  faults r = [] → -1 < W →
  match db r !! k with
  | None => True
  | Some e => ∃ s, value e = RZSet s ∧ ∀ x, x ∈ s → 0 ≤ x ≤ t - W * tps
  end →
  ∃ removed,
    pipeline t [ ZREMRANGEBYSCORE k 0 (t - W * tps); ZCARD k; ZADD k t;
                 EXPIRE k (W + 1) ] r
    = (Ok [ RInt removed; RInt 0; RInt 1; RInt 1 ],
       Redis (<[k := Entry (RZSet {[t]}) (Some (t + (W + 1) * tps))]> (db r)) []).
Proof.
  intros Hf HW Hst.
  assert ((W + 1 <=? 0) = false) as HW1 by (apply Z.leb_gt; lia).
  unfold pipeline, bind, round_trip. rewrite Hf. cbn [exec_all exec].
  unfold peek at 1.
  destruct (db r !! k) as [[v dl] |] eqn:Hk.
  - destruct Hst as (s & Hv & Hs). cbn in Hv. subst v.
    destruct (live t (Entry (RZSet s) dl)).
    + rewrite filter_drops_all by done. unfold put_zset.
      rewrite decide_True by done. step_store. rewrite HW1. step_store.
      rewrite Hf. eauto.
    + step_store. rewrite HW1. step_store. rewrite Hf. eauto.
  - step_store. rewrite HW1. step_store. rewrite Hf. eauto.
Qed.

Lemma check_rate_limit_stale self key limit W t r :
  faults r = [] → 0 < limit → -1 < W →
  match db r !! _get_key self key with
  | None => True
  | Some e => ∃ s, value e = RZSet s ∧ ∀ x, x ∈ s → 0 ≤ x ≤ t - W * tps
  end →
  check_rate_limit self key limit W t r
  = (Ok (true, 0, W),
     Redis (<[_get_key self key
              := Entry (RZSet {[t]}) (Some (t + (W + 1) * tps))]> (db r)) []).
Proof.
  intros Hf Hlim HW Hst.
  destruct (pipeline_check_stale r (_get_key self key) t W Hf HW Hst)
    as (removed & Hpipe).
  unfold check_rate_limit, check_rate_limit_try, try_except. unfold bind at 1.
  rewrite Hpipe. cbn [lookup list_lookup as_int].
  assert ((0 <? limit) = true) as -> by (apply Z.ltb_lt; lia).
  done.
Qed.

(** X3.  Once every recorded entry of a key is at least [window] seconds
    old (the key may also be absent or expired), [check_rate_limit] on a
    reachable store prunes them all, entries exactly [window] seconds old
    included, and returns [(True, 0, window)]; afterwards the key holds the
    entry of this call alone and expires [window + 1] seconds later. *)
Theorem check_rate_limit_after_window self key limit window now r :
  faults r = [] → 0 < limit → 0 ≤ window →
  match db r !! _get_key self key with
  | None => True
  | Some e => ∃ s, value e = RZSet s ∧ ∀ x, x ∈ s → 0 ≤ x ≤ now - window * tps
  end →
  check_rate_limit self key limit window now r
  = (Ok (true, 0, window),
     Redis (<[_get_key self key
              := Entry (RZSet {[now]}) (Some (now + (window + 1) * tps))]> (db r))
           []).
Proof.
  intros Hf Hlim HW Hst. apply check_rate_limit_stale; [done | done | lia | done].
Qed.

Lemma sorted_scores_strongly_sorted s : StronglySorted Z.le (sorted_scores s).
Proof. unfold sorted_scores. apply StronglySorted_merge_sort; apply _. Qed.

Lemma sorted_scores_elem_of s x : x ∈ sorted_scores s ↔ x ∈ s.
Proof.
  unfold sorted_scores. rewrite merge_sort_Permutation. apply elem_of_elements.
Qed.



(** The first score of a non-empty sorted set is its least element. *)
Lemma sorted_scores_min s :
  s ≠ ∅ →
  ∃ m rest, sorted_scores s = m :: rest ∧ m ∈ s ∧ ∀ x, x ∈ s → m ≤ x.
Proof.
  intros Hne. pose proof (sorted_scores_strongly_sorted s) as Hsorted.
  pose proof (sorted_scores_elem_of s) as Hin.
  destruct (sorted_scores s) as [| m rest] eqn:E.
  - exfalso. apply Hne. apply set_eq. intros x. rewrite <- Hin.
    split; intros Hx; [by apply elem_of_nil in Hx | by apply elem_of_empty in Hx].
  - exists m, rest. split; [done |]. split; [apply Hin; left |].
    intros x Hx. apply Hin in Hx. apply StronglySorted_inv in Hsorted as [_ Hall].
    rewrite Forall_forall in Hall.
    apply elem_of_cons in Hx as [-> | Hx]; [lia | by apply Hall].
Qed.

Lemma slice_first m rest : slice (m :: rest) 0 0 = [m].
Proof.
  unfold slice. cbn [length]. rewrite Nat2Z.inj_succ.
  cbn [Z.ltb Z.compare].
  replace (Z.min 0 (Z.succ (Z.of_nat (length rest)) - 1)) with 0 by lia.
  cbn [Z.ltb Z.compare orb].
  replace (Z.succ (Z.of_nat (length rest)) <=? 0) with false
    by (symmetry; apply Z.leb_gt; lia).
  done.
Qed.


(** A rejected call on a reachable store, in full. *)
Lemma check_rate_limit_rejected self key limit window now r s H :
  faults r = [] → holds (db r) (_get_key self key) s H →
  (∀ x, x ∈ s → now - window * tps < x ∧ x < now) →
  now < H → 0 ≤ window → limit ≤ Z.of_nat (size s) → s ≠ ∅ →
  ∃ oldest,
    oldest ∈ s ∧ (∀ x, x ∈ s → oldest ≤ x)
    ∧ check_rate_limit self key limit window now r
      = (Ok (false, Z.of_nat (size s),
             int_seconds (window * tps - (now - oldest))),
         Redis (<[_get_key self key
                  := Entry (RZSet s) (Some (now + (window + 1) * tps))]> (db r))
               []).
Proof.
  intros Hf Hh Hs Ht HW Hfull Hne.
  set (k := _get_key self key) in *.
  destruct (sorted_scores_min s Hne) as (m & rest & Hsorted & Hm & Hmin).
  exists m. split; [done |]. split; [done |].
  assert (now ∉ s) as Hnotin by (intros Hin; apply Hs in Hin; lia).
  assert ((now <=? now + (window + 1) * tps) = true) as Hlive
    by (apply Z.leb_le; unfold tps; lia).
  assert (({[now]} ∪ s) ∖ {[now]} = s) as Hrem.
  { apply set_eq. intros x.
    rewrite elem_of_difference, elem_of_union, elem_of_singleton.
    split; [intros [[-> | Hx] Hxt]; done |].
    intros Hx. split; [by right | by intros ->]. }
  unfold check_rate_limit, check_rate_limit_try, try_except. fold k.
  unfold bind at 1.
  rewrite (pipeline_check_effect r k s H now window)
    by (try done; try lia; intros x Hx; apply Hs, Hx).
  cbn [lookup list_lookup as_int].
  assert ((Z.of_nat (size s) <? limit) = false) as -> by (apply Z.ltb_ge; lia).
  cbn [negb].
  unfold bind at 1. rewrite call_healthy. cbn [exec].
  step_store. rewrite Hlive. step_store. rewrite Hrem.
  rewrite put_zset_nonempty by done. cbn [fst snd]. step_store.
  unfold bind at 1. rewrite call_healthy. cbn [exec].
  step_store. rewrite Hlive. step_store. cbn [fst snd]. step_store.
  rewrite Hsorted, slice_first. cbn [as_scores]. done.
Qed.

(** X4.  A rejected call on a reachable store (the key holds [limit] or
    more entries, all inside the window and before [now]): the count
    returned is the number of entries, the reset time is the whole seconds
    until the oldest entry leaves the window, at least [0] and less than
    [window], and the set of entries is left as it was found. *)
Theorem check_rate_limit_rejected_reset_time self key limit window now r s H :
  faults r = [] → holds (db r) (_get_key self key) s H →
  (∀ x, x ∈ s → now - window * tps < x ∧ x < now) →
  now < H → 0 < limit → 0 ≤ window → limit ≤ Z.of_nat (size s) →
  ∃ oldest,
    oldest ∈ s ∧ (∀ x, x ∈ s → oldest ≤ x)
    ∧ check_rate_limit self key limit window now r
      = (Ok (false, Z.of_nat (size s),
             int_seconds (window * tps - (now - oldest))),
         Redis (<[_get_key self key
                  := Entry (RZSet s) (Some (now + (window + 1) * tps))]> (db r))
               [])
    ∧ 0 ≤ int_seconds (window * tps - (now - oldest)) < window.
Proof.
  intros Hf Hh Hs Ht Hlim HW Hfull.
  assert (s ≠ ∅) as Hne by (apply size_pos_nonempty; lia).
  destruct (check_rate_limit_rejected self key limit window now r s H)
    as (m & Hm & Hmin & Hchk); try done.
  exists m. split; [done |]. split; [done |]. split; [done |].
  destruct (Hs m Hm) as [Hlo Hhi]. unfold int_seconds, tps in *.
  split; [apply Z.quot_pos; lia | apply Z.quot_lt_upper_bound; lia].
Qed.

(** X5.  [increment] records the call without pruning and without a limit:
    on a reachable store the key's set gains the entry of this call,
    whatever the age and number of the entries it holds, the count returned
    is the size of the whole set, and the key expires [window + 1] seconds
    later.  When the store cannot be reached the result is [0]. *)
Theorem increment_counts_without_pruning self key window now r s H :
  holds (db r) (_get_key self key) s H → now < H → 0 ≤ window → now ∉ s →
  (faults r = [] →
   increment self key window now r
   = (Ok (Z.of_nat (size s) + 1),
      Redis (<[_get_key self key
               := Entry (RZSet ({[now]} ∪ s)) (Some (now + (window + 1) * tps))]>
               (db r)) []))
  ∧ (∀ fs, faults r = true :: fs →
       increment self key window now r = (Ok 0, Redis (db r) fs)).
Proof.
  intros Hh Hnow HW Hnotin. set (k := _get_key self key) in *.
  assert ((window + 1 <=? 0) = false) as HW1 by (apply Z.leb_gt; lia).
  assert ((now <=? now + (window + 1) * tps) = true) as Hlive
    by (apply Z.leb_le; unfold tps; lia).
  split.
  - intros Hf. unfold increment, try_except. fold k. unfold bind at 1.
    unfold pipeline, bind, round_trip. rewrite Hf. cbn [exec_all exec].
    rewrite (peek_holds _ _ _ _ _ Hh Hnow).
    destruct (decide (s = ∅)) as [-> | Hne].
    + step_store. rewrite HW1. step_store. rewrite Hlive. step_store.
      rewrite Hf. cbn [lookup list_lookup as_int]. unfold ret.
      by rewrite union_empty_r_L, size_singleton, size_empty.
    + unfold holds in Hh. rewrite decide_False in Hh by done.
      destruct Hh as (dl & Hdl & Hle). rewrite Hdl. cbn [mbind option_bind deadline].
      assert ((now <=? dl) = true) as Hlive' by (apply Z.leb_le; lia).
      step_store. rewrite Hlive'. step_store. rewrite HW1. step_store.
      rewrite Hlive. step_store. rewrite Hf. cbn [lookup list_lookup as_int].
      unfold ret. rewrite size_union, size_singleton by (clear -Hnotin; set_solver).
      repeat f_equal. lia.
  - intros fs Hf. unfold increment, try_except. unfold bind at 1.
    unfold pipeline, bind, round_trip. by rewrite Hf.
Qed.

Lemma call_unreachable now c r fs :
  faults r = true :: fs → call now c r = (Raise, Redis (db r) fs).
Proof. intros Hf. unfold call, bind, round_trip. by rewrite Hf. Qed.

(** X6.  [reset] on a reachable store deletes the key, whatever it held,
    and returns [True]; after it the key has its full budget again:
    [get_remaining] returns [limit] and [check_rate_limit] returns
    [(True, 0, window)], at any clock reading.  When the store cannot be
    reached [reset] returns [False] and the key stays as it was. *)
Theorem reset_restores_budget self key limit window now r :
  0 < limit → 0 ≤ window →
  (faults r = [] →
   let r1 := Redis (delete (_get_key self key) (db r)) [] in
   reset self key now r = (Ok true, r1)
   ∧ ∀ t, get_remaining self key limit window t r1 = (Ok limit, r1)
          ∧ (check_rate_limit self key limit window t r1).1
            = Ok (true, 0, window))
  ∧ (∀ fs, faults r = true :: fs →
       reset self key now r = (Ok false, Redis (db r) fs)).
Proof.
  intros Hlim HW. set (k := _get_key self key). split.
  - intros Hf. cbn zeta. split; [| intros t; split].
    + destruct r as [d fs]. cbn in Hf. subst fs.
      unfold reset, try_except, bind. fold k. rewrite call_healthy.
      cbn [exec db]. by destruct (peek now k d).
    + unfold get_remaining, try_except. fold k.
      unfold bind at 1. rewrite call_healthy. cbn [exec].
      step_store. cbn [fst snd]. step_store.
      unfold bind at 1. rewrite call_healthy. cbn [exec].
      step_store. cbn [fst snd as_int is_err]. unfold ret.
      rewrite Z.sub_0_r, Z.max_r by lia. by rewrite delete_delete_eq.
    + rewrite check_rate_limit_stale; [done | done | done | lia |].
      cbn [db]. fold k. by rewrite lookup_delete_eq.
  - intros fs Hf. unfold reset, try_except, bind.
    by rewrite (call_unreachable _ _ _ fs).
Qed.

Lemma call_zcard_ok now k r y r' :
  call now (ZCARD k) r = (Ok y, r') → ∃ n : nat, y = RInt (Z.of_nat n).
Proof.
  unfold call, bind, round_trip.
  destruct (faults r) as [| [] fs]; [| done |]; cbn [exec];
    destruct (peek now k _) as [[[] ?] |]; cbn; intros [= <- _];
    first [ by eexists | by exists 0%nat ].
Qed.

(** X7.  [get_remaining] never raises, and for a non-negative [limit] its
    result lies between [0] and [limit], in every state of the store and
    for every outcome of its round trips; when the store cannot be reached
    the result is [limit]. *)
Theorem get_remaining_bounds self key limit window now r :
  0 ≤ limit →
  (∃ n r', get_remaining self key limit window now r = (Ok n, r')
           ∧ 0 ≤ n ≤ limit)
  ∧ (∀ fs, faults r = true :: fs →
       get_remaining self key limit window now r = (Ok limit, Redis (db r) fs)).
Proof.
  intros Hlim. split.
  - unfold get_remaining, try_except. unfold bind at 1.
    destruct (call now (ZREMRANGEBYSCORE _ _ _) r) as [[x |] r1];
      [| unfold ret; eexists _, _; split; [reflexivity | lia]].
    unfold bind.
    destruct (call now (ZCARD _) r1) as [[y |] r2] eqn:E;
      [| unfold ret; eexists _, _; split; [reflexivity | lia]].
    apply call_zcard_ok in E as [n ->]. unfold ret. cbn [as_int].
    eexists _, _. split; [reflexivity | lia].
  - intros fs Hf. unfold get_remaining, try_except. unfold bind at 1.
    by rewrite (call_unreachable _ _ _ fs).
Qed.

(** X8.  [is_blocked] is not a read-only query: it runs [check_rate_limit].
    A probe of a key that is under its limit answers [False] and leaves an
    entry behind as a request would; a probe that fills the window makes the
    next [check_rate_limit] in that window a rejection. *)
Theorem is_blocked_records_probe self key limit window now r s H :
  faults r = [] → holds (db r) (_get_key self key) s H →
  (∀ x, x ∈ s → H - window * tps ≤ x ∧ x < now) →
  H - window * tps ≤ now → now < H → 0 ≤ window →
  Z.of_nat (size s) < limit →
  ∃ r',
    is_blocked self key limit window now r = (Ok false, r')
    ∧ holds (db r') (_get_key self key) ({[now]} ∪ s) H
    ∧ (Z.of_nat (size s) + 1 = limit →
       ∀ t, now < t → t < H →
         ∃ reset_time r2,
           check_rate_limit self key limit window t r'
           = (Ok (false, limit, reset_time), r2)).
Proof.
  intros Hf Hh Hs Hlo Hnow HW Hunder.
  destruct (check_rate_limit_step self key limit window now r s H)
    as (reset_time & r' & Hchk & Hf' & Hh' & _); try done; try lia.
  { intros x Hx. specialize (Hs x Hx). lia. }
  { unfold tps in *. lia. }
  assert ((Z.of_nat (size s) <? limit) = true) as Hall by (apply Z.ltb_lt; lia).
  rewrite Hall in Hchk, Hh'.
  exists r'. unfold is_blocked, bind, ret. rewrite Hchk. cbn [fst negb].
  split; [done |]. split; [done |].
  intros Hfull t Ht1 Ht2.
  assert (now ∉ s) as Hnotin by (intros Hin; apply Hs in Hin; lia).
  assert (size ({[now]} ∪ s) = S (size s)) as Hsz
    by (rewrite size_union, size_singleton by (clear -Hnotin; set_solver); lia).
  destruct (check_rate_limit_step self key limit window t r' ({[now]} ∪ s) H)
    as (rt & r2 & Hchk2 & _); try done; try lia.
  { intros x [->%elem_of_singleton | Hx]%elem_of_union; [lia |].
    specialize (Hs x Hx). lia. }
  { unfold tps in *. lia. }
  rewrite Hsz in Hchk2.
  assert ((Z.of_nat (S (size s)) <? limit) = false) as Hrej
    by (apply Z.ltb_ge; lia).
  rewrite Hrej in Hchk2. exists rt, r2. rewrite Hchk2.
  repeat f_equal. lia.
Qed.








Lemma frames_increment self key window now :
  frames [_get_key self key] (increment self key window now).
Proof.
  unfold increment. apply frames_try_except; [| apply frames_ret].
  apply frames_bind; [apply frames_pipeline; repeat constructor |].
  intros results. apply frames_ret.
Qed.

Lemma frames_reset self key now : frames [_get_key self key] (reset self key now).
Proof.
  unfold reset. apply frames_try_except; [| apply frames_ret].
  apply frames_bind; [apply frames_call; cbn; set_solver |].
  intros _. apply frames_ret.
Qed.

Lemma frames_get_remaining self key limit window now :
  frames [_get_key self key] (get_remaining self key limit window now).
Proof.
  unfold get_remaining. apply frames_try_except; [| apply frames_ret].
  apply frames_bind; [apply frames_call; cbn; set_solver |].
  intros _. apply frames_bind; [apply frames_call; cbn; set_solver |].
  intros count. apply frames_ret.
Qed.

Lemma frames_is_blocked self key limit window now :
  frames [_get_key self key] (is_blocked self key limit window now).
Proof.
  unfold is_blocked. apply frames_bind; [apply frames_check_rate_limit |].
  intros x. apply frames_ret.
Qed.

Lemma get_key_inj self key key' : _get_key self key = _get_key self key' → key = key'.
Proof.
  unfold _get_key. intros H. apply (inj (String.app _)) in H.
  by apply (inj (String.app _)) in H.
Qed.

(** X10.  The limiter's operations on one key leave the entry of every
    other key of the limiter as it is, in every state of the store and for
    every outcome of the round trips: the budgets of different keys are
    independent. *)
Theorem rate_limiter_key_isolation self key key' limit window now r :
  key' ≠ key →
  let other (r' : redis) := db r' !! _get_key self key' in
  other (check_rate_limit self key limit window now r).2 = other r
  ∧ other (increment self key window now r).2 = other r
  ∧ other (reset self key now r).2 = other r
  ∧ other (get_remaining self key limit window now r).2 = other r
  ∧ other (is_blocked self key limit window now r).2 = other r.
Proof.
  intros Hne other. subst other. cbn beta.
  assert (_get_key self key' ∉ [_get_key self key]) as Hk.
  { intros Hin. apply list_elem_of_singleton in Hin. by apply get_key_inj in Hin. }
  split; [by apply frames_check_rate_limit |].
  split; [by apply frames_increment |].
  split; [by apply frames_reset |].
  split; [by apply frames_get_remaining | by apply frames_is_blocked].
Qed.

Lemma pipeline_no_fault now cs d fs :
  pipeline now cs (Redis d (false :: fs))
  = ((pipeline now cs (Redis d [])).1,
     Redis (db (pipeline now cs (Redis d [])).2) fs).
Proof.
  unfold pipeline, bind, round_trip. cbn [faults db].
  by destruct (exec_all now cs d).
Qed.

(** X11.  A store error in the middle of a rejected call.  The pipeline has
    run (the entry of the call is in the set) and the call is over the
    limit.  When the following [ZREM] round trip fails, the call returns
    [(True, 0, window)] and its entry stays in the set, which then holds
    more than [limit] entries; when the [ZRANGE] round trip after it fails,
    the entry has been removed and the call still returns
    [(True, 0, window)]. *)
Theorem check_rate_limit_fault_after_pipeline self key limit window now r s H fs :
  holds (db r) (_get_key self key) s H →
  (∀ x, x ∈ s → now - window * tps < x ∧ x < now) →
  now < H → 0 ≤ window → limit ≤ Z.of_nat (size s) → s ≠ ∅ →
  (faults r = false :: true :: fs →
   check_rate_limit self key limit window now r
   = (Ok (true, 0, window),
      Redis (<[_get_key self key
               := Entry (RZSet ({[now]} ∪ s)) (Some (now + (window + 1) * tps))]>
               (db r)) fs))
  ∧ (faults r = false :: false :: true :: fs →
     check_rate_limit self key limit window now r
     = (Ok (true, 0, window),
        Redis (<[_get_key self key
                 := Entry (RZSet s) (Some (now + (window + 1) * tps))]>
                 (db r)) fs)).
Proof.
  intros Hh Hs Ht HW Hfull Hne. set (k := _get_key self key) in *.
  assert ((now <=? now + (window + 1) * tps) = true) as Hlive
    by (apply Z.leb_le; unfold tps; lia).
  assert ((Z.of_nat (size s) <? limit) = false) as Hrej by (apply Z.ltb_ge; lia).
  assert (now ∉ s) as Hnotin by (intros Hin; apply Hs in Hin; lia).
  pose proof (pipeline_check_effect (Redis (db r) []) k s H now window
                eq_refl Hh Ht (λ x Hx, proj1 (Hs x Hx)) ltac:(lia)) as Hpipe.
  cbn [db] in Hpipe.
  destruct r as [d fs0]. cbn [db faults] in *.
  split; intros ->.
  - unfold check_rate_limit, check_rate_limit_try, try_except. fold k.
    unfold bind at 1. rewrite pipeline_no_fault, Hpipe. cbn [fst snd db].
    cbn [lookup list_lookup as_int]. rewrite Hrej. cbn [negb].
    unfold bind at 1. by rewrite (call_unreachable _ _ _ fs).
  - unfold check_rate_limit, check_rate_limit_try, try_except. fold k.
    unfold bind at 1. rewrite pipeline_no_fault, Hpipe. cbn [fst snd db].
    cbn [lookup list_lookup as_int]. rewrite Hrej. cbn [negb].
    unfold bind at 1. rewrite call_no_fault by done. cbn [exec db faults tail].
    step_store. rewrite Hlive. step_store.
    replace (({[now]} ∪ s) ∖ {[now]}) with s
      by (clear -Hnotin; set_solver).
    rewrite put_zset_nonempty by done. cbn [fst snd]. step_store.
    unfold bind at 1. by rewrite (call_unreachable _ _ _ fs).
Qed.

End RateLimiterMore.

(** *** The rate limiter on sample stores *)

Definition sample_limiter : RedisRateLimiter := {| prefix := "rate_limit" |}.

(** A store in which key [user:7] of the sample limiter holds the entries
    [entries] and expires at [dl]. *)
Definition sample_store (entries : gset Z) (dl : Z) (fs : list bool) : redis :=
  Redis (<["rate_limit:user:7" := Entry (RZSet entries) (Some dl)]> ∅) fs.

Lemma sample_store_holds entries dl fs H :
  entries ≠ ∅ → H ≤ dl →
  holds (db (sample_store entries dl fs)) (_get_key sample_limiter "user:7")
        entries H.
Proof. intros Hne Hle. by apply holds_insert. Qed.

Lemma check_rate_limit_after_window_witness :
  (check_rate_limit sample_limiter "user:7" 1 60 1700000060000000
     (sample_store {[ 1700000000000000 ]} 1700000061000000 [])).1
  = Ok (true, 0, 60).
Proof.
  rewrite (check_rate_limit_after_window sample_limiter "user:7" 1 60
             1700000060000000
             (sample_store {[ 1700000000000000 ]} 1700000061000000 []));
    [reflexivity | reflexivity | lia | lia |].
  change (_get_key sample_limiter "user:7") with "rate_limit:user:7".
  unfold sample_store. cbn [db]. rewrite lookup_insert_eq.
  exists {[ 1700000000000000 ]}. split; [reflexivity |].
  intros x Hx%elem_of_singleton. subst x. unfold tps. lia.
Defined.

Lemma check_rate_limit_rejected_reset_time_witness :
  ∃ oldest,
    oldest ∈ ({[ 1700000000000000; 1700000005000000 ]} : gset Z)
    ∧ (check_rate_limit sample_limiter "user:7" 2 60 1700000010000000
         (sample_store {[ 1700000000000000; 1700000005000000 ]}
            1700000066000000 [])).1
      = Ok (false, 2, int_seconds (60 * tps - (1700000010000000 - oldest)))
    ∧ 0 ≤ int_seconds (60 * tps - (1700000010000000 - oldest)) < 60.
Proof.
  destruct (check_rate_limit_rejected_reset_time sample_limiter "user:7" 2 60
              1700000010000000
              (sample_store {[ 1700000000000000; 1700000005000000 ]}
                 1700000066000000 [])
              {[ 1700000000000000; 1700000005000000 ]} 1700000066000000)
    as (oldest & Hin & _ & Hchk & Hbound).
  - reflexivity.
  - apply sample_store_holds; [| lia].
    intros Heq. assert (1700000000000000 ∈ (∅ : gset Z)) as Hin
      by (rewrite <- Heq; apply elem_of_union_l, elem_of_singleton; reflexivity).
    by apply elem_of_empty in Hin.
  - intros x [Hx%elem_of_singleton | Hx%elem_of_singleton]%elem_of_union;
      subst x; unfold tps; lia.
  - lia.
  - lia.
  - lia.
  - vm_compute. discriminate.
  - exists oldest. split; [exact Hin |]. split; [| exact Hbound].
    rewrite Hchk. reflexivity.
Defined.


Lemma sample_entries_nonempty :
  ({[ 1700000000000000; 1700000005000000 ]} : gset Z) ≠ ∅.
Proof.
  intros Heq. assert (1700000000000000 ∈ (∅ : gset Z)) as Hin
    by (rewrite <- Heq; apply elem_of_union_l, elem_of_singleton; reflexivity).
  by apply elem_of_empty in Hin.
Qed.

Lemma sample_entries_before (lo t : Z) :
  lo < 1700000000000000 → 1700000005000000 < t →
  ∀ x, x ∈ ({[ 1700000000000000; 1700000005000000 ]} : gset Z) → lo < x ∧ x < t.
Proof.
  intros Hlo Ht x [Hx%elem_of_singleton | Hx%elem_of_singleton]%elem_of_union;
    subst x; lia.
Qed.

(** The entry of 1700000000 is ten minutes old and still counted. *)
Lemma increment_counts_without_pruning_witness :
  (increment sample_limiter "user:7" 60 1700000600000000
     (sample_store {[ 1700000000000000; 1700000005000000 ]}
        1700000700000000 [])).1 = Ok 3
  ∧ (increment sample_limiter "user:7" 60 1700000600000000
       (sample_store {[ 1700000000000000; 1700000005000000 ]}
          1700000700000000 [true])).1 = Ok 0.
Proof.
  split.
  - destruct (increment_counts_without_pruning sample_limiter "user:7" 60
                1700000600000000
                (sample_store {[ 1700000000000000; 1700000005000000 ]}
                   1700000700000000 [])
                {[ 1700000000000000; 1700000005000000 ]} 1700000700000000)
      as [Hok _].
    + apply sample_store_holds; [apply sample_entries_nonempty | lia].
    + lia.
    + lia.
    + intros Hin. apply (sample_entries_before 0 1700000600000000) in Hin; lia.
    + rewrite Hok by reflexivity. vm_compute. reflexivity.
  - destruct (increment_counts_without_pruning sample_limiter "user:7" 60
                1700000600000000
                (sample_store {[ 1700000000000000; 1700000005000000 ]}
                   1700000700000000 [true])
                {[ 1700000000000000; 1700000005000000 ]} 1700000700000000)
      as [_ Hdown].
    + apply sample_store_holds; [apply sample_entries_nonempty | lia].
    + lia.
    + lia.
    + intros Hin. apply (sample_entries_before 0 1700000600000000) in Hin; lia.
    + rewrite (Hdown []) by reflexivity. reflexivity.
Defined.

Lemma reset_restores_budget_witness :
  (reset sample_limiter "user:7" 1700000010000000
     (sample_store {[ 1700000000000000; 1700000005000000 ]}
        1700000066000000 [])).1 = Ok true
  ∧ (check_rate_limit sample_limiter "user:7" 2 60 1700000011000000
       (reset sample_limiter "user:7" 1700000010000000
          (sample_store {[ 1700000000000000; 1700000005000000 ]}
             1700000066000000 [])).2).1 = Ok (true, 0, 60)
  ∧ (reset sample_limiter "user:7" 1700000010000000
       (sample_store {[ 1700000000000000; 1700000005000000 ]}
          1700000066000000 [true])).1 = Ok false.
Proof.
  destruct (reset_restores_budget sample_limiter "user:7" 2 60 1700000010000000
              (sample_store {[ 1700000000000000; 1700000005000000 ]}
                 1700000066000000 []) ltac:(lia) ltac:(lia)) as [Hok _].
  destruct (reset_restores_budget sample_limiter "user:7" 2 60 1700000010000000
              (sample_store {[ 1700000000000000; 1700000005000000 ]}
                 1700000066000000 [true]) ltac:(lia) ltac:(lia)) as [_ Hdown].
  destruct (Hok eq_refl) as [Hreset Hafter].
  destruct (Hafter 1700000011000000) as [_ Hchk].
  split; [by rewrite Hreset |]. split.
  - rewrite Hreset. exact Hchk.
  - by rewrite (Hdown []).
Defined.

Lemma get_remaining_bounds_witness :
  (∃ n r', get_remaining sample_limiter "user:7" 5 60 1700000010000000
             (sample_store {[ 1700000000000000; 1700000005000000 ]}
                1700000066000000 [false; true]) = (Ok n, r')
           ∧ 0 ≤ n ≤ 5)
  ∧ (get_remaining sample_limiter "user:7" 5 60 1700000010000000
       (sample_store {[ 1700000000000000; 1700000005000000 ]}
          1700000066000000 [true])).1 = Ok 5.
Proof.
  destruct (get_remaining_bounds sample_limiter "user:7" 5 60 1700000010000000
              (sample_store {[ 1700000000000000; 1700000005000000 ]}
                 1700000066000000 [false; true]) ltac:(lia)) as [Hb _].
  destruct (get_remaining_bounds sample_limiter "user:7" 5 60 1700000010000000
              (sample_store {[ 1700000000000000; 1700000005000000 ]}
                 1700000066000000 [true]) ltac:(lia)) as [_ Hdown].
  split; [exact Hb |]. by rewrite (Hdown []).
Defined.

Lemma is_blocked_records_probe_witness :
  ∃ r',
    is_blocked sample_limiter "user:7" 3 60 1700000010000000
      (sample_store {[ 1700000000000000; 1700000005000000 ]}
         1700000060000000 []) = (Ok false, r')
    ∧ ∃ reset_time r2,
        check_rate_limit sample_limiter "user:7" 3 60 1700000011000000 r'
        = (Ok (false, 3, reset_time), r2).
Proof.
  destruct (is_blocked_records_probe sample_limiter "user:7" 3 60
              1700000010000000
              (sample_store {[ 1700000000000000; 1700000005000000 ]}
                 1700000060000000 [])
              {[ 1700000000000000; 1700000005000000 ]} 1700000060000000)
    as (r' & Hprobe & _ & Hnext).
  - reflexivity.
  - apply sample_store_holds; [apply sample_entries_nonempty | lia].
  - intros x Hx.
    apply (sample_entries_before 1699999999999999 1700000010000000) in Hx;
      unfold tps; lia.
  - unfold tps. lia.
  - lia.
  - lia.
  - vm_compute. reflexivity.
  - exists r'. split; [exact Hprobe |].
    apply Hnext; [vm_compute; reflexivity | lia | lia].
Defined.

Lemma rate_limiter_key_isolation_witness :
  db (check_rate_limit sample_limiter "user:8" 2 60 1700000010000000
        (sample_store {[ 1700000000000000; 1700000005000000 ]}
           1700000066000000 [])).2 !! "rate_limit:user:7"
  = Some (Entry (RZSet {[ 1700000000000000; 1700000005000000 ]})
                (Some 1700000066000000))
  ∧ db (reset sample_limiter "user:8" 1700000010000000
          (sample_store {[ 1700000000000000; 1700000005000000 ]}
             1700000066000000 [])).2 !! "rate_limit:user:7"
    = Some (Entry (RZSet {[ 1700000000000000; 1700000005000000 ]})
                  (Some 1700000066000000)).
Proof.
  destruct (rate_limiter_key_isolation sample_limiter "user:8" "user:7" 2 60
              1700000010000000
              (sample_store {[ 1700000000000000; 1700000005000000 ]}
                 1700000066000000 []) ltac:(discriminate))
    as (Hchk & _ & Hreset & _).
  change (_get_key sample_limiter "user:7") with "rate_limit:user:7" in *.
  rewrite Hchk, Hreset. unfold sample_store. cbn [db].
  rewrite lookup_insert_eq. done.
Defined.

Lemma check_rate_limit_fault_after_pipeline_witness :
  check_rate_limit sample_limiter "user:7" 2 60 1700000010000000
    (sample_store {[ 1700000000000000; 1700000005000000 ]}
       1700000066000000 [false; true])
  = (Ok (true, 0, 60),
     Redis (<["rate_limit:user:7"
              := Entry (RZSet ({[ 1700000010000000 ]}
                               ∪ {[ 1700000000000000; 1700000005000000 ]}))
                       (Some (1700000010000000 + (60 + 1) * tps))]>
              (db (sample_store {[ 1700000000000000; 1700000005000000 ]}
                     1700000066000000 [false; true]))) []).
Proof.
  destruct (check_rate_limit_fault_after_pipeline sample_limiter "user:7" 2 60
              1700000010000000
              (sample_store {[ 1700000000000000; 1700000005000000 ]}
                 1700000066000000 [false; true])
              {[ 1700000000000000; 1700000005000000 ]} 1700000066000000 [])
    as [Hzrem _].
  - apply sample_store_holds; [apply sample_entries_nonempty | lia].
  - intros x Hx.
    apply (sample_entries_before 1699999999999999 1700000010000000) in Hx;
      unfold tps; lia.
  - lia.
  - lia.
  - vm_compute. discriminate.
  - apply sample_entries_nonempty.
  - apply Hzrem. reflexivity.
Defined.


(** ** Further properties of the middleware *)

Section MiddlewareMore.

Implicit Types (r : redis) (self : RateLimitMiddleware).

Lemma blocked_key_ne_user rl u :
  _get_key rl (user_key "blocked" u) ≠ _get_key rl (user_key "user" u).
Proof.
  intros H. unfold _get_key, user_key in H.
  apply (inj (String.app _)) in H. cbn in H. discriminate H.
Qed.

Lemma holds_frame (d d' : gmap string entry) (k : string) s H :
  d' !! k = d !! k → holds d k s H → holds d' k s H.
Proof. unfold holds. by intros ->. Qed.

(** The rate-check part of [__call__] never answers [TemporarilyBlocked]. *)
Lemma unblocked_request_not_temporarily_blocked self event user_id now r :
  governed event user_id →
  hd false (faults r) = false →
  peek now (_get_key (rate_limiter self) (user_key "blocked" user_id)) (db r) = None →
  (__call__ self event now r).1 ≠ Ok (Reject TemporarilyBlocked).
Proof.
  intros Hg Hf Hpeek. rewrite (call_governed _ _ _ _ Hg).
  unfold bind at 1. rewrite call_no_fault by done. cbn [exec]. rewrite Hpeek.
  cbn [fst snd is_err as_int Z.eqb negb].
  unfold bind at 1.
  destruct (check_rate_limit _ _ _ _ _ _) as [[[[allowed c] rt] |] r1]; [| done].
  destruct allowed; cbn [negb].
  - unfold bind, ret. by destruct (_log_activity _ _ _ _ _) as [[?|] ?].
  - unfold bind at 1.
    destruct (check_rate_limit _ _ _ _ _ _) as [[[[sa sc] srt] |] r2]; [| done].
    destruct sa; cbn [negb]; [done |].
    unfold bind, ret. by destruct (_block_user _ _ _ _) as [[?|] ?].
Qed.

(** X12.  A block lasts [block_duration] seconds, the last instant
    included.  After [_block_user] has written the block record at clock
    reading [now], a request of the principal whose first round trip
    succeeds is answered [TemporarilyBlocked] if and only if it arrives at
    most [block_duration] seconds after [now]: the server drops the record
    once the clock has passed its deadline, and from then on the request
    goes to the rate check again. *)
Theorem block_lasts_block_duration self event user_id now r t :
  governed event user_id → 0 < block_duration self →
  hd false (faults r) = false →
  hd false (faults (_block_user self user_id now r).2) = false →
  (__call__ self event t (_block_user self user_id now r).2).1
    = Ok (Reject TemporarilyBlocked)
  ↔ t ≤ now + block_duration self * tps.
Proof.
  intros Hg Hbd Hf Hf'.
  destruct (block_user_effect self user_id now r Hf Hbd) as (r1 & Hblock & Hdb & Hfs).
  rewrite Hblock in *. cbn [snd] in *.
  set (bk := _get_key (rate_limiter self) (user_key "blocked" user_id)) in *.
  destruct (Z.leb_spec t (now + block_duration self * tps)) as [Hle | Hgt].
  - split; [done | intros _].
    destruct (blocked_request_rejected self event user_id t r1
                (Entry (RStr "1") (Some (now + block_duration self * tps))) Hg)
      as (r2 & Hcall & _); [| done | by rewrite Hcall].
    fold bk. rewrite Hdb, peek_insert. unfold live. cbn [deadline].
    by apply Z.leb_le in Hle as ->.
  - split; [| lia]. intros Hcall. exfalso.
    apply (unblocked_request_not_temporarily_blocked self event user_id t r1 Hg Hf');
      [| done].
    fold bk. rewrite Hdb, peek_insert. unfold live. cbn [deadline].
    by apply Z.leb_gt in Hgt as ->.
Qed.

(** X13.  [unblock_user] deletes the block record and nothing else: the
    principal's rate window and spam window stay as they are.  So when a
    principal is unblocked while both windows are still full, its next
    request is rejected by both checks and the block record is written
    again. *)
Theorem unblock_user_keeps_windows self event user_id now t r su ss Hu Hs :
  governed event user_id → faults r = [] → 0 < block_duration self →
  0 ≤ default_window self → 0 ≤ spam_window self →
  let rl := rate_limiter self in
  let bk := _get_key rl (user_key "blocked" user_id) in
  let uk := _get_key rl (user_key "user" user_id) in
  let sk := _get_key rl (user_key "spam" user_id) in
  holds (db r) uk su Hu → su ≠ ∅ →
  (∀ x, x ∈ su → t - default_window self * tps < x ∧ x < t) → t < Hu →
  default_limit self ≤ Z.of_nat (size su) →
  holds (db r) sk ss Hs → ss ≠ ∅ →
  (∀ x, x ∈ ss → t - spam_window self * tps < x ∧ x < t) → t < Hs →
  spam_limit self ≤ Z.of_nat (size ss) →
  ∃ r1 r2,
    unblock_user self user_id now r = (Ok true, r1)
    ∧ db r1 !! bk = None ∧ db r1 !! uk = db r !! uk ∧ db r1 !! sk = db r !! sk
    ∧ __call__ self event t r1
      = (Ok (Reject (BlockedForHours (block_duration self / 3600))), r2)
    ∧ db r2 !! bk
      = Some (Entry (RStr "1") (Some (t + block_duration self * tps))).
Proof.
  intros Hg Hf Hbd Hdw Hsw rl bk uk sk Hhu Hune Hsu Htu Hfullu Hhs Hsne Hss Hts Hfulls.
  assert (bk ≠ uk) as Hbu by apply blocked_key_ne_user.
  assert (sk ≠ uk) as Hsu' by apply spam_key_ne_user.
  assert (sk ≠ bk) as Hsb by apply spam_key_ne_blocked.
  destruct r as [d fs]. cbn [faults db] in *. subst fs.
  set (r1 := Redis (delete bk d) []).
  assert (unblock_user self user_id now (Redis d []) = (Ok true, r1)) as Hun.
  { unfold unblock_user, try_except, bind. fold rl bk. rewrite call_healthy.
    cbn [exec]. by destruct (peek now bk d). }
  destruct (check_rate_limit_rejected rl (user_key "user" user_id)
              (default_limit self) (default_window self) t r1 su Hu)
    as (oldest & _ & _ & Hchk); try done.
  { apply (holds_frame d); [| done]. unfold r1. cbn [db]. fold uk.
    by rewrite lookup_delete_ne. }
  fold uk in Hchk. unfold r1 in Hchk at 2. cbn [db] in Hchk.
  set (r1' := Redis (<[uk := Entry (RZSet su)
                                  (Some (t + (default_window self + 1) * tps))]>
                       (delete bk d)) []) in *.
  destruct (check_rate_limit_rejected rl (user_key "spam" user_id)
              (spam_limit self) (spam_window self) t r1' ss Hs)
    as (oldest' & _ & _ & Hspam); try done.
  { apply (holds_frame d); [| done]. unfold r1'. cbn [db]. fold sk.
    by rewrite lookup_insert_ne, lookup_delete_ne. }
  fold sk in Hspam. unfold r1' in Hspam at 2. cbn [db] in Hspam.
  match type of Hspam with _ = (_, ?x) => set (r2' := x) in * end.
  destruct (block_user_effect self user_id t r2' eq_refl Hbd)
    as (r2 & Hblock & Hdb & _).
  exists r1, r2. split; [done |].
  split; [apply lookup_delete_eq |].
  split; [unfold r1; cbn [db]; by rewrite lookup_delete_ne |].
  split; [unfold r1; cbn [db]; by rewrite lookup_delete_ne |].
  split.
  - rewrite (call_governed _ _ _ _ Hg). fold rl bk uk sk.
    unfold bind at 1. rewrite exists_reply by done. unfold r1 at 1. cbn [db].
    rewrite peek_delete. cbn [as_int Z.eqb negb].
    unfold bind at 1. rewrite Hchk. cbn [negb].
    unfold bind at 1. rewrite Hspam. cbn [negb].
    unfold bind, ret. by rewrite Hblock.
  - rewrite Hdb. fold rl bk. apply lookup_insert_eq.
Qed.

(** X14.  A request that the primary check rejects is recorded in the spam
    window: on a reachable store, with no block record, a full rate window
    and a spam window under its limit, the request is answered
    [TooManyRequests], the spam window gains the entry of this request, and
    the rate window keeps the entries it had. *)
Theorem rejected_request_enters_spam_window self event user_id t r su ss Hu Hs :
  governed event user_id → faults r = [] →
  0 ≤ default_window self → 0 ≤ spam_window self → 0 < spam_limit self →
  let rl := rate_limiter self in
  let bk := _get_key rl (user_key "blocked" user_id) in
  let uk := _get_key rl (user_key "user" user_id) in
  let sk := _get_key rl (user_key "spam" user_id) in
  peek t bk (db r) = None →
  holds (db r) uk su Hu → su ≠ ∅ →
  (∀ x, x ∈ su → t - default_window self * tps < x ∧ x < t) → t < Hu →
  default_limit self ≤ Z.of_nat (size su) →
  holds (db r) sk ss Hs →
  (∀ x, x ∈ ss → t - spam_window self * tps < x ∧ x < t) → t < Hs →
  Hs ≤ t + (spam_window self + 1) * tps →
  Z.of_nat (size ss) < spam_limit self →
  ∃ reset_time r2,
    __call__ self event t r = (Ok (Reject (TooManyRequests reset_time)), r2)
    ∧ holds (db r2) sk ({[t]} ∪ ss) Hs
    ∧ db r2 !! uk
      = Some (Entry (RZSet su) (Some (t + (default_window self + 1) * tps))).
Proof.
  intros Hg Hf Hdw Hsw Hsl rl bk uk sk Hnb Hhu Hune Hsu Htu Hfullu Hhs Hss Hts HHs Hunder.
  assert (sk ≠ uk) as Hsu' by apply spam_key_ne_user.
  destruct (check_rate_limit_rejected rl (user_key "user" user_id)
              (default_limit self) (default_window self) t r su Hu)
    as (oldest & _ & _ & Hchk); try done.
  fold uk in Hchk.
  match type of Hchk with _ = (_, ?x) => set (r1 := x) in * end.
  destruct (check_rate_limit_step rl (user_key "spam" user_id)
              (spam_limit self) (spam_window self) t r1 ss Hs)
    as (rt & r2 & Hspam & _ & Hh2 & Hfr); try done; try lia.
  { apply (holds_frame (db r)); [| done]. subst r1. cbn [db]. fold sk.
    by rewrite lookup_insert_ne. }
  fold sk in Hh2, Hfr.
  assert ((Z.of_nat (size ss) <? spam_limit self) = true) as Hall
    by (apply Z.ltb_lt; lia).
  rewrite Hall in Hspam, Hh2.
  eexists _, r2. split; [| split; [exact Hh2 |]].
  - rewrite (call_governed _ _ _ _ Hg). fold rl bk uk sk.
    unfold bind at 1. rewrite exists_reply by done. rewrite Hnb.
    cbn [as_int Z.eqb negb].
    unfold bind at 1. rewrite Hchk. cbn [negb].
    unfold bind at 1. rewrite Hspam. cbn [negb]. done.
  - rewrite Hfr by done. subst r1. cbn [db]. apply lookup_insert_eq.
Qed.

Lemma substring_length_le n s : (String.length (String.substring 0 n s) ≤ n)%nat.
Proof.
  revert s. induction n as [| n IH]; intros [| c s]; cbn; try lia.
  specialize (IH s). lia.
Qed.

(** X15.  What [_log_activity] records for a message with a non-empty text,
    on a reachable store whose activity key is absent or holds a hash: the
    hash then has [type = message], the message's time stamp, and in [data]
    the first 100 characters of the text, never more; the key expires 24
    hours later.  For a callback query without data nothing is recorded, no
    round trip is made and the call returns normally. *)
Theorem log_activity_record self user_id event now r :
  let ak := _get_key (rate_limiter self) (user_key "activity" user_id) in
  (∀ txt,
     class event = IsMessage → text event = Some txt → txt ≠ "" →
     faults r = [] →
     (peek now ak (db r) = None
      ∨ ∃ h dl, peek now ak (db r) = Some (Entry (RHash h) dl)) →
     ∃ r' h',
       _log_activity self user_id event now r = (Ok tt, r')
       ∧ db r' !! ak = Some (Entry (RHash h') (Some (now + 86400 * tps)))
       ∧ h' !! "type" = Some "message"
       ∧ h' !! "data" = Some (String.substring 0 100 txt)
       ∧ h' !! "timestamp" = Some (date_timestamp event)
       ∧ (String.length (String.substring 0 100 txt) ≤ 100)%nat)
  ∧ (class event = IsCallbackQuery → data event = None →
     _log_activity self user_id event now r = (Ok tt, r)).
Proof.
  intros ak. split.
  - intros txt Hc Ht Hne Hf Hpeek. destruct r as [d fs]. cbn in Hf. subst fs.
    cbn [db] in Hpeek.
    unfold _log_activity, try_except. fold ak. rewrite Hc, Ht.
    unfold str_or at 2. rewrite decide_False by done.
    unfold str_or. rewrite decide_False by done.
    set (m := [("type", "message"); ("data", String.substring 0 100 txt);
               ("timestamp", date_timestamp event)]).
    set (new := list_to_map (M := gmap string string) m).
    assert (new !! "type" = Some "message"
            ∧ new !! "data" = Some (String.substring 0 100 txt)
            ∧ new !! "timestamp" = Some (date_timestamp event)) as (N1 & N2 & N3).
    { subst new m. cbn [list_to_map foldr uncurry fst snd].
      rewrite lookup_insert_eq.
      rewrite lookup_insert_ne, lookup_insert_eq by done.
      by rewrite !lookup_insert_ne, lookup_insert_eq by done. }
    assert ((86400 <=? 0) = false) as H86 by done.
    assert ((now <=? now + 86400 * tps) = true) as Hlive
      by (apply Z.leb_le; unfold tps; lia).
    unfold bind at 1. rewrite call_healthy. cbn [exec]. fold m new.
    destruct Hpeek as [Hp | (h & dl & Hp)]; rewrite Hp; cbn [fst snd is_err].
    + unfold bind at 1. rewrite call_healthy. cbn [exec]. rewrite peek_insert.
      cbn [live deadline fst snd is_err]. rewrite H86. unfold ret.
      eexists _, new. split; [reflexivity |]. cbn [db].
      rewrite insert_insert_eq, lookup_insert_eq.
      repeat split; try done. apply substring_length_le.
    + unfold bind at 1. rewrite call_healthy. cbn [exec]. rewrite peek_insert.
      assert (live now (Entry (RHash (new ∪ h)) dl) = true) as ->.
      { unfold peek in Hp. destruct (d !! ak) as [e |]; [| done].
        destruct (live now e) eqn:E; [| done].
        injection Hp as ->. exact E. }
      cbn [fst snd is_err]. rewrite H86. unfold ret.
      eexists _, (new ∪ h). split; [reflexivity |]. cbn [db].
      rewrite insert_insert_eq, lookup_insert_eq.
      split; [done |].
      split; [by apply lookup_union_Some_l |].
      split; [by apply lookup_union_Some_l |].
      split; [by apply lookup_union_Some_l | apply substring_length_le].
  - intros Hc Hd. unfold _log_activity, try_except. by rewrite Hc, Hd.
Qed.

(** Events the middleware does not govern.  An event that is neither
    a message nor a callback query, and a message or callback query whose
    sender has id [0], are handed to the handler at once: no round trip, no
    store access, no limiter in the handler's context, whatever block
    record or counters the store holds.  A message or callback query with
    no sender makes [__call__] raise. *)
Lemma ungoverned_events_bypass self event now r :
  (class event = IsOther ∨ (class event ≠ IsOther ∧ from_user event = Some 0) →
   __call__ self event now r = (Ok (Forward false), r))
  ∧ (class event ≠ IsOther → from_user event = None →
     __call__ self event now r = (Raise, r)).
Proof.
  unfold __call__. split.
  - intros [Hc | [Hc Hu]].
    + rewrite Hc. by destruct (from_user event).
    + rewrite Hu. by destruct (class event).
  - intros Hc Hu. rewrite Hu. by destruct (class event).
Qed.

End MiddlewareMore.

(** *** The middleware on a sample store *)

(** A middleware with a primary limit of 2 per minute and the given spam
    limit per hour. *)
Definition strict_middleware (spam_limit : Z) : RateLimitMiddleware :=
  {| rate_limiter := sample_limiter; default_limit := 2; default_window := 60;
     spam_limit := spam_limit; spam_window := 3600; block_duration := 3600 |}.

(** Principal 7 with two requests in its rate window and in its spam
    window. *)
Definition full_windows : redis :=
  Redis (<["rate_limit:user:7"
           := Entry (RZSet {[ 1700000000000000; 1700000005000000 ]})
                    (Some 1700000066000000)]>
           (<["rate_limit:spam:7"
              := Entry (RZSet {[ 1700000000000000; 1700000005000000 ]})
                       (Some 1700003606000000)]> ∅)) [].

Lemma full_windows_holds :
  holds (db full_windows) "rate_limit:user:7"
        {[ 1700000000000000; 1700000005000000 ]} 1700000066000000
  ∧ holds (db full_windows) "rate_limit:spam:7"
          {[ 1700000000000000; 1700000005000000 ]} 1700003606000000.
Proof.
  split.
  - apply holds_insert; [apply sample_entries_nonempty | lia].
  - apply (holds_frame
             (<["rate_limit:spam:7"
                := Entry (RZSet {[ 1700000000000000; 1700000005000000 ]})
                         (Some 1700003606000000)]> ∅)).
    + unfold full_windows. cbn [db]. by rewrite lookup_insert_ne.
    + apply holds_insert; [apply sample_entries_nonempty | lia].
Qed.

Lemma sample_message_governed : governed sample_message 7.
Proof. repeat split; [discriminate | lia]. Qed.

Lemma block_lasts_block_duration_witness :
  ((__call__ (strict_middleware 2) sample_message 1700003600000000
      (_block_user (strict_middleware 2) 7 1700000000000000 (Redis ∅ [])).2).1
   = Ok (Reject TemporarilyBlocked)
   ↔ 1700003600000000 ≤ 1700000000000000 + 3600 * tps)
  ∧ ((__call__ (strict_middleware 2) sample_message 1700003600000001
        (_block_user (strict_middleware 2) 7 1700000000000000 (Redis ∅ [])).2).1
     = Ok (Reject TemporarilyBlocked)
     ↔ 1700003600000001 ≤ 1700000000000000 + 3600 * tps).
Proof.
  split.
  - apply (block_lasts_block_duration (strict_middleware 2) sample_message 7
             1700000000000000 (Redis ∅ []) 1700003600000000);
      [apply sample_message_governed | reflexivity | reflexivity | reflexivity].
  - apply (block_lasts_block_duration (strict_middleware 2) sample_message 7
             1700000000000000 (Redis ∅ []) 1700003600000001);
      [apply sample_message_governed | reflexivity | reflexivity | reflexivity].
Defined.

Lemma unblock_user_keeps_windows_witness :
  ∃ r1 r2,
    unblock_user (strict_middleware 2) 7 1700000009000000 full_windows
    = (Ok true, r1)
    ∧ __call__ (strict_middleware 2) sample_message 1700000010000000 r1
      = (Ok (Reject (BlockedForHours 1)), r2)
    ∧ db r2 !! "rate_limit:blocked:7"
      = Some (Entry (RStr "1") (Some (1700000010000000 + 3600 * tps))).
Proof.
  destruct full_windows_holds as [Hu Hs].
  destruct (unblock_user_keeps_windows (strict_middleware 2) sample_message 7
              1700000009000000 1700000010000000 full_windows
              {[ 1700000000000000; 1700000005000000 ]}
              {[ 1700000000000000; 1700000005000000 ]}
              1700000066000000 1700003606000000)
    as (r1 & r2 & Hun & _ & _ & _ & Hcall & Hrec).
  - apply sample_message_governed.
  - reflexivity.
  - reflexivity.
  - cbn. lia.
  - cbn. lia.
  - exact Hu.
  - apply sample_entries_nonempty.
  - intros x Hx.
    apply (sample_entries_before 1699999999999999 1700000010000000) in Hx;
      cbn; unfold tps; lia.
  - lia.
  - vm_compute. discriminate.
  - exact Hs.
  - apply sample_entries_nonempty.
  - intros x Hx.
    apply (sample_entries_before 1699999999999999 1700000010000000) in Hx;
      cbn; unfold tps; lia.
  - lia.
  - vm_compute. discriminate.
  - exists r1, r2. split; [exact Hun |]. split; [exact Hcall | exact Hrec].
Defined.

Lemma rejected_request_enters_spam_window_witness :
  ∃ reset_time r2,
    __call__ (strict_middleware 3) sample_message 1700000010000000 full_windows
    = (Ok (Reject (TooManyRequests reset_time)), r2)
    ∧ holds (db r2) "rate_limit:spam:7"
            ({[ 1700000010000000 ]}
             ∪ {[ 1700000000000000; 1700000005000000 ]}) 1700003606000000.
Proof.
  destruct full_windows_holds as [Hu Hs].
  destruct (rejected_request_enters_spam_window (strict_middleware 3)
              sample_message 7 1700000010000000 full_windows
              {[ 1700000000000000; 1700000005000000 ]}
              {[ 1700000000000000; 1700000005000000 ]}
              1700000066000000 1700003606000000)
    as (rt & r2 & Hcall & Hspam & _).
  - apply sample_message_governed.
  - reflexivity.
  - cbn. lia.
  - cbn. lia.
  - reflexivity.
  - reflexivity.
  - exact Hu.
  - apply sample_entries_nonempty.
  - intros x Hx.
    apply (sample_entries_before 1699999999999999 1700000010000000) in Hx;
      cbn; unfold tps; lia.
  - lia.
  - vm_compute. discriminate.
  - exact Hs.
  - intros x Hx.
    apply (sample_entries_before 1699999999999999 1700000010000000) in Hx;
      cbn; unfold tps; lia.
  - lia.
  - cbn. unfold tps. lia.
  - vm_compute. reflexivity.
  - exists rt, r2. split; [exact Hcall | exact Hspam].
Defined.

Lemma log_activity_record_witness :
  ∃ r' h',
    _log_activity (strict_middleware 2) 7 sample_message 1700000000000000
      (Redis ∅ []) = (Ok tt, r')
    ∧ db r' !! "rate_limit:activity:7"
      = Some (Entry (RHash h') (Some (1700000000000000 + 86400 * tps)))
    ∧ h' !! "data" = Some "/start".
Proof.
  destruct (log_activity_record (strict_middleware 2) 7 sample_message
              1700000000000000 (Redis ∅ [])) as [Hmsg _].
  destruct (Hmsg "/start" eq_refl eq_refl ltac:(discriminate) eq_refl
              ltac:(left; reflexivity))
    as (r' & h' & Hlog & Hrec & _ & Hdata & _).
  exists r', h'. split; [exact Hlog |]. split; [exact Hrec | exact Hdata].
Defined.

(** ** Properties of the rate-limit decorators *)

Section DecoratorFacts.

Implicit Types (r : redis) (self : RateLimitMiddleware).

Lemma two_calls_healthy now c1 c2 d :
  faults ((_ <- call now c1 ;; _ <- call now c2 ;; ret tt) (Redis d [])).2 = [].
Proof.
  unfold bind. rewrite call_healthy. destruct (is_err _); [done |].
  rewrite call_healthy. by destruct (is_err _).
Qed.

(** [_log_activity] on a reachable store: the store stays reachable and
    only the activity key changes. *)
Lemma log_activity_healthy self user_id event now r :
  faults r = [] →
  ∃ r', _log_activity self user_id event now r = (Ok tt, r')
        ∧ faults r' = []
        ∧ ∀ k', k' ≠ _get_key (rate_limiter self) (user_key "activity" user_id) →
                db r' !! k' = db r !! k'.
Proof.
  intros Hf.
  destruct (log_activity_ok self user_id event now r) as (r' & Hlog).
  exists r'. split; [done |]. split.
  - destruct r as [d fs]. cbn in Hf. subst fs. revert Hlog.
    unfold _log_activity, try_except, ret.
    match goal with |- context [?body (Redis d [])] =>
      assert (faults (body (Redis d [])).2 = []) as Hbody;
        [| destruct (body (Redis d [])) as [[[] |] rr]; cbn [snd] in Hbody;
           by intros [= <-] ]
    end.
    destruct (class event); cbv beta iota zeta;
      [ destruct (str_or _ _) | destruct (data event) | ];
      first [ apply two_calls_healthy | done ].
  - intros k' Hk'.
    pose proof (frames_log_activity self user_id event now r k') as Hfr.
    rewrite Hlog in Hfr. apply Hfr. by intros ->%list_elem_of_singleton.
Qed.

Lemma user_key_ne_activity rl u :
  _get_key rl (user_key "user" u) ≠ _get_key rl (user_key "activity" u).
Proof.
  intros H. unfold _get_key, user_key in H.
  apply (inj (String.app _)) in H. cbn in H. discriminate H.
Qed.

Lemma append_self (x y : string) : x +:+ y = x → y = "".
Proof.
  induction x as [| c x IH]; [done |]. intros H. apply IH.
  by injection H.
Qed.

Lemma governed_first_event event user_id :
  governed event user_id → first_event [event] = Some event.
Proof.
  intros (Hc & _ & _). unfold first_event. cbn [List.find].
  by destruct (class event).
Qed.

(** X16.  [rate_limit_user] uses the key [user:{id}], which is the key of
    the middleware's primary check.  So behind the middleware a request is
    counted twice in one window: when the middleware has let a request of a
    fresh principal through, the decorator's check of the same request
    already reads the count [1], and refuses the handler's first call when
    its limit is [1].  The plain [rate_limit] decorator, whose key ends in
    the handler's name, starts from its own empty window and lets the call
    through. *)
Theorem rate_limit_user_shares_middleware_key self event user_id t1 t2
    limit window func_name r :
  governed event user_id → faults r = [] →
  let rl := rate_limiter self in
  peek t1 (_get_key rl (user_key "blocked" user_id)) (db r) = None →
  db r !! _get_key rl (user_key "user" user_id) = None →
  db r !! _get_key rl (user_key "user" user_id +:+ ":" +:+ func_name) = None →
  0 < default_limit self → 0 ≤ default_window self →
  default_window self ≤ window → 0 < limit →
  t1 < t2 → t2 < t1 + default_window self * tps →
  ∃ r1 reset_time r2 r3,
    __call__ self event t1 r = (Ok (Forward true), r1)
    ∧ rate_limit_user limit window func_name (Some rl) [event] None t2 r1
      = (Ok (if 1 <? limit then Run else Limited reset_time), r2)
    ∧ rate_limit limit window None func_name (Some rl) [event] None t2 r1
      = (Ok Run, r3).
Proof.
  intros Hg Hf rl Hnb Hfresh Hfresh' Hdl Hdw Hw Hlim Ht12 Ht2.
  set (uk := _get_key rl (user_key "user" user_id)) in *.
  set (H := t1 + (default_window self + 1) * tps).
  destruct (check_rate_limit_step rl (user_key "user" user_id)
              (default_limit self) (default_window self) t1 r ∅ H)
    as (rt & r0 & Hchk & Hf0 & Hh0 & Hfr0);
    try done; try (intros x Hx; by apply elem_of_empty in Hx);
    try (subst H; unfold tps in *; lia).
  rewrite size_empty in Hchk, Hh0. change (Z.of_nat 0) with 0 in Hchk, Hh0.
  assert ((0 <? default_limit self) = true) as Hall by (apply Z.ltb_lt; lia).
  rewrite Hall in Hchk, Hh0. rewrite union_empty_r_L in Hh0.
  destruct (log_activity_healthy self user_id event t1 r0 Hf0)
    as (r1 & Hlog & Hf1 & Hfr1).
  assert (holds (db r1) uk {[t1]} H) as Hh1.
  { apply (holds_frame (db r0)); [| done]. apply Hfr1, user_key_ne_activity. }
  destruct (check_rate_limit_step rl (user_key "user" user_id)
              limit window t2 r1 {[t1]} H)
    as (rt2 & r2 & Hchk2 & _);
    try done; try (subst H; unfold tps in *; lia).
  { intros x Hx%elem_of_singleton. subst x. unfold tps in *. lia. }
  rewrite size_singleton in Hchk2. change (Z.of_nat 1) with 1 in Hchk2.
  set (fk := user_key "user" user_id +:+ ":" +:+ func_name) in *.
  destruct (check_rate_limit_step rl fk limit window t2 r1 ∅ (t2 + window * tps + 1))
    as (rt3 & r3 & Hchk3 & _);
    try done; try (intros x Hx; by apply elem_of_empty in Hx);
    try (unfold tps in *; lia).
  { unfold holds. rewrite decide_True by done.
    rewrite Hfr1, Hfr0; [done | |].
    - intros E. apply get_key_inj in E. subst fk.
      apply append_self in E. discriminate E.
    - intros E. apply get_key_inj in E. subst fk. unfold user_key in E.
      discriminate E. }
  rewrite size_empty in Hchk3. change (Z.of_nat 0) with 0 in Hchk3.
  assert ((0 <? limit) = true) as Hall3 by (apply Z.ltb_lt; lia).
  rewrite Hall3 in Hchk3.
  exists r1, rt2, r2, r3. split; [| split].
  - rewrite (call_governed _ _ _ _ Hg). fold rl.
    unfold bind at 1. rewrite exists_reply by done. rewrite Hnb.
    cbn [as_int Z.eqb negb]. unfold bind at 1. rewrite Hchk. cbn [negb].
    unfold bind, ret. by rewrite Hlog.
  - unfold rate_limit_user, rate_limit.
    rewrite (governed_first_event _ _ Hg).
    destruct Hg as (_ & -> & _).
    rewrite decide_False by (unfold user_key; discriminate).
    unfold bind, ret. rewrite Hchk2. by destruct (1 <? limit).
  - unfold rate_limit. rewrite (governed_first_event _ _ Hg).
    destruct Hg as (_ & -> & _). fold fk.
    rewrite decide_False by (subst fk; unfold user_key; discriminate).
    unfold bind, ret. by rewrite Hchk3.
Qed.

End DecoratorFacts.

Lemma rate_limit_user_shares_middleware_key_witness :
  ∃ r1 reset_time r2 r3,
    __call__ (strict_middleware 2) sample_message 1700000000000000 (Redis ∅ [])
    = (Ok (Forward true), r1)
    ∧ rate_limit_user 1 3600 "start" (Some sample_limiter) [sample_message]
        None 1700000001000000 r1
      = (Ok (Limited reset_time), r2)
    ∧ rate_limit 1 3600 None "start" (Some sample_limiter) [sample_message]
        None 1700000001000000 r1
      = (Ok Run, r3).
Proof.
  destruct (rate_limit_user_shares_middleware_key (strict_middleware 2)
              sample_message 7 1700000000000000 1700000001000000 1 3600
              "start" (Redis ∅ []))
    as (r1 & reset_time & r2 & r3 & Hcall & Huser & Hplain).
  - apply sample_message_governed.
  - reflexivity.
  - reflexivity.
  - reflexivity.
  - reflexivity.
  - reflexivity.
  - cbn. lia.
  - cbn. lia.
  - lia.
  - lia.
  - cbn. unfold tps. lia.
  - exists r1, reset_time, r2, r3.
    split; [exact Hcall |]. split; [exact Huser | exact Hplain].
Defined.

(** ** Further properties of the access-control registry *)

Section AccessControlMore.

Implicit Types (h : heap) (db_session : option AsyncSession).

Lemma Role_of_string_nonempty s role : Role_of_string s = Some role → s ≠ "".
Proof. by intros H ->. Qed.

(** X17.  [_get_user_role] resolves to a role above [USER] in one case
    only: there is a session, the lookup does not raise, exactly one row of
    the identity store has the principal's id, and its role is, letter for
    letter, [moderator], [admin] or [super_admin].  With no row, several
    rows, a NULL or empty role, or any other string (another case of the
    letters included), the role is [USER]. *)
Theorem get_user_role_elevated db_session user_id role :
  role ≠ USER →
  _get_user_role db_session user_id = role
  ↔ ∃ db role_str,
      db_session = Some db ∧ failing db = false
      ∧ filter (λ row, row.1 = user_id) (rows db) = [(user_id, Some role_str)]
      ∧ Role_of_string role_str = Some role.
Proof.
  intros Hrole. unfold _get_user_role, query_role. split.
  - destruct db_session as [db |]; [| by intros <-].
    destruct (failing db) eqn:Hfail; [by intros <- |].
    destruct (filter _ (rows db)) as [| [uid [role_str |]] [| row2 l]] eqn:Hrows;
      try (by intros <-).
    assert (uid = user_id) as ->.
    { assert ((uid, Some role_str) ∈ filter (λ row, row.1 = user_id) (rows db))
        as Hin by (rewrite Hrows; left).
      by apply list_elem_of_filter in Hin as [? _]. }
    cbn [snd]. case_decide; [by intros <- |].
    destruct (Role_of_string role_str) as [role' |] eqn:Hstr; [| by intros <-].
    intros ->. by exists db, role_str.
  - intros (db & role_str & -> & -> & -> & Hstr). cbn [snd].
    rewrite decide_False by (by apply Role_of_string_nonempty in Hstr).
    by rewrite Hstr.
Qed.

Lemma super_admin_has_all (p : Permission) : p ∈ ROLE_PERMISSIONS SUPER_ADMIN.
Proof.
  cbn [ROLE_PERMISSIONS]. apply elem_of_list_to_set. unfold all_permissions.
  destruct p; repeat first [ by left | right ].
Qed.

(** X18.  Roles are compared for equality, permissions are cumulative.  For
    a principal whose role resolves to [SUPER_ADMIN]: a handler guarded by
    [require_role] with any other role, [ADMIN] included, is refused with the
    notice, while on a fresh checker a handler guarded by
    [require_permission] is granted for every permission. *)
Theorem require_role_not_hierarchical db_session args arg user_id :
  first_event args = Some arg → from_user arg = Some user_id → user_id ≠ 0 →
  _get_user_role db_session user_id = SUPER_ADMIN →
  (∀ role h, role ≠ SUPER_ADMIN →
     require_role role (Some db_session) args h = (Ok (Denied true), h))
  ∧ (∀ permission,
       (require_permission permission (Some db_session) args initial_heap).1
       = Ok Granted).
Proof.
  intros Harg Hu Hnz Hsuper. split.
  - intros role h Hrole. unfold require_role. rewrite Harg, Hu.
    rewrite decide_False by done. unfold has_role. rewrite Hsuper.
    by rewrite bool_decide_eq_false_2.
  - intros p. unfold require_permission. rewrite Harg, Hu.
    rewrite decide_False by done.
    rewrite has_permission_miss by done. rewrite Hsuper.
    cbn [initial_heap table]. rewrite bool_decide_eq_true_2; [done |].
    apply super_admin_has_all.
Qed.

Lemma mutate_own f u h :
  (∀ role, _cache h !! u ≠ Some (Shared role)) →
  table (mutate f u h) = table h
  ∧ (∀ v, v ≠ u → _cache (mutate f u h) !! v = _cache h !! v)
  ∧ (∀ role, _cache (mutate f u h) !! u ≠ Some (Shared role)).
Proof.
  intros Hown. unfold mutate.
  destruct (_cache h !! u) as [[role | s] |] eqn:Hc.
  - by destruct (Hown role).
  - cbn [table _cache]. split; [done |]. split.
    + intros v Hv. by rewrite lookup_insert_ne.
    + intros role. by rewrite lookup_insert_eq.
  - split; [done |]. split; [done |]. intros role. by rewrite Hc.
Qed.

Lemma has_permission_same_view db_session v q use_cache h h' :
  table h' = table h → _cache h' !! v = _cache h !! v →
  (has_permission db_session v q use_cache h').1
  = (has_permission db_session v q use_cache h).1.
Proof.
  intros Ht Hc. unfold has_permission. rewrite Hc, Ht.
  destruct use_cache; [| done].
  destruct (_cache h !! v) as [[role | s] |]; cbn [fst deref]; by rewrite ?Ht.
Qed.

(** X19.  A principal whose cache entry is not the table's own set (it is
    absent, or a copy made by [grant_permission] or
    [get_user_permissions]) is isolated: [grant_permission] and
    [revoke_permission] on it leave the role table, and with it the answer
    of [has_permission] for every other principal and every permission, as
    they were, and the entry stays a private copy.  A principal that is
    first resolved by [grant_permission] or [get_user_permissions] gets such
    a copy. *)
Theorem private_copy_isolates db_session u p h :
  (∀ role, _cache h !! u ≠ Some (Shared role)) →
  (∀ h', h' = (grant_permission db_session u p h).2
         ∨ h' = (revoke_permission db_session u p h).2
         ∨ h' = (get_user_permissions db_session u h).2 →
     table h' = table h
     ∧ (∀ role, _cache h' !! u ≠ Some (Shared role))
     ∧ ∀ v q use_cache, v ≠ u →
         (has_permission db_session v q use_cache h').1
         = (has_permission db_session v q use_cache h).1).
Proof.
  intros Hown h' Hh'.
  assert (table h' = table h
          ∧ (∀ v, v ≠ u → _cache h' !! v = _cache h !! v)
          ∧ (∀ role, _cache h' !! u ≠ Some (Shared role))) as (Ht & Hc & Hown').
  { destruct Hh' as [-> | [-> | ->]].
    - unfold grant_permission. cbn [snd].
      destruct (_cache h !! u) as [c |] eqn:Hcu.
      + apply mutate_own. intros role. rewrite Hcu. apply Hown.
      + destruct (mutate_own (λ s, {[p]} ∪ s) u
                    (Heap (table h)
                       (<[u := Own (table h (_get_user_role db_session u))]>
                          (_cache h)))) as (Ht & Hc & Ho).
        { intros role. cbn [_cache]. by rewrite lookup_insert_eq. }
        split; [done |]. split; [| done].
        intros v Hv. rewrite Hc by done. cbn [_cache].
        by rewrite lookup_insert_ne.
    - unfold revoke_permission. cbn [snd]. by apply mutate_own.
    - unfold get_user_permissions.
      destruct (_cache h !! u) as [c |] eqn:Hcu; cbn [snd].
      + split; [done |]. split; [done |]. intros role. rewrite Hcu. apply Hown.
      + cbn [table _cache]. split; [done |]. split.
        * intros v Hv. by rewrite lookup_insert_ne.
        * intros role. by rewrite lookup_insert_eq. }
  split; [done |]. split; [done |].
  intros v q use_cache Hv. apply has_permission_same_view; [done | by apply Hc].
Qed.

(** X20.  [revoke_permission] on a principal that has no cache entry
    returns [True] and changes nothing: a permission the principal holds
    through its role is still held afterwards. *)
Theorem revoke_uncached_is_noop db_session u p h :
  _cache h !! u = None →
  revoke_permission db_session u p h = (true, h)
  ∧ (p ∈ table h (_get_user_role db_session u) →
     (has_permission db_session u p true
        (revoke_permission db_session u p h).2).1 = true).
Proof.
  intros Hc.
  assert (revoke_permission db_session u p h = (true, h)) as Hrev
    by (unfold revoke_permission, mutate; by rewrite Hc).
  split; [done |]. intros Hp. rewrite Hrev. cbn [snd].
  rewrite has_permission_miss by done. cbn [fst].
  by apply bool_decide_eq_true.
Qed.

(** X21.  A permission granted to a principal on top of its role lives in
    the checker's cache only.  After [grant_permission] on a principal
    without cache entry, for a permission its role does not carry:
    [has_permission] answers [True]; with [use_cache=False] it answers
    [False]; and after [clear_cache], for that principal or for all, it
    answers [False] again.  The role table is not changed. *)
Theorem grant_lives_in_cache_only db_session u p h :
  u ≠ 0 → _cache h !! u = None →
  p ∉ table h (_get_user_role db_session u) →
  let hg := (grant_permission db_session u p h).2 in
  (has_permission db_session u p true hg).1 = true
  ∧ (has_permission db_session u p false hg).1 = false
  ∧ (has_permission db_session u p true (clear_cache (Some u) hg)).1 = false
  ∧ (has_permission db_session u p true (clear_cache None hg)).1 = false
  ∧ table hg = table h.
Proof.
  intros Hnz Hc Hp hg.
  assert (hg = Heap (table h)
                 (<[u := Own ({[p]} ∪ table h (_get_user_role db_session u))]>
                    (_cache h))) as ->.
  { subst hg. unfold grant_permission, mutate. rewrite Hc. cbn [snd _cache table].
    rewrite lookup_insert_eq. cbn [table _cache]. by rewrite insert_insert_eq. }
  split; [| split; [| split; [| split]]].
  - rewrite (has_permission_hit _ _ _ _ (Own ({[p]} ∪ table h (_get_user_role db_session u))))
      by apply lookup_insert_eq.
    cbn [fst deref]. apply bool_decide_eq_true. set_solver.
  - unfold has_permission. cbn [fst table]. by apply bool_decide_eq_false.
  - unfold clear_cache. rewrite decide_False by done. cbn [table _cache].
    rewrite has_permission_miss by apply lookup_delete_eq.
    cbn [fst table]. by apply bool_decide_eq_false.
  - unfold clear_cache. cbn [table].
    rewrite has_permission_miss by done.
    cbn [fst table]. by apply bool_decide_eq_false.
  - done.
Qed.

End AccessControlMore.

(** *** The registry on a sample identity store *)

(** Principal 2 is a super admin; principal 3 has a role string in another
    case; principal 4 has no role; two rows have the id 5. *)
Definition sample_users : option AsyncSession :=
  Some {| rows := [ (1, Some "moderator"); (2, Some "super_admin");
                    (3, Some "Admin"); (4, None);
                    (5, Some "admin"); (5, Some "admin") ];
          failing := false |}.

Definition message_from (user_id : Z) : TelegramObject :=
  {| class := IsMessage; from_user := Some user_id; text := Some "/admin";
     caption := None; data := None; date_timestamp := "1700000000.0" |}.

Lemma get_user_role_elevated_witness :
  _get_user_role sample_users 2 = SUPER_ADMIN
  ∧ _get_user_role sample_users 3 = USER
  ∧ _get_user_role sample_users 5 = USER.
Proof.
  split; [| split; [reflexivity | reflexivity]].
  apply (get_user_role_elevated sample_users 2 SUPER_ADMIN); [discriminate |].
  eexists _, "super_admin". split; [reflexivity |]. split; [reflexivity |].
  split; reflexivity.
Defined.

Lemma require_role_not_hierarchical_witness :
  require_role ADMIN (Some sample_users) [message_from 2] initial_heap
  = (Ok (Denied true), initial_heap)
  ∧ (require_permission REFUND_PAYMENTS (Some sample_users) [message_from 2]
       initial_heap).1 = Ok Granted.
Proof.
  destruct (require_role_not_hierarchical sample_users [message_from 2]
              (message_from 2) 2 eq_refl eq_refl ltac:(lia) eq_refl)
    as [Hrole Hperm].
  split; [apply Hrole; discriminate | apply Hperm].
Defined.

Lemma private_copy_isolates_witness :
  table (grant_permission two_moderators 1 MANAGE_USERS initial_heap).2
  = ROLE_PERMISSIONS
  ∧ (has_permission two_moderators 2 MANAGE_USERS true
       (grant_permission two_moderators 1 MANAGE_USERS initial_heap).2).1
    = (has_permission two_moderators 2 MANAGE_USERS true initial_heap).1.
Proof.
  destruct (private_copy_isolates two_moderators 1 MANAGE_USERS initial_heap
              ltac:(intros role; cbn; rewrite lookup_empty; discriminate)
              (grant_permission two_moderators 1 MANAGE_USERS initial_heap).2
              ltac:(left; reflexivity))
    as (Htable & _ & Hothers).
  split; [exact Htable |]. apply Hothers. lia.
Defined.

Lemma revoke_uncached_is_noop_witness :
  revoke_permission two_moderators 1 READ initial_heap = (true, initial_heap)
  ∧ (has_permission two_moderators 1 READ true
       (revoke_permission two_moderators 1 READ initial_heap).2).1 = true.
Proof.
  destruct (revoke_uncached_is_noop two_moderators 1 READ initial_heap eq_refl)
    as [Hnoop Hstill].
  split; [exact Hnoop |]. apply Hstill.
  apply (bool_decide_unpack _). vm_compute. exact I.
Defined.

Lemma grant_lives_in_cache_only_witness :
  let hg := (grant_permission two_moderators 1 MANAGE_USERS initial_heap).2 in
  (has_permission two_moderators 1 MANAGE_USERS true hg).1 = true
  ∧ (has_permission two_moderators 1 MANAGE_USERS false hg).1 = false
  ∧ (has_permission two_moderators 1 MANAGE_USERS true
       (clear_cache (Some 1) hg)).1 = false
  ∧ (has_permission two_moderators 1 MANAGE_USERS true
       (clear_cache None hg)).1 = false
  ∧ table hg = table initial_heap.
Proof.
  apply (grant_lives_in_cache_only two_moderators 1 MANAGE_USERS initial_heap);
    [lia | reflexivity |].
  apply (bool_decide_unpack _). vm_compute. exact I.
Defined.

(** ** Further properties of the signature validator *)

Lemma lower_char_ascii c : (code (lower_char c) <? 128) = (code c <? 128).
Proof. destruct c as [[] [] [] [] [] [] [] []]; reflexivity. Qed.

Lemma lower_isascii s : isascii (lower s) = isascii s.
Proof.
  induction s as [| c s IH]; [done |]. cbn [lower isascii].
  by rewrite lower_char_ascii, IH.
Qed.

Lemma compare_digest_non_ascii a b :
  isascii a = false → compare_digest a b = None.
Proof. unfold compare_digest. by intros ->. Qed.

Section ValidatorMore.

Variable hmac_sha256 : bytes → bytes → bytes.
Variable json_dumps : dict → option string.
Variable repr : Value → string.

(** X22.  A signature with a character outside ASCII is never accepted,
    whatever the provider, the secrets, the payload and the clock reading:
    [hmac.compare_digest] raises on it and the validator answers
    [False]. *)
Theorem non_ascii_signature_rejected self now provider payload signature :
  isascii signature = false →
  validate hmac_sha256 json_dumps repr self now provider payload signature
  = false.
Proof.
  intros Hsig. unfold validate.
  repeat case_decide; try done.
  - unfold validate_yookassa.
    destruct (configured self "yookassa"); [| done].
    destruct (yookassa_message repr payload s) as [[message |] |]; try done.
    by rewrite compare_digest_non_ascii.
  - unfold validate_cryptopay, validate_json_replay.
    destruct (configured self "cryptopay"); [| done].
    destruct (json_dumps payload); [| done]. cbn [mbind option_bind].
    by rewrite compare_digest_non_ascii.
  - unfold validate_freekassa.
    destruct (configured self "freekassa"); [| done].
    destruct (freekassa_message repr payload s); [| done].
    rewrite compare_digest_non_ascii; [done |]. by rewrite lower_isascii.
  - unfold validate_tribute.
    destruct (configured self "tribute"); [| done].
    destruct (json_dumps payload); [| done]. cbn [mbind option_bind].
    by rewrite compare_digest_non_ascii.
  - unfold validate_stars.
    destruct (configured self "stars"); [| done].
    by rewrite compare_digest_non_ascii.
  - unfold validate_panel, validate_json_replay.
    destruct (configured self "panel"); [| done].
    destruct (json_dumps payload); [| done]. cbn [mbind option_bind].
    by rewrite compare_digest_non_ascii.
Qed.

(** A JSON value that is not a number. *)
Definition not_a_number (v : Value) : Prop :=
  match v with
  | VInt _ | VBool _ | VFloat _ => False
  | _ => True
  end.

(** X23.  An exception inside a validator is answered with [False].  For
    yookassa: a payload whose [object] item is not a dict is rejected
    whatever the signature.  For cryptopay, panel and tribute: a payload
    that [json.dumps] cannot serialise is rejected whatever the signature.
    For cryptopay and panel: a payload whose [timestamp] item is not a
    number is rejected even with the correct signature. *)
Theorem malformed_payload_rejected self now provider payload signature :
  (lower provider = "yookassa" →
   (∃ v, dict_lookup payload "object" = Some v
         ∧ ∀ d, v ≠ VDict d) →
   validate hmac_sha256 json_dumps repr self now provider payload signature
   = false)
  ∧ (lower provider = "cryptopay" ∨ lower provider = "panel"
     ∨ lower provider = "tribute" →
     json_dumps payload = None →
     validate hmac_sha256 json_dumps repr self now provider payload signature
     = false)
  ∧ (lower provider = "cryptopay" ∨ lower provider = "panel" →
     ∀ secret body timestamp,
       configured self (lower provider) = Some secret →
       json_dumps payload = Some body →
       dict_lookup payload "timestamp" = Some timestamp →
       not_a_number timestamp →
       validate hmac_sha256 json_dumps repr self now provider payload
         (hmac_hexdigest hmac_sha256 secret body) = false).
Proof.
  split; [| split].
  - intros Hp (v & Hobj & Hnd). rewrite validate_yookassa_eq by done.
    unfold validate_yookassa. destruct (configured self "yookassa"); [| done].
    unfold yookassa_message. rewrite Hobj. cbn [default from_option id].
    destruct v; try done. by destruct (Hnd d).
  - intros Hp Hjson.
    destruct Hp as [Hp | [Hp | Hp]];
      [ rewrite validate_cryptopay_eq by done; unfold validate_json_replay
      | rewrite validate_panel_eq by done; unfold validate_json_replay
      | rewrite validate_tribute_eq by done; unfold validate_tribute ];
      rewrite Hjson; by destruct (configured _ _).
  - intros Hp secret body timestamp Hconf Hjson Hts Hnan.
    rewrite (validate_json_replay_eq hmac_sha256 json_dumps repr self
               (lower provider) now Hp) by done.
    rewrite (validate_json_replay_spec _ _ _ _ _ _ _ secret body) by done.
    rewrite bool_decide_eq_true_2 by done. rewrite Hts.
    by destruct timestamp.
Qed.

(** X24.  What the signature does not cover.  The yookassa verdict depends
    on the payload through its [event] item and the [id] of its [object]
    only; the freekassa verdict through [MERCHANT_ID], [AMOUNT] and
    [MERCHANT_ORDER_ID] only; the stars verdict does not depend on the
    payload at all.  Two payloads that agree on these items get the same
    verdict for every signature. *)
Theorem unsigned_items_not_covered self now provider payload payload' signature :
  (lower provider = "yookassa" →
   dict_get payload "event" = dict_get payload' "event" →
   (∃ object object',
      dict_lookup payload "object" = Some (VDict object)
      ∧ dict_lookup payload' "object" = Some (VDict object')
      ∧ dict_get object "id" = dict_get object' "id") →
   validate hmac_sha256 json_dumps repr self now provider payload signature
   = validate hmac_sha256 json_dumps repr self now provider payload' signature)
  ∧ (lower provider = "freekassa" →
     dict_get payload "MERCHANT_ID" = dict_get payload' "MERCHANT_ID" →
     dict_get payload "AMOUNT" = dict_get payload' "AMOUNT" →
     dict_get payload "MERCHANT_ORDER_ID" = dict_get payload' "MERCHANT_ORDER_ID" →
     validate hmac_sha256 json_dumps repr self now provider payload signature
     = validate hmac_sha256 json_dumps repr self now provider payload' signature)
  ∧ (lower provider = "stars" →
     validate hmac_sha256 json_dumps repr self now provider payload signature
     = validate hmac_sha256 json_dumps repr self now provider payload' signature).
Proof.
  split; [| split].
  - intros Hp Hev (o & o' & Ho & Ho' & Hid). rewrite !validate_yookassa_eq by done.
    unfold validate_yookassa, yookassa_message.
    rewrite Ho, Ho', Hev. cbn [default from_option id]. by rewrite Hid.
  - intros Hp H1 H2 H3. rewrite !validate_freekassa_eq by done.
    unfold validate_freekassa, freekassa_message. by rewrite H1, H2, H3.
  - intros Hp. by rewrite !validate_stars_eq.
Qed.

End ValidatorMore.

(** *** The validator on further sample payloads *)

(** A stars token with a letter outside ASCII: even the token itself is
    rejected. *)
Definition accented_token : string := String (chr 233) "toile".

Lemma non_ascii_signature_rejected_witness :
  validate sample_mac sample_dumps sample_repr
    (SignatureValidator_init {[ "stars" := accented_token ]}) 0 "stars" []
    accented_token = false.
Proof.
  apply non_ascii_signature_rejected. reflexivity.
Defined.

Definition yookassa_validator : SignatureValidator :=
  SignatureValidator_init {[ "yookassa" := "s3cr3t" ]}.

Definition text_dated_payload : dict :=
  [ ("invoice_id", VInt 528); ("timestamp", VStr "1700000000") ].

Lemma malformed_payload_rejected_witness :
  validate sample_mac sample_dumps sample_repr yookassa_validator 0 "yookassa"
    [ ("event", VStr "payment.succeeded"); ("object", VStr "2d1f") ] "00" = false
  ∧ validate sample_mac sample_dumps sample_repr cryptopay_validator 0
      "cryptopay" [ ("amount", VNone) ] "00" = false
  ∧ validate sample_mac sample_dumps sample_repr cryptopay_validator
      (1700000000 * tps) "cryptopay" text_dated_payload
      (hmac_hexdigest sample_mac "12345:AAtoken"
         (default "" (sample_dumps text_dated_payload))) = false.
Proof.
  split; [| split].
  - destruct (malformed_payload_rejected sample_mac sample_dumps sample_repr
                yookassa_validator 0 "yookassa"
                [ ("event", VStr "payment.succeeded"); ("object", VStr "2d1f") ]
                "00") as (Hobj & _).
    apply Hobj; [reflexivity |]. exists (VStr "2d1f"). split; [reflexivity |].
    intros d. discriminate.
  - destruct (malformed_payload_rejected sample_mac sample_dumps sample_repr
                cryptopay_validator 0 "cryptopay" [ ("amount", VNone) ] "00")
      as (_ & Hdump & _).
    apply Hdump; [left; reflexivity | reflexivity].
  - destruct (malformed_payload_rejected sample_mac sample_dumps sample_repr
                cryptopay_validator (1700000000 * tps) "cryptopay"
                text_dated_payload "00") as (_ & _ & Hts).
    apply (Hts ltac:(left; reflexivity) "12345:AAtoken"
             (default "" (sample_dumps text_dated_payload))
             (VStr "1700000000"));
      [vm_compute; reflexivity | vm_compute; reflexivity | reflexivity | exact I].
Defined.

(** Two yookassa notifications of one payment that differ in the amount. *)
Definition yookassa_payload (amount : string) : dict :=
  [ ("event", VStr "payment.succeeded");
    ("object", VDict [ ("id", VStr "2d1f"); ("amount", VStr amount) ]) ].

Lemma unsigned_items_not_covered_witness :
  validate sample_mac sample_dumps sample_repr yookassa_validator 0 "yookassa"
    (yookassa_payload "100.00")
    (hmac_hexdigest sample_mac "s3cr3t" "payment.succeeded&2d1f&s3cr3t")
  = validate sample_mac sample_dumps sample_repr yookassa_validator 0 "yookassa"
      (yookassa_payload "999999.00")
      (hmac_hexdigest sample_mac "s3cr3t" "payment.succeeded&2d1f&s3cr3t")
  ∧ validate sample_mac sample_dumps sample_repr yookassa_validator 0 "yookassa"
      (yookassa_payload "999999.00")
      (hmac_hexdigest sample_mac "s3cr3t" "payment.succeeded&2d1f&s3cr3t")
    = true.
Proof.
  split; [| vm_compute; reflexivity].
  destruct (unsigned_items_not_covered sample_mac sample_dumps sample_repr
              yookassa_validator 0 "yookassa" (yookassa_payload "100.00")
              (yookassa_payload "999999.00")
              (hmac_hexdigest sample_mac "s3cr3t" "payment.succeeded&2d1f&s3cr3t"))
    as (Hyk & _).
  apply Hyk; [reflexivity | reflexivity |].
  eexists _, _. split; [reflexivity |]. split; reflexivity.
Defined.

(** ** Further properties of the IP whitelist *)

(** Every provider of [whitelists] is a provider of [whitelists'], with at
    least the same networks. *)
Definition wider (whitelists whitelists' : gmap string (gset IPNetwork)) : Prop :=
  ∀ provider networks,
    whitelists !! provider = Some networks →
    ∃ networks', whitelists' !! provider = Some networks' ∧ networks ⊆ networks'.

Lemma wider_refl (whitelists : gmap string (gset IPNetwork)) : wider whitelists whitelists.
Proof. intros p nets Hp. by exists nets. Qed.

Lemma wider_trans w1 w2 w3 : wider w1 w2 → wider w2 w3 → wider w1 w3.
Proof.
  intros H12 H23 p nets Hp. destruct (H12 p nets Hp) as (n2 & Hp2 & Hs2).
  destruct (H23 p n2 Hp2) as (n3 & Hp3 & Hs3). exists n3. split; [done |].
  set_solver.
Qed.

Lemma wider_insert (whitelists : gmap string (gset IPNetwork)) provider
    (networks : gset IPNetwork) :
  default ∅ (whitelists !! provider) ⊆ networks →
  wider whitelists (<[provider := networks]> whitelists).
Proof.
  intros Hsub p nets Hp. destruct (decide (p = provider)) as [-> | Hne].
  - exists networks. rewrite lookup_insert_eq. split; [done |].
    by rewrite Hp in Hsub.
  - exists nets. by rewrite lookup_insert_ne.
Qed.

Section IPWhitelistMore.

Variable IPv6Address : string → option N.
Variable ip_network : string → option IPNetwork.

Implicit Types (whitelists : gmap string (gset IPNetwork)).

Lemma is_allowed_mono whitelists whitelists' provider address :
  wider whitelists whitelists' →
  is_allowed IPv6Address whitelists provider address = true →
  is_allowed IPv6Address whitelists' provider address = true.
Proof.
  intros Hw (networks & ip & network & Hp & Hip & Hin & Hc)%is_allowed_iff.
  destruct (Hw provider networks Hp) as (networks' & Hp' & Hsub).
  apply is_allowed_iff. exists networks', ip, network.
  repeat split; try done. by apply Hsub.
Qed.

Lemma is_allowed_other whitelists whitelists' provider address :
  whitelists' !! provider = whitelists !! provider →
  is_allowed IPv6Address whitelists' provider address
  = is_allowed IPv6Address whitelists provider address.
Proof. unfold is_allowed. by intros ->. Qed.

(** X25.  [add_ip] with an entry that parses returns [True] and only
    widens: every address inside the new network is allowed for the
    provider (a provider without whitelist gets one), every address that was
    allowed for a provider still is, and the verdicts for the other
    providers do not change.  With an entry that does not parse it returns
    [False] and the whitelists stay as they were. *)
Theorem add_ip_widens whitelists provider entry :
  (∀ network,
     ip_network entry = Some network →
     let whitelists' := (add_ip ip_network whitelists provider entry).2 in
     (add_ip ip_network whitelists provider entry).1 = true
     ∧ (∀ address ip,
          ip_address IPv6Address address = Some ip → contains network ip = true →
          is_allowed IPv6Address whitelists' provider address = true)
     ∧ (∀ address,
          is_allowed IPv6Address whitelists provider address = true →
          is_allowed IPv6Address whitelists' provider address = true)
     ∧ (∀ other address,
          other ≠ provider →
          is_allowed IPv6Address whitelists' other address
          = is_allowed IPv6Address whitelists other address))
  ∧ (ip_network entry = None →
     add_ip ip_network whitelists provider entry = (false, whitelists)).
Proof.
  split.
  - intros network Hnet. unfold add_ip. rewrite Hnet. cbn [fst snd].
    split; [done |]. split; [| split].
    + intros address ip Hip Hc. apply is_allowed_iff.
      eexists _, ip, network. rewrite lookup_insert_eq.
      repeat split; try done. set_solver.
    + intros address. apply is_allowed_mono, wider_insert. set_solver.
    + intros other address Hne. apply is_allowed_other.
      by rewrite lookup_insert_ne.
  - intros Hnet. unfold add_ip. by rewrite Hnet.
Qed.

(** X26.  [remove_ip] undoes [add_ip]: for a provider that has a whitelist
    and a network that is not in it, adding the network and removing it
    again, under the same or another spelling of it, returns [True] and
    restores the whitelists exactly; removing it without adding it first
    returns [False] and changes nothing. *)
Theorem add_remove_round_trip whitelists provider networks entry entry' network :
  whitelists !! provider = Some networks →
  ip_network entry = Some network → ip_network entry' = Some network →
  network ∉ networks →
  remove_ip ip_network (add_ip ip_network whitelists provider entry).2
            provider entry'
  = (true, whitelists)
  ∧ remove_ip ip_network whitelists provider entry' = (false, whitelists).
Proof.
  clear IPv6Address. intros Hp Hnet Hnet' Hnotin. split.
  - unfold add_ip, remove_ip. rewrite Hnet, Hnet'. cbn [snd].
    rewrite lookup_insert_eq, Hp. cbn [default from_option id].
    rewrite decide_True by set_solver. rewrite insert_insert_eq.
    replace (({[network]} ∪ networks) ∖ {[network]}) with networks
      by set_solver.
    by rewrite insert_id.
  - unfold remove_ip. rewrite Hp, Hnet'. by rewrite decide_False.
Qed.

(** X27.  [clear_whitelist] closes a provider, it does not open it: after
    it no address is allowed for the provider, and the verdicts for the
    other providers do not change.  For a provider without whitelist it
    returns [False], and no address is allowed for such a provider
    either. *)
Theorem clear_whitelist_denies_all whitelists provider :
  (is_Some (whitelists !! provider) →
   (clear_whitelist whitelists provider).1 = true
   ∧ ∀ address,
       is_allowed IPv6Address (clear_whitelist whitelists provider).2
         provider address = false)
  ∧ (whitelists !! provider = None →
     clear_whitelist whitelists provider = (false, whitelists)
     ∧ ∀ address, is_allowed IPv6Address whitelists provider address = false)
  ∧ (∀ other address,
       other ≠ provider →
       is_allowed IPv6Address (clear_whitelist whitelists provider).2
         other address
       = is_allowed IPv6Address whitelists other address).
Proof.
  unfold clear_whitelist. split; [| split].
  - intros [networks Hp]. rewrite Hp. cbn [fst snd]. split; [done |].
    intros address. unfold is_allowed. rewrite lookup_insert_eq.
    rewrite elements_empty. by destruct (ip_address IPv6Address address).
  - intros Hp. rewrite Hp. split; [done |].
    intros address. unfold is_allowed. by rewrite Hp.
  - intros other address Hne. apply is_allowed_other.
    destruct (whitelists !! provider); cbn [snd]; [| done].
    by rewrite lookup_insert_ne.
Qed.

(** X28.  [allows_all] in [get_stats] overstates.  For a provider whose
    whitelist is the one network [0.0.0.0/0] (the default of cryptopay and
    of tribute) the statistics report one network and [allows_all = True];
    every address that parses as IPv4 is allowed, and every address that
    parses as IPv6 only is refused. *)
Theorem allows_all_overstates whitelists provider :
  whitelists !! provider = Some {[ IPv4Network 0 0 0 0 0 ]} →
  IPWhitelistStats.get_stats whitelists !! provider
  = Some {| IPWhitelistStats.count := 1; IPWhitelistStats.allows_all := true |}
  ∧ (∀ address,
       is_Some (IPv4Address address) →
       is_allowed IPv6Address whitelists provider address = true)
  ∧ (∀ address,
       IPv4Address address = None → is_Some (IPv6Address address) →
       is_allowed IPv6Address whitelists provider address = false).
Proof.
  intros Hp. split; [| split].
  - unfold IPWhitelistStats.get_stats. rewrite lookup_fmap, Hp. cbn [fmap option_fmap option_map].
    by rewrite size_singleton, elements_singleton.
  - intros address [n Hn]. unfold is_allowed, ip_address. rewrite Hp, Hn.
    rewrite elements_singleton. cbn [existsb]. rewrite orb_false_r.
    apply (universal_contains V4).
  - intros address H4 [n Hn]. unfold is_allowed, ip_address. rewrite Hp, H4, Hn.
    by rewrite elements_singleton.
Qed.

Lemma wider_init_custom custom start :
  wider start
    (foldl (λ whitelists item,
              match whitelists !! item.1 with
              | Some networks =>
                  <[item.1 := networks ∪ _parse_ip_list ip_network item.2]> whitelists
              | None => <[item.1 := _parse_ip_list ip_network item.2]> whitelists
              end) start custom).
Proof.
  clear IPv6Address.
  revert start. induction custom as [| item custom IH]; intros start;
    [apply wider_refl |].
  cbn [foldl]. eapply wider_trans; [| apply IH].
  destruct (start !! item.1) as [networks |] eqn:Hp;
    apply wider_insert; rewrite Hp; cbn [default from_option id]; set_solver.
Qed.

Lemma parse_ip_list_acc ips (acc : gset IPNetwork) :
  acc ⊆ foldl (λ networks ip_str,
                 match ip_network ip_str with
                 | Some network => {[ network ]} ∪ networks
                 | None => networks
                 end) acc ips.
Proof.
  clear IPv6Address.
  revert acc. induction ips as [| entry ips IH]; intros acc; [done |].
  cbn [foldl]. etrans; [| apply IH].
  destruct (ip_network entry); set_solver.
Qed.

Lemma parse_ip_list_elem ips entry network :
  entry ∈ ips → ip_network entry = Some network →
  network ∈ _parse_ip_list ip_network ips.
Proof.
  clear IPv6Address. unfold _parse_ip_list. generalize (∅ : gset IPNetwork).
  induction ips as [| e ips IH]; intros acc Hin Hnet;
    [by apply elem_of_nil in Hin |].
  cbn [foldl]. apply elem_of_cons in Hin as [<- | Hin].
  - rewrite Hnet. apply parse_ip_list_acc. set_solver.
  - by apply IH.
Qed.

Lemma init_custom_item custom start item :
  item ∈ custom →
  ∃ networks,
    foldl (λ whitelists item,
             match whitelists !! item.1 with
             | Some networks =>
                 <[item.1 := networks ∪ _parse_ip_list ip_network item.2]> whitelists
             | None => <[item.1 := _parse_ip_list ip_network item.2]> whitelists
             end) start custom !! item.1 = Some networks
    ∧ _parse_ip_list ip_network item.2 ⊆ networks.
Proof.
  clear IPv6Address.
  revert start. induction custom as [| it custom IH]; intros start Hin;
    [by apply elem_of_nil in Hin |].
  cbn [foldl]. apply elem_of_cons in Hin as [<- | Hin]; [| by apply IH].
  match goal with |- context [foldl ?f ?a custom] =>
    pose proof (wider_init_custom custom a) as Hw end.
  destruct (start !! item.1) as [networks |] eqn:Hp.
  - destruct (Hw item.1 (networks ∪ _parse_ip_list ip_network item.2))
      as (nets' & Hnets' & Hsub); [apply lookup_insert_eq |].
    exists nets'. split; [done |]. set_solver.
  - destruct (Hw item.1 (_parse_ip_list ip_network item.2))
      as (nets' & Hnets' & Hsub); [apply lookup_insert_eq |].
    exists nets'. split; [done |]. set_solver.
Qed.

Lemma parse_ip_list_only ips (acc : gset IPNetwork) network :
  network ∈ foldl (λ networks ip_str,
                     match ip_network ip_str with
                     | Some network => {[ network ]} ∪ networks
                     | None => networks
                     end) acc ips →
  network ∈ acc ∨ ∃ entry, entry ∈ ips ∧ ip_network entry = Some network.
Proof.
  clear IPv6Address.
  revert acc. induction ips as [| e ips IH]; intros acc Hin; [by left |].
  cbn [foldl] in Hin. apply IH in Hin as [Hin | (entry & Hentry & Hnet)].
  - destruct (ip_network e) as [n |] eqn:He; [| by left].
    apply elem_of_union in Hin as [Hin%elem_of_singleton | Hin]; [| by left].
    subst n. right. exists e. split; [left | done].
  - right. exists entry. split; [by right | done].
Qed.

Lemma init_custom_only custom start provider networks network :
  foldl (λ whitelists item,
           match whitelists !! item.1 with
           | Some networks =>
               <[item.1 := networks ∪ _parse_ip_list ip_network item.2]> whitelists
           | None => <[item.1 := _parse_ip_list ip_network item.2]> whitelists
           end) start custom !! provider = Some networks →
  network ∈ networks →
  (∃ networks0, start !! provider = Some networks0 ∧ network ∈ networks0)
  ∨ ∃ entries entry,
      (provider, entries) ∈ custom ∧ entry ∈ entries
      ∧ ip_network entry = Some network.
Proof.
  clear IPv6Address.
  revert start. induction custom as [| [p ips] custom IH]; intros start Hp Hin.
  - left. by exists networks.
  - cbn [foldl fst snd] in Hp.
    destruct (IH _ Hp Hin)
      as [(networks0 & Hp0 & Hin0) | (entries & entry & Hitem & Hentry & Hnet)].
    + destruct (decide (provider = p)) as [-> | Hne].
      * assert (network ∈ default ∅ (start !! p) ∪ _parse_ip_list ip_network ips)
          as Hcases.
        { destruct (start !! p) as [old |]; rewrite lookup_insert_eq in Hp0;
            injection Hp0 as <-; cbn [default from_option id];
            [done | by apply elem_of_union_r]. }
        apply elem_of_union in Hcases as [Hold | Hnew].
        -- left. destruct (start !! p) as [old |]; [by exists old |].
           by apply elem_of_empty in Hold.
        -- right. apply parse_ip_list_only in Hnew
             as [Hempty | (entry & Hentry & Hnet)];
             [by apply elem_of_empty in Hempty |].
           exists ips, entry. split; [left | done].
      * left. exists networks0. split; [| done].
        destruct (start !! p); by rewrite lookup_insert_ne in Hp0.
    + right. exists entries, entry. split; [by right | done].
Qed.

(** X29.  Custom whitelists given to the constructor widen the defaults by
    the networks their entries parse to, and by nothing else.  Whatever the
    custom lists are, every address the default whitelist of a provider
    allows is still allowed; every address inside a network that a custom
    entry of the provider parses to is allowed (a provider without default
    whitelist gets one); and no other address is allowed.  Entries that do
    not parse are skipped: a list of such entries parses to no network. *)
Theorem custom_whitelists_only_widen custom provider address :
  (is_allowed IPv6Address IPWhitelist_init provider address = true →
   is_allowed IPv6Address (IPWhitelist_init_custom ip_network custom)
     provider address = true)
  ∧ (∀ entries entry network ip,
       (provider, entries) ∈ custom → entry ∈ entries →
       ip_network entry = Some network →
       ip_address IPv6Address address = Some ip → contains network ip = true →
       is_allowed IPv6Address (IPWhitelist_init_custom ip_network custom)
         provider address = true)
  ∧ (is_allowed IPv6Address (IPWhitelist_init_custom ip_network custom)
       provider address = true →
     is_allowed IPv6Address IPWhitelist_init provider address = true
     ∨ ∃ entries entry network ip,
         (provider, entries) ∈ custom ∧ entry ∈ entries
         ∧ ip_network entry = Some network
         ∧ ip_address IPv6Address address = Some ip
         ∧ contains network ip = true)
  ∧ (∀ entries,
       (∀ entry, entry ∈ entries → ip_network entry = None) →
       _parse_ip_list ip_network entries = ∅).
Proof.
  split; [apply is_allowed_mono, wider_init_custom |]. split; [| split].
  - intros entries entry network ip Hitem Hentry Hnet Hip Hc.
    destruct (init_custom_item custom IPWhitelist_init (provider, entries) Hitem)
      as (networks & Hp & Hsub).
    apply is_allowed_iff. exists networks, ip, network.
    split; [exact Hp |]. split; [done |]. split; [| done].
    apply Hsub. by apply (parse_ip_list_elem entries entry).
  - intros (networks & ip & network & Hp & Hip & Hin & Hc)%is_allowed_iff.
    destruct (init_custom_only custom IPWhitelist_init provider networks network
                Hp Hin)
      as [(networks0 & Hp0 & Hin0) | (entries & entry & Hitem & Hentry & Hnet)].
    + left. apply is_allowed_iff. by exists networks0, ip, network.
    + right. by exists entries, entry, network, ip.
  - intros entries Hnone. apply set_eq. intros network. split.
    + intros [Hin | (entry & Hentry & Hnet)]%parse_ip_list_only; [done |].
      by rewrite (Hnone entry Hentry) in Hnet.
    + intros Hin. by apply elem_of_empty in Hin.
Qed.

End IPWhitelistMore.

(** *** The whitelist on sample entries *)

(** A stand-in for the open network parser: two spellings of [10.0.0.0/8],
    and single IPv4 addresses. *)
Definition sample_ip_network (entry : string) : option IPNetwork :=
  if decide (entry = "10.0.0.0/8") then Some (IPv4Network 10 0 0 0 8)
  else if decide (entry = "10.1.2.3/8") then Some (IPv4Network 10 0 0 0 8)
  else match IPv4Address entry with
       | Some n => Some {| net_version := V4; network_address := n;
                           prefixlen := 32 |}
       | None => None
       end.

Lemma add_ip_widens_witness :
  is_allowed sample_IPv6Address
    (add_ip sample_ip_network IPWhitelist_init "yookassa" "10.0.0.0/8").2
    "yookassa" "10.9.9.9" = true
  ∧ is_allowed sample_IPv6Address
      (add_ip sample_ip_network IPWhitelist_init "yookassa" "10.0.0.0/8").2
      "yookassa" "185.71.76.5" = true
  ∧ add_ip sample_ip_network IPWhitelist_init "yookassa" "10.0.0.0/33"
    = (false, IPWhitelist_init).
Proof.
  destruct (add_ip_widens sample_IPv6Address sample_ip_network IPWhitelist_init
              "yookassa" "10.0.0.0/8") as [Hadd _].
  destruct (add_ip_widens sample_IPv6Address sample_ip_network IPWhitelist_init
              "yookassa" "10.0.0.0/33") as [_ Hbad].
  destruct (Hadd (IPv4Network 10 0 0 0 8) eq_refl) as (_ & Hnew & Hold & _).
  split; [| split].
  - apply (Hnew "10.9.9.9" {| version := V4; _ip := ipv4 10 9 9 9 |});
      vm_compute; reflexivity.
  - apply Hold. vm_compute. reflexivity.
  - apply Hbad. vm_compute. reflexivity.
Defined.

Lemma add_remove_round_trip_witness :
  remove_ip sample_ip_network
    (add_ip sample_ip_network IPWhitelist_init "stars" "10.0.0.0/8").2
    "stars" "10.1.2.3/8"
  = (true, IPWhitelist_init)
  ∧ remove_ip sample_ip_network IPWhitelist_init "stars" "10.1.2.3/8"
    = (false, IPWhitelist_init).
Proof.
  apply (add_remove_round_trip sample_ip_network IPWhitelist_init "stars"
           (list_to_set [ IPv4Network 149 154 160 0 20; IPv4Network 91 108 4 0 22 ])
           "10.0.0.0/8" "10.1.2.3/8" (IPv4Network 10 0 0 0 8));
    [reflexivity | reflexivity | reflexivity |].
  apply (bool_decide_unpack _). vm_compute. exact I.
Defined.

Lemma clear_whitelist_denies_all_witness :
  is_allowed sample_IPv6Address IPWhitelist_init "yookassa" "185.71.76.5" = true
  ∧ is_allowed sample_IPv6Address
      (clear_whitelist IPWhitelist_init "yookassa").2 "yookassa" "185.71.76.5"
    = false
  ∧ is_allowed sample_IPv6Address IPWhitelist_init "paypal" "185.71.76.5"
    = false.
Proof.
  destruct (clear_whitelist_denies_all sample_IPv6Address IPWhitelist_init
              "yookassa") as (Hclear & _ & _).
  destruct (clear_whitelist_denies_all sample_IPv6Address IPWhitelist_init
              "paypal") as (_ & Habsent & _).
  split; [vm_compute; reflexivity |]. split.
  - apply Hclear. eexists. reflexivity.
  - apply Habsent. reflexivity.
Defined.

Lemma allows_all_overstates_witness :
  IPWhitelistStats.get_stats IPWhitelist_init !! "cryptopay"
  = Some {| IPWhitelistStats.count := 1; IPWhitelistStats.allows_all := true |}
  ∧ is_allowed sample_IPv6Address IPWhitelist_init "cryptopay" "8.8.8.8" = true
  ∧ is_allowed sample_IPv6Address IPWhitelist_init "cryptopay" "::1" = false.
Proof.
  destruct (allows_all_overstates sample_IPv6Address IPWhitelist_init
              "cryptopay" eq_refl) as (Hstats & H4 & H6).
  split; [exact Hstats |]. split.
  - apply H4. eexists. reflexivity.
  - apply H6; [reflexivity |]. eexists. reflexivity.
Defined.

Lemma custom_whitelists_only_widen_witness :
  is_allowed sample_IPv6Address
    (IPWhitelist_init_custom sample_ip_network
       [ ("yookassa", [ "not an address"; "10.0.0.0/8" ]) ])
    "yookassa" "185.71.76.5" = true
  ∧ is_allowed sample_IPv6Address
      (IPWhitelist_init_custom sample_ip_network
         [ ("yookassa", [ "not an address"; "10.0.0.0/8" ]) ])
      "yookassa" "10.9.9.9" = true
  ∧ is_allowed sample_IPv6Address
      (IPWhitelist_init_custom sample_ip_network
         [ ("yookassa", [ "not an address"; "10.0.0.0/8" ]) ])
      "yookassa" "11.0.0.1" = false
  ∧ _parse_ip_list sample_ip_network [ "not an address"; "10.0.0.0/33" ] = ∅.
Proof.
  split; [| split; [| split]].
  - destruct (custom_whitelists_only_widen sample_IPv6Address sample_ip_network
                [ ("yookassa", [ "not an address"; "10.0.0.0/8" ]) ]
                "yookassa" "185.71.76.5") as [Hdefault _].
    apply Hdefault. vm_compute. reflexivity.
  - destruct (custom_whitelists_only_widen sample_IPv6Address sample_ip_network
                [ ("yookassa", [ "not an address"; "10.0.0.0/8" ]) ]
                "yookassa" "10.9.9.9") as (_ & Hcustom & _).
    apply (Hcustom [ "not an address"; "10.0.0.0/8" ] "10.0.0.0/8"
             (IPv4Network 10 0 0 0 8) {| version := V4; _ip := ipv4 10 9 9 9 |}).
    + left.
    + right. left.
    + reflexivity.
    + reflexivity.
    + vm_compute. reflexivity.
  - destruct (custom_whitelists_only_widen sample_IPv6Address sample_ip_network
                [ ("yookassa", [ "not an address"; "10.0.0.0/8" ]) ]
                "yookassa" "11.0.0.1") as (_ & _ & Honly & _).
    apply not_true_is_false. intros Hallowed.
    destruct (Honly Hallowed)
      as [Hdefault | (entries & entry & network & ip & Hitem & Hentry & Hnet & Hip & Hc)].
    + vm_compute in Hdefault. discriminate Hdefault.
    + apply list_elem_of_singleton in Hitem. injection Hitem as ->.
      injection Hip as <-.
      apply elem_of_cons in Hentry as [-> | Hentry];
        [vm_compute in Hnet; discriminate Hnet |].
      apply list_elem_of_singleton in Hentry as ->.
      injection Hnet as <-. vm_compute in Hc. discriminate Hc.
  - destruct (custom_whitelists_only_widen sample_IPv6Address sample_ip_network
                [] "yookassa" "11.0.0.1") as (_ & _ & _ & Hskip).
    apply Hskip. intros entry Hentry.
    apply elem_of_cons in Hentry as [-> | Hentry]; [reflexivity |].
    apply list_elem_of_singleton in Hentry as ->. reflexivity.
Defined.

(** ** Properties of the webhook gate *)

(** A text without white space and without a comma. *)
Fixpoint plain (s : string) : bool :=
  match s with
  | EmptyString => true
  | String c s' => negb (is_space c) && negb (bool_decide (c = ","%char)) && plain s'
  end.

Lemma rstrip_plain s : plain s = true → rstrip s = s.
Proof.
  induction s as [| c s IH]; [done |]. cbn [plain rstrip].
  intros [[Hc _]%andb_prop Hs]%andb_prop. rewrite (IH Hs).
  apply negb_true_iff in Hc. rewrite Hc. by destruct s.
Qed.

Lemma strip_plain s : plain s = true → strip s = s.
Proof.
  intros Hs. unfold strip. rewrite rstrip_plain by done.
  destruct s as [| c s]; [done |]. cbn [plain lstrip] in *.
  apply andb_prop in Hs as [[Hc _]%andb_prop _].
  apply negb_true_iff in Hc. by rewrite Hc.
Qed.

Lemma split_on_first_hop ip rest :
  plain ip = true → hd "" (split_on ","%char (ip +:+ String ","%char rest)) = ip.
Proof.
  induction ip as [| c ip IH]; intros Hp.
  - change ("" +:+ String ","%char rest) with (String ","%char rest).
    cbn [split_on]. by rewrite decide_True.
  - cbn [plain] in Hp. apply andb_prop in Hp as [[_ Hc]%andb_prop Hp].
    apply negb_true_iff, bool_decide_eq_false in Hc.
    change (String c ip +:+ String ","%char rest)
      with (String c (ip +:+ String ","%char rest)).
    cbn [split_on]. rewrite decide_False by done.
    specialize (IH Hp).
    destruct (split_on ","%char (ip +:+ String ","%char rest)) as [| w ws];
      cbn [hd] in *; by subst.
Qed.

Lemma split_on_single ip :
  plain ip = true → split_on ","%char ip = [ip].
Proof.
  induction ip as [| c ip IH]; intros Hp; [done |].
  cbn [plain] in Hp. apply andb_prop in Hp as [[_ Hc]%andb_prop Hp].
  apply negb_true_iff, bool_decide_eq_false in Hc.
  cbn [split_on]. rewrite decide_False by done. by rewrite (IH Hp).
Qed.

Lemma IPWhitelist_init_providers provider :
  is_Some (IPWhitelist_init !! provider) → provider ∈ providers.
Proof.
  intros [networks Hp]. unfold IPWhitelist_init, DEFAULT_WHITELISTS in Hp.
  cbn [List.map fst snd] in Hp.
  apply elem_of_list_to_map_2 in Hp. unfold providers.
  repeat (apply elem_of_cons in Hp as [[= -> _] | Hp];
          [repeat first [ by left | right ] |]).
  by apply elem_of_nil in Hp.
Qed.

Section WebhookFacts.

Variable hmac_sha256 : bytes → bytes → bytes.
Variable json_dumps : dict → option string.
Variable repr : Value → string.
Variable IPv6Address : string → option N.

(** X30.  The gate of [validate_webhook].  The decorated handler is called
    only for a request that carries a non-empty signature header and a
    parsable body for which [validate] returns [True].  With the IP check
    on, the address checked is taken from the [X-Forwarded-For] header
    whenever the request has that header, whatever its value and whatever
    the peer address [request.remote] is, and from [request.remote]
    otherwise; it is the text before the first comma, stripped of white
    space, so the address itself when the value is one address, and the
    first hop when the value is a list.  The request is answered 403
    exactly when that address is not allowed, and always when the request
    has neither header nor peer address.  The whitelist is looked up under
    the provider name as given, so with the default whitelists every
    request for a provider name that is not one of the six lower-case names
    is answered 403. *)
Theorem validate_webhook_gate provider signature_header check_ip
    signature_validator ip_whitelist now request :
  let respond :=
    validate_webhook hmac_sha256 json_dumps repr IPv6Address provider
      signature_header check_ip signature_validator ip_whitelist now in
  (respond request = Handled →
   ∃ validator header_name signature payload,
     signature_validator = Some validator
     ∧ headers request header_name = Some signature ∧ signature ≠ ""
     ∧ json request = Some payload
     ∧ validate hmac_sha256 json_dumps repr validator now provider payload
         signature = true)
  ∧ (∀ validator whitelist,
       signature_validator = Some validator → ip_whitelist = Some whitelist →
       check_ip = true →
       (∀ value,
          headers request "X-Forwarded-For" = Some value →
          (respond request = Response 403 "Forbidden"
           ↔ is_allowed IPv6Address whitelist provider
               (strip (hd "" (split_on ","%char value))) = false))
       ∧ (∀ value ip,
            headers request "X-Forwarded-For" = Some value →
            plain ip = true →
            value = ip ∨ (∃ rest, value = ip +:+ String ","%char rest) →
            (respond request = Response 403 "Forbidden"
             ↔ is_allowed IPv6Address whitelist provider ip = false))
       ∧ (∀ value,
            headers request "X-Forwarded-For" = None →
            remote request = Some value →
            (respond request = Response 403 "Forbidden"
             ↔ is_allowed IPv6Address whitelist provider
                 (strip (hd "" (split_on ","%char value))) = false))
       ∧ (headers request "X-Forwarded-For" = None → remote request = None →
          respond request = Response 403 "Forbidden"))
  ∧ (∀ validator,
       signature_validator = Some validator →
       ip_whitelist = Some IPWhitelist_init → check_ip = true →
       provider ∉ providers →
       respond request = Response 403 "Forbidden").
Proof.
  intros respond. subst respond. unfold validate_webhook. split; [| split].
  - destruct signature_validator as [validator |]; [| done].
    match goal with |- context [if ?b then Response 403 _ else _] =>
      destruct b end; [done |].
    match goal with |- context [headers request ?n] =>
      set (header_name := n); destruct (headers request header_name)
        as [signature |] eqn:Hsig end; [| done].
    case_decide as Hne; [done |].
    destruct (json request) as [payload |] eqn:Hjson; [| done].
    destruct (validate _ _ _ _ _ _ _ _) eqn:Hval; [| done].
    intros _. by exists validator, header_name, signature, payload.
  - intros validator whitelist -> -> ->.
    assert (∀ value,
              match headers request "X-Forwarded-For" with
              | Some value => Some value
              | None => remote request
              end = Some value →
              (validate_webhook hmac_sha256 json_dumps repr IPv6Address provider
                 signature_header true (Some validator) (Some whitelist) now
                 request = Response 403 "Forbidden"
               ↔ is_allowed IPv6Address whitelist provider
                   (strip (hd "" (split_on ","%char value))) = false))
      as Hgate.
    { intros value Hclient. unfold validate_webhook. rewrite Hclient.
      assert ((if decide (value = "") then Some value
               else Some (strip (hd "" (split_on ","%char value))))
              = Some (strip (hd "" (split_on ","%char value)))) as ->.
      { case_decide as Hv; [| done]. by subst value. }
      destruct (is_allowed IPv6Address whitelist provider _); cbn [negb];
        [| done].
      split; [| done].
      match goal with |- context [headers request ?n] =>
        destruct (headers request n) as [signature |] end; [| done].
      case_decide; [done |]. destruct (json request); [| done].
      by destruct (validate _ _ _ _ _ _ _ _). }
    fold (validate_webhook hmac_sha256 json_dumps repr IPv6Address provider
            signature_header true (Some validator) (Some whitelist) now request).
    split; [| split; [| split]].
    + intros value Hxff. apply Hgate; by rewrite Hxff.
    + intros value ip Hxff Hplain Hshape.
      assert (strip (hd "" (split_on ","%char value)) = ip) as <-.
      { destruct Hshape as [-> | [rest ->]].
        - by rewrite split_on_single, strip_plain.
        - by rewrite split_on_first_hop, strip_plain. }
      apply Hgate; by rewrite Hxff.
    + intros value Hxff Hremote. apply Hgate; by rewrite Hxff.
    + intros Hxff Hremote. unfold validate_webhook. by rewrite Hxff, Hremote.
  - intros validator -> -> -> Hprov.
    assert (IPWhitelist_init !! provider = None) as Hnone.
    { destruct (IPWhitelist_init !! provider) eqn:E; [| done].
      destruct Hprov. apply IPWhitelist_init_providers. by eexists. }
    assert (∀ ip, is_allowed IPv6Address IPWhitelist_init provider ip = false)
      as Hdeny by (intros ip; unfold is_allowed; by rewrite Hnone).
    destruct (headers request "X-Forwarded-For") as [value |];
      [| destruct (remote request) as [value |]; [| done]].
    all: case_decide; by rewrite Hdeny.
Qed.

End WebhookFacts.

(** *** The gate on a sample request *)

Definition stars_validator : SignatureValidator :=
  SignatureValidator_init {[ "stars" := "tok3n" ]}.

(** A request from peer 8.8.8.8 that carries the secret token and the given
    [X-Forwarded-For] value. *)
Definition forwarded_request (forwarded_for : string) : Request :=
  {| headers := λ name,
       if decide (name = "X-Forwarded-For") then Some forwarded_for
       else if decide (name = "X-Telegram-Bot-Api-Secret-Token") then Some "tok3n"
       else None;
     remote := Some "8.8.8.8";
     json := Some [ ("update_id", VInt 1) ] |}.

(** The peer 8.8.8.8 is not allowed for stars; naming a Telegram address in
    the header, alone or as the first hop, gets the request through. *)
Lemma validate_webhook_gate_witness :
  is_allowed sample_IPv6Address IPWhitelist_init "stars" "8.8.8.8" = false
  ∧ validate_webhook sample_mac sample_dumps sample_repr sample_IPv6Address
      "stars" None true (Some stars_validator) (Some IPWhitelist_init) 0
      (forwarded_request "149.154.167.50") = Handled
  ∧ (validate_webhook sample_mac sample_dumps sample_repr sample_IPv6Address
       "stars" None true (Some stars_validator) (Some IPWhitelist_init) 0
       (forwarded_request "149.154.167.50") = Response 403 "Forbidden"
     ↔ is_allowed sample_IPv6Address IPWhitelist_init "stars" "149.154.167.50"
       = false)
  ∧ (validate_webhook sample_mac sample_dumps sample_repr sample_IPv6Address
       "stars" None true (Some stars_validator) (Some IPWhitelist_init) 0
       (forwarded_request "149.154.167.50,10.0.0.1") = Response 403 "Forbidden"
     ↔ is_allowed sample_IPv6Address IPWhitelist_init "stars" "149.154.167.50"
       = false)
  ∧ validate_webhook sample_mac sample_dumps sample_repr sample_IPv6Address
      "Stars" None true (Some stars_validator) (Some IPWhitelist_init) 0
      (forwarded_request "149.154.167.50") = Response 403 "Forbidden".
Proof.
  split; [vm_compute; reflexivity |]. split; [vm_compute; reflexivity |].
  split; [| split].
  - destruct (validate_webhook_gate sample_mac sample_dumps sample_repr
                sample_IPv6Address "stars" None true (Some stars_validator)
                (Some IPWhitelist_init) 0 (forwarded_request "149.154.167.50"))
      as (_ & Hip & _).
    destruct (Hip stars_validator IPWhitelist_init eq_refl eq_refl eq_refl)
      as (_ & Hhop & _).
    apply (Hhop "149.154.167.50" "149.154.167.50");
      [reflexivity | reflexivity | by left].
  - destruct (validate_webhook_gate sample_mac sample_dumps sample_repr
                sample_IPv6Address "stars" None true (Some stars_validator)
                (Some IPWhitelist_init) 0
                (forwarded_request "149.154.167.50,10.0.0.1"))
      as (_ & Hip & _).
    destruct (Hip stars_validator IPWhitelist_init eq_refl eq_refl eq_refl)
      as (_ & Hhop & _).
    apply (Hhop "149.154.167.50,10.0.0.1" "149.154.167.50");
      [reflexivity | reflexivity | right; by exists "10.0.0.1"].
  - destruct (validate_webhook_gate sample_mac sample_dumps sample_repr
                sample_IPv6Address "Stars" None true (Some stars_validator)
                (Some IPWhitelist_init) 0 (forwarded_request "149.154.167.50"))
      as (_ & _ & Hcase).
    apply (Hcase stars_validator); try reflexivity.
    intros Hin. unfold providers in Hin.
    repeat (apply elem_of_cons in Hin as [Hin | Hin]; [discriminate Hin |]).
    by apply elem_of_nil in Hin.
Defined.
